(** * Faster-Whisper STT v2: the serving control plane, embedded and verified

    A shallow embedding of [faster_whisper_stt_v2] (config.py, hw_probe.py,
    resources.py, registry.py, audio_io.py, transcription.py, service.py)
    and of the driver it replaces, [faster_whisper_stt/transcriber.py].

    Conventions of the embedding.
    - Python [float] values (gigabytes, minutes, samples) are exact rationals
      [Q]; comparisons and [max] follow Python's.  Rounding is modelled
      where a floor division makes it visible, in [concurrency_hint], and
      not elsewhere.  Python [int] is [Z].
    - [dict.get(k, default)] over the tunable tables is [dict_get] over an
      association list in the order of the source.
    - A [TypedDict(total=False)] is a record of optional fields.
    - Looking at the machine is an effect: the [n]-th look returns
      [world n], and every [probe()] advances the counter. *)

From Stdlib Require Import ZArith QArith Qround Qminmax Qabs Lia Lqa Bool List String Ascii.
From stdpp Require Import base gmap strings.
Import ListNotations.

Local Open Scope string_scope.
Local Open Scope Z_scope.
Local Open Scope Q_scope.

(** ** Python primitives used by the sources *)

(** [max(a, b)] on floats: [b] is taken only when it is strictly greater. *)
Definition py_max (a b : Q) : Q := if Qle_bool b a then a else b.

(** [d.get(k, default)] for a dict literal with string keys. *)
Fixpoint dict_get (k : string) (dflt : Q) (d : list (string * Q)) : Q :=
  match d with
  | [] => dflt
  | (k', v) :: rest => if String.eqb k k' then v else dict_get k dflt rest
  end.

(** [key in d] / [value is not None] for an optional field. *)
Definition has_key {A} (o : option A) : bool :=
  match o with Some _ => true | None => false end.

(** [x or d] on integers: [0] is falsy. *)
Definition int_or (x d : Z) : Z := if Z.eqb x 0 then d else x.

(** *** Binary64, where rounding shows

    A floor division turns the last bit of its operands into a whole unit of
    the result: [10.0 // 0.1] is 99 in Python, because the float [0.1] is a
    little more than a tenth.  Where the source divides this way
    ([concurrency_hint]) floats are the rationals binary64 has, and [fl] is
    the rounding Python applies to a literal, to a number it is handed and
    to the result of an operation: to the nearest float, ties to the even
    one.  Magnitudes are taken in the normal range, as sizes in gigabytes
    are. *)

(** [2^e]. *)
Definition pow2 (e : Z) : Q :=
  if (0 <=? e)%Z then inject_Z (2 ^ e) else 1 / inject_Z (2 ^ (- e)).

(** To the nearest integer, ties to the even one. *)
Definition round_half_even (x : Q) : Z :=
  let f := Qfloor x in
  match Qcompare (x - inject_Z f) (1 # 2) with
  | Lt => f
  | Gt => (f + 1)%Z
  | Eq => if Z.even f then f else (f + 1)%Z
  end.

(** The binary exponent [e] of a positive number: [2^e <= x < 2^(e+1)]. *)
Definition binade (x : Q) : Z :=
  let e := (Z.log2 (Qnum x) - Z.log2 (Zpos (Qden x)))%Z in
  if Qle_bool (pow2 e) x then e else (e - 1)%Z.

(** The float nearest to [x]: 53 significant bits. *)
Definition fl (x : Q) : Q :=
  match Qnum x with
  | Z0 => 0
  | Zpos _ => let u := pow2 (binade x - 52) in inject_Z (round_half_even (x / u)) * u
  | Zneg _ => let u := pow2 (binade (- x) - 52) in
              - (inject_Z (round_half_even (- x / u)) * u)
  end.

(** [a - b] on floats: the difference of the two floats, rounded. *)
Definition fsub (a b : Q) : Q := fl (fl a - fl b).

(** [int(a // b)] on two floats, [b] positive and [a] not negative: CPython
    takes [fmod(a, b)], which is exact, divides what is left and corrects the
    floor, so that the result is the floor of the exact quotient of the two
    floats (as long as it is below 2^51). *)
Definition floordiv (a b : Q) : Z := Qfloor (a / b).

(** ** config.py *)
Module Config.

Definition MODEL_RESIDENT_GB : list (string * Q) :=
  [ ("tiny", 0.7); ("base", 1.4); ("small", 2.5); ("medium", 5.0);
    ("large", 10.0); ("large-v2", 11.0); ("large-v3", 12.0) ].

Definition COMPUTE_MULTIPLIER : list (string * Q) :=
  [ ("float32", 2.0); ("float16", 1.0); ("int8", 0.6) ].

Definition TRANSIENT_PER_MIN_GB : list (string * Q) :=
  [ ("tiny", 0.2); ("base", 0.2); ("small", 0.3); ("medium", 0.5);
    ("large", 0.8); ("large-v2", 0.9); ("large-v3", 1.0) ].

Definition DEFAULT_BEAM_BASELINE : Z := 5.

Definition GPU_VRAM_MARGIN_GB : Q := 1.5.
Definition CPU_RAM_MARGIN_GB : Q := 2.0.

Definition DEFAULT_GPU_CONCURRENCY : Z := 1.
Definition DEFAULT_CPU_CONCURRENCY : Z := 2.

End Config.

(** ** hw_probe.py *)
Module HwProbe.

(** What the three probing functions report at one look at the machine:
    [gpu_memory_gb()] and [ram_gb()] give [(total, free)] or [None],
    [is_cuda_available()] a boolean. *)
Record Machine := {
  gpu_memory_gb : option (Q * Q);
  ram_gb : option (Q * Q);
  is_cuda_available : bool
}.

Definition resolve_auto_device_compute (hw : Machine)
    (device compute_type : string) : string * string :=
  let d := if String.eqb device "auto"
           then (if is_cuda_available hw then "cuda" else "cpu")
           else device in
  let c := if String.eqb compute_type "auto"
           then (if String.eqb d "cuda" then "float16" else "float32")
           else compute_type in
  (d, c).

End HwProbe.

(** ** types.py and resources.py *)
Module Resources.
Import HwProbe.

Record ResourceSnapshot := {
  gpu_present : option bool;
  gpu_total_gb : option Q;
  gpu_free_gb : option Q;
  ram_total_gb : option Q;
  ram_available_gb : option Q
}.

(** The dict [{}]. *)
Definition empty_snapshot : ResourceSnapshot :=
  {| gpu_present := None; gpu_total_gb := None; gpu_free_gb := None;
     ram_total_gb := None; ram_available_gb := None |}.

(** Truth value of a dict: it has at least one key. *)
Definition truthy (s : ResourceSnapshot) : bool :=
  has_key (gpu_present s) || has_key (gpu_total_gb s) || has_key (gpu_free_gb s)
  || has_key (ram_total_gb s) || has_key (ram_available_gb s).

(** [snap.get(key, 0.0)] and [not snap.get("gpu_present")]. *)
Definition get_or_zero (field : option Q) : Q := default 0 field.
Definition gpu_absent (s : ResourceSnapshot) : bool :=
  match gpu_present s with Some true => false | _ => true end.

Record Estimate := { resident_gb : Q; transient_gb : Q }.

(** The message of a rejection.  The f-strings of the source print [need]
    and [free] with two decimals; the embedding keeps the two numbers. *)
Inductive Reason :=
| GpuNotPresent
| InsufficientVRAM (need free : Q)
| InsufficientRAM (need free : Q)
| InsufficientResources.

Record ResourceRejectedError := {
  message : Reason;
  snapshot : ResourceSnapshot
}.

(** [ResourceRejectedError.__init__]: [self.snapshot = snapshot or {}]. *)
Definition mkResourceRejectedError (msg : Reason) (snap : ResourceSnapshot)
    : ResourceRejectedError :=
  {| message := msg; snapshot := if truthy snap then snap else empty_snapshot |}.

Record ResourceManager := { gpu_margin_gb : Q; ram_margin_gb : Q }.

(** [ResourceManager()] with the dataclass defaults. *)
Definition default_manager : ResourceManager :=
  {| gpu_margin_gb := Config.GPU_VRAM_MARGIN_GB;
     ram_margin_gb := Config.CPU_RAM_MARGIN_GB |}.

(** [probe] packages one look at the machine. *)
Definition snapshot_of (hw : Machine) : ResourceSnapshot :=
  {| gpu_present := Some (has_key (gpu_memory_gb hw));
     gpu_total_gb := fst <$> gpu_memory_gb hw;
     gpu_free_gb := snd <$> gpu_memory_gb hw;
     ram_total_gb := fst <$> ram_gb hw;
     ram_available_gb := snd <$> ram_gb hw |}.

Definition estimate (self : ResourceManager) (model_name compute_type : string)
    (audio_minutes : Q) (beam_size : Z) : Estimate :=
  let base_resident := dict_get model_name 2.0 Config.MODEL_RESIDENT_GB in
  let precision_mult := dict_get compute_type 1.0 Config.COMPUTE_MULTIPLIER in
  let resident := base_resident * precision_mult in
  let base_transient := dict_get model_name 0.3 Config.TRANSIENT_PER_MIN_GB in
  let beam_scale :=
    py_max 1.0 (inject_Z beam_size / inject_Z Config.DEFAULT_BEAM_BASELINE) in
  let transient :=
    py_max 0.1 (base_transient * py_max 0.2 audio_minutes * beam_scale) in
  {| resident_gb := resident; transient_gb := transient |}.

(** *** The probing effect *)
Section Probing.
(** [world n] is what the machine reports at the [n]-th look. *)
Variable world : nat -> Machine.

(** A computation that may look at the machine: from the number of looks
    so far to a result and the number of looks afterwards. *)
Definition Probe (A : Type) : Type := nat -> A * nat.

Definition ret {A} (a : A) : Probe A := fun t => (a, t).
Definition bind {A B} (m : Probe A) (k : A -> Probe B) : Probe B :=
  fun t => let (a, t') := m t in k a t'.

Definition probe (self : ResourceManager) : Probe ResourceSnapshot :=
  fun t => (snapshot_of (world t), S t).

(** [snapshot or self.probe()]: [None] and [{}] are both falsy. *)
Definition snapshot_or_probe (self : ResourceManager)
    (snapshot : option ResourceSnapshot) : Probe ResourceSnapshot :=
  match snapshot with
  | Some s => if truthy s then ret s else probe self
  | None => probe self
  end.

Definition can_accept (self : ResourceManager) (device : string)
    (estimate : Estimate) (is_loaded : bool)
    (snapshot : option ResourceSnapshot) : Probe (bool * option Reason) :=
  bind (snapshot_or_probe self snapshot) (fun snap =>
    let resident := if is_loaded then 0.0 else resident_gb estimate in
    let transient := transient_gb estimate in
    if String.eqb device "cuda" then
      if gpu_absent snap then ret (false, Some GpuNotPresent)
      else
        let free_vram :=
          py_max 0.0 (get_or_zero (gpu_free_gb snap) - gpu_margin_gb self) in
        let need := resident + transient in
        if Qle_bool need free_vram then ret (true, None)
        else ret (false, Some (InsufficientVRAM need free_vram))
    else
      let free_ram :=
        py_max 0.0 (get_or_zero (ram_available_gb snap) - ram_margin_gb self) in
      let need := resident + transient in
      if Qle_bool need free_ram then ret (true, None)
      else ret (false, Some (InsufficientRAM need free_ram))).

Definition concurrency_hint (self : ResourceManager) (device : string)
    (estimate : Estimate) (snapshot : option ResourceSnapshot) : Probe Z :=
  bind (snapshot_or_probe self snapshot) (fun snap =>
    let transient := py_max (fl (transient_gb estimate)) (fl 0.1) in
    if String.eqb device "cuda" then
      if gpu_absent snap then ret 0%Z
      else
        let free_vram :=
          py_max 0.0 (fsub (get_or_zero (gpu_free_gb snap)) (gpu_margin_gb self)) in
        if Qle_bool transient 0.0 then ret Config.DEFAULT_GPU_CONCURRENCY
        else ret (int_or (Z.max 1 (floordiv free_vram transient))
                         Config.DEFAULT_GPU_CONCURRENCY)
    else
      let free_ram :=
        py_max 0.0 (fsub (get_or_zero (ram_available_gb snap)) (ram_margin_gb self)) in
      if Qle_bool transient 0.0 then ret Config.DEFAULT_CPU_CONCURRENCY
      else ret (int_or (Z.max 1 (floordiv free_ram transient))
                       Config.DEFAULT_CPU_CONCURRENCY)).

(** [reason or "Insufficient resources"]. *)
Definition reason_or_default (reason : option Reason) : Reason :=
  default InsufficientResources reason.

(** The result is [inl est] on admission and [inr err] when
    [ResourceRejectedError] is raised. *)
Definition admit_or_raise (self : ResourceManager) (device model_name
    compute_type : string) (audio_minutes : Q) (beam_size : Z)
    (is_loaded : bool) : Probe (Estimate + ResourceRejectedError) :=
  let est := estimate self model_name compute_type audio_minutes beam_size in
  bind (can_accept self device est is_loaded None) (fun '(ok, reason) =>
    if negb ok then
      bind (probe self) (fun snap =>
        ret (inr (mkResourceRejectedError (reason_or_default reason) snap)))
    else ret (inl est)).

End Probing.

Definition resolve (hw : Machine) (device compute_type : string)
    : string * string :=
  resolve_auto_device_compute hw device compute_type.

End Resources.

(** ** registry.py *)
Module Registry.
Import HwProbe.

Record ModelKey := {
  model_name : string;
  device : string;
  compute_type : string
}.

#[global] Instance ModelKey_eq_dec : EqDecision ModelKey.
Proof. solve_decision. Defined.

#[global] Instance ModelKey_countable : Countable ModelKey.
Proof.
  refine (inj_countable'
            (fun k => (model_name k, device k, compute_type k))
            (fun p => {| model_name := p.1.1; device := p.1.2;
                         compute_type := p.2 |}) _).
  by intros [].
Defined.

(** [d not in ("cpu", "cuda")] and [c not in ("float32", "float16", "int8")]. *)
Definition is_device (d : string) : bool :=
  String.eqb d "cpu" || String.eqb d "cuda".
Definition is_compute (c : string) : bool :=
  String.eqb c "float32" || String.eqb c "float16" || String.eqb c "int8".

Definition _key (hw : Machine) (model_name device compute_type : string)
    : ModelKey :=
  let '(d, c) := resolve_auto_device_compute hw device compute_type in
  let d := if negb (is_device d) then "cpu" else d in
  let c := if negb (is_compute c)
           then (if String.eqb d "cpu" then "float32" else "float16")
           else c in
  {| model_name := model_name; device := d; compute_type := c |}.

(** A [WhisperModel] object is known by its identity: the index of the
    constructor call that made it. *)
Definition WhisperModel := nat.

(** The three dicts of the registry.  An [asyncio.Lock] is its [locked]
    flag, an [asyncio.Semaphore] its initial value. *)
Record WhisperModelRegistry := {
  _models : gmap ModelKey WhisperModel;
  _locks : gmap ModelKey bool;
  _semaphores : gmap ModelKey Z
}.

Definition __init__ : WhisperModelRegistry :=
  {| _models := ∅; _locks := ∅; _semaphores := ∅ |}.

(** [d.setdefault(k, v)]: the dict afterwards. *)
Definition setdefault {V} (k : ModelKey) (v : V) (d : gmap ModelKey V)
    : gmap ModelKey V :=
  match d !! k with Some _ => d | None => <[k := v]> d end.

Definition is_loaded (self : WhisperModelRegistry) (hw : Machine)
    (model_name device compute_type : string) : bool :=
  bool_decide (is_Some (_models self !! _key hw model_name device compute_type)).

Definition get_semaphore (self : WhisperModelRegistry) (key : ModelKey)
    : Z * WhisperModelRegistry :=
  let sems := setdefault key 1%Z (_semaphores self) in
  (default 1%Z (sems !! key),
   {| _models := _models self; _locks := _locks self; _semaphores := sems |}).

(** *** [get_or_create] as interleaved coroutines

    Each call is a task with a control point.  One step runs one statement
    of one task; the scheduler picks the task.  asyncio switches tasks only
    at [async with lock], so every asyncio schedule is one of the
    interleavings below. *)
Inductive Pc :=
| Entry                              (* [if key in self._models] *)
| GetLock                            (* [self._locks.setdefault(...)] *)
| AtLock                             (* [async with lock]: acquiring *)
| Holding                            (* [if key in self._models], locked *)
| Constructing                       (* [WhisperModel(...)] *)
| Publishing (m : WhisperModel)      (* [self._models[key] = model] *)
| InstallSem (m : WhisperModel)      (* [asyncio.Semaphore(...)], [setdefault] *)
| Exiting (r : option WhisperModel)  (* leaving [async with]: release *)
| Done (r : option WhisperModel).    (* returned [(key, m)] or raised *)

#[global] Instance Pc_eq_dec : EqDecision Pc.
Proof. solve_decision. Defined.

Record Task := {
  key : ModelKey;                    (* [self._key(...)] of the arguments *)
  concurrency : option Z;
  pc : Pc
}.

Definition at_pc (t : Task) (p : Pc) : Task :=
  {| key := key t; concurrency := concurrency t; pc := p |}.

(** [concurrency or 1]. *)
Definition concurrency_or_1 (c : option Z) : Z :=
  match c with Some n => int_or n 1 | None => 1%Z end.

Record State := {
  registry : WhisperModelRegistry;
  tasks : list Task;
  (** every call of the library constructor so far, oldest first: its
      key and whether it returned a model ([true]) or raised *)
  calls : list (ModelKey * bool)
}.

Definition set_models f (r : WhisperModelRegistry) :=
  {| _models := f (_models r); _locks := _locks r; _semaphores := _semaphores r |}.
Definition set_locks f (r : WhisperModelRegistry) :=
  {| _models := _models r; _locks := f (_locks r); _semaphores := _semaphores r |}.
Definition set_semaphores f (r : WhisperModelRegistry) :=
  {| _models := _models r; _locks := _locks r; _semaphores := f (_semaphores r) |}.

(** One statement of task [t]; [ctor_ok] is whether the library constructor
    returns, should this statement be the constructor call.  [None]: the
    task cannot run now (it waits for the lock, or it has finished). *)
Definition step_task (r : WhisperModelRegistry) (log : list (ModelKey * bool))
    (t : Task) (ctor_ok : bool)
    : option (WhisperModelRegistry * list (ModelKey * bool) * Pc) :=
  let k := key t in
  match pc t with
  | Entry =>
      match _models r !! k with
      | Some m => Some (r, log, Done (Some m))
      | None => Some (r, log, GetLock)
      end
  | GetLock => Some (set_locks (setdefault k false) r, log, AtLock)
  | AtLock =>
      match _locks r !! k with
      | Some false => Some (set_locks <[k := true]> r, log, Holding)
      | _ => None
      end
  | Holding =>
      match _models r !! k with
      | Some m => Some (r, log, Exiting (Some m))
      | None => Some (r, log, Constructing)
      end
  | Constructing =>
      if ctor_ok
      then Some (r, (log ++ [(k, true)])%list, Publishing (length log))
      else Some (r, (log ++ [(k, false)])%list, Exiting None)
  | Publishing m => Some (set_models <[k := m]> r, log, InstallSem m)
  | InstallSem m =>
      (* [asyncio.Semaphore(n)] is built first and raises ValueError for
         [n < 0]: nothing is installed and the caller raises, with the model
         already cached *)
      if (concurrency_or_1 (concurrency t) <? 0)%Z
      then Some (r, log, Exiting None)
      else Some (set_semaphores (setdefault k (concurrency_or_1 (concurrency t))) r,
                 log, Exiting (Some m))
  | Exiting res => Some (set_locks <[k := false]> r, log, Done res)
  | Done _ => None
  end.

(** The scheduler runs task [i]. *)
Definition step (s : State) (i : nat) (ctor_ok : bool) : option State :=
  match tasks s !! i with
  | Some t =>
      match step_task (registry s) (calls s) t ctor_ok with
      | Some (r, log, p) =>
          Some {| registry := r; tasks := <[i := at_pc t p]> (tasks s);
                  calls := log |}
      | None => None
      end
  | None => None
  end.

(** A schedule is the sequence of choices; a choice that cannot run stops
    the run. *)
Fixpoint run (s : State) (schedule : list (nat * bool)) : option State :=
  match schedule with
  | [] => Some s
  | (i, ok) :: rest =>
      match step s i ok with
      | Some s' => run s' rest
      | None => None
      end
  end.

(** [n] concurrent calls with the given keys on a fresh registry. *)
Definition spawn (args : list (ModelKey * option Z)) : State :=
  {| registry := __init__;
     tasks := map (fun a => {| key := a.1; concurrency := a.2; pc := Entry |}) args;
     calls := [] |}.

Definition finished (t : Task) : bool :=
  match pc t with Done _ => true | _ => false end.

(** Number of constructor calls for [k], and of those that raised. *)
Definition ctor_calls (k : ModelKey) (log : list (ModelKey * bool)) : nat :=
  length (filter (fun c => c.1 = k) log).
Definition ctor_raises (k : ModelKey) (log : list (ModelKey * bool)) : nat :=
  length (filter (fun c => c = (k, false)) log).

End Registry.

(** ** audio_io.py: decoding WAV bytes *)
Module AudioIO.

Definition Qlt_bool (a b : Q) : bool := negb (Qle_bool b a).

(** [round(x)] on a float: to the nearest integer, ties to the even one. *)
Definition py_round (x : Q) : Z :=
  let f := Qfloor x in
  let d := x - inject_Z f in
  if Qlt_bool d (1 # 2) then f
  else if Qlt_bool (1 # 2) d then (f + 1)%Z
  else if Z.even f then f else (f + 1)%Z.

(** What [wave.open(...)] exposes for a payload it accepts, with
    [readframes(getnframes())] already read. *)
Record WaveFile := {
  getnchannels : Z;
  getsampwidth : Z;
  getframerate : Z;
  getnframes : Z;
  readframes : list Byte.byte
}.

Definition byte_val (b : Byte.byte) : Z := Z.of_N (Byte.to_N b).

(** [count] consecutive rows of [w] elements. *)
Fixpoint rows {A} (w count : nat) (l : list A) : list (list A) :=
  match count with
  | O => []
  | S c => firstn w l :: rows w c (skipn w l)
  end.

(** [a.reshape(-1, w)]: fails unless the size is a multiple of [w]. *)
Definition reshape {A} (w : nat) (l : list A) : option (list (list A)) :=
  if Nat.eqb w 0 then None
  else if Nat.eqb (length l mod w) 0 then Some (rows w (length l / w) l)
  else None.

(** A little-endian group of bytes as an unsigned, then as a signed number
    of [bits] bits. *)
Definition le_unsigned (bs : list Byte.byte) : Z :=
  fold_right (fun b acc => (byte_val b + 256 * acc)%Z) 0%Z bs.
Definition as_signed (bits : Z) (u : Z) : Z :=
  if (u <? 2 ^ (bits - 1))%Z then u else (u - 2 ^ bits)%Z.

(** [np.frombuffer(raw, dtype=...)] for the three dtypes of the source. *)
Definition frombuffer_uint8 (raw : list Byte.byte) : option (list Z) :=
  Some (map byte_val raw).
Definition frombuffer_int (width : nat) (raw : list Byte.byte) : option (list Z) :=
  option_map (map (fun row => as_signed (8 * Z.of_nat width) (le_unsigned row)))
             (reshape width raw).

(** The 24-bit branch: three bytes, OR-ed together and sign-extended. *)
Definition sign_extend_24 (row : list Byte.byte) : Z :=
  match row with
  | [a0; a1; a2] =>
      let signed := Z.lor (Z.lor (byte_val a0) (Z.shiftl (byte_val a1) 8))
                          (Z.shiftl (byte_val a2) 16) in
      let mask := Z.land signed 8388608 (* 0x800000 *) in
      (signed - Z.shiftl mask 1)%Z
  | _ => 0%Z
  end.

(** [x.mean()] of one row and [pcm.reshape(-1, c).mean(axis=1)]. *)
Definition mean (row : list Q) : Q :=
  fold_right Qplus 0 row / inject_Z (Z.of_nat (length row)).
Definition mean_channels (n_channels : Z) (pcm : list Q) : option (list Q) :=
  if (1 <? n_channels)%Z
  then option_map (map mean) (reshape (Z.to_nat n_channels) pcm)
  else Some pcm.

(** [np.clip(x, -1.0, 1.0)]. *)
Definition clip (x : Q) : Q :=
  if Qlt_bool x (-1) then -1 else if Qlt_bool 1 x then 1 else x.

(** [np.linspace(0.0, 1.0, num=n, endpoint=False)]. *)
Definition linspace (n : nat) : list Q :=
  map (fun i => inject_Z (Z.of_nat i) * (1 / inject_Z (Z.of_nat n))) (seq 0 n).

(** [np.interp(x, xp, fp)] at one point, for increasing [xp]: constant
    outside the knots, linear between two neighbours. *)
Fixpoint interp_from (x x0 y0 : Q) (knots : list (Q * Q)) : Q :=
  match knots with
  | [] => y0
  | (x1, y1) :: later =>
      if Qlt_bool x x1 then (y1 - y0) / (x1 - x0) * (x - x0) + y0
      else interp_from x x1 y1 later
  end.
Definition interp (x : Q) (xp fp : list Q) : Q :=
  match combine xp fp with
  | [] => 0
  | (x0, y0) :: later => if Qlt_bool x x0 then y0 else interp_from x x0 y0 later
  end.

(** [None] stands for a raised exception (here [ZeroDivisionError]). *)
Definition _linear_resample_mono_float32 (waveform : list Q)
    (orig_sr target_sr : Z) : option (list Q) :=
  if (orig_sr =? target_sr)%Z then Some waveform
  else if Nat.eqb (length waveform) 0 then Some waveform
  else if (orig_sr =? 0)%Z then None
  else
    let ratio := inject_Z target_sr / inject_Z orig_sr in
    let new_len :=
      Z.max 1 (py_round (inject_Z (Z.of_nat (length waveform)) * ratio)) in
    let x_old := linspace (length waveform) in
    let x_new := linspace (Z.to_nat new_len) in
    Some (map (fun x => interp x x_old waveform) x_new).

(** The common tail of the 8-, 16- and 32-bit branches, from
    [np.frombuffer(raw, dtype=dtype)] on. *)
Definition decode_pcm (wf : WaveFile) (ints : option (list Z)) (scale : Q)
    (target_sr : Z) : option (list Q) :=
  ints ← ints;
  pcm ← mean_channels (getnchannels wf) (map inject_Z ints);
  let pcm := if (getsampwidth wf =? 1)%Z
             then map (fun x => (x - 128.0) / 128.0) pcm
             else map (fun x => x / scale) pcm in
  let mono := map clip pcm in
  _linear_resample_mono_float32 mono (getframerate wf) target_sr.

(** [_decode_wav_bytes_to_array] after [wave.open] has parsed the payload;
    [None] stands for a raised [ValueError]. *)
Definition decode_wave (wf : WaveFile) (target_sr : Z) : option (list Q) :=
  let raw := readframes wf in
  if (getsampwidth wf =? 2)%Z then
    decode_pcm wf (frombuffer_int 2 raw) 32768.0 target_sr
  else if (getsampwidth wf =? 1)%Z then
    decode_pcm wf (frombuffer_uint8 raw) 128.0 target_sr
  else if (getsampwidth wf =? 3)%Z then
    a ← reshape 3 raw;
    let pcm := map (fun row => inject_Z (sign_extend_24 row) / inject_Z (2 ^ 23)) a in
    mono ← mean_channels (getnchannels wf) pcm;
    _linear_resample_mono_float32 mono (getframerate wf) target_sr
  else if (getsampwidth wf =? 4)%Z then
    decode_pcm wf (frombuffer_int 4 raw) 2147483648.0 target_sr
  else None.

(** [_decode_wav_bytes_to_array(audio_bytes, target_sr)]; [wave_open] is
    Python's [wave] module: the parsed file, or [None] when it raises. *)
Definition _decode_wav_bytes_to_array
    (wave_open : list Byte.byte -> option WaveFile)
    (audio_bytes : list Byte.byte) (target_sr : Z) : option (list Q) :=
  wf ← wave_open audio_bytes; decode_wave wf target_sr.

(** *** [prepare_audio_input]: the scoped preparation *)

Inductive Path :=
| UserPath (name : string)      (* a path given by the caller *)
| TempPath (n : nat).           (* the [n]-th [NamedTemporaryFile] *)

#[global] Instance Path_eq_dec : EqDecision Path.
Proof. solve_decision. Defined.

(** [audio_input]: a path, bytes, an ndarray (its [ndim], whether its dtype
    is float32, its samples when it is 1-D), or anything else. *)
Inductive AudioInput :=
| InputPath (name : string)
| InputBytes (data : list Byte.byte)
| InputArray (ndim : nat) (is_float32 : bool) (samples : list Q)
| InputOther.

(** What the context manager yields as [audio]. *)
Inductive Audio :=
| AudioFile (p : Path)
| AudioArray (samples : list Q).

Inductive Error :=
| FileNotFoundError (name : string)
| ValueError (msg : string)
| TypeError (msg : string)
| RuntimeError (msg : string)
| OSError (msg : string).

(** What can be observed of a call, in order. *)
Inductive Event :=
| TempCreated (p : Path)
| TempDeleted (p : Path)
| Warned (msg : string)
| LibraryCalled (audio : Audio)
| SegmentRead (index : nat) (audio_still_there : bool).

Record World := {
  files : list Path;            (* the files that exist *)
  temp_counter : nat;           (* temporary files made so far *)
  trace : list Event
}.

Inductive Result (A : Type) :=
| Ok (a : A)
| Raise (e : Error).
Arguments Ok {A} a.
Arguments Raise {A} e.

(** A computation on the file system that returns or raises. *)
Definition IO (A : Type) : Type := World -> Result A * World.

(** What the file system refuses: [write_fails n] is the message of the
    OSError that [tmp.write] raises on the [n]-th temporary file (a full
    disk), [unlink_fails p] the one that [os.unlink(p)] raises.  Statements
    that name no file system are about the one that refuses nothing. *)
Class FileSystem := {
  write_fails : nat -> option string;
  unlink_fails : Path -> option string
}.

#[global] Instance reliable : FileSystem :=
  {| write_fails := fun _ => None; unlink_fails := fun _ => None |}.

Definition pure {A} (a : A) : IO A := fun w => (Ok a, w).
Definition raise {A} (e : Error) : IO A := fun w => (Raise e, w).
Definition and_then {A B} (m : IO A) (k : A -> IO B) : IO B :=
  fun w => match m w with
           | (Ok a, w') => k a w'
           | (Raise e, w') => (Raise e, w')
           end.
(** [try: m], handing the outcome to the continuation. *)
Definition attempt {A B} (m : IO A) (k : Result A -> IO B) : IO B :=
  fun w => let (r, w') := m w in k r w'.

Definition emit (e : Event) : IO unit :=
  fun w => (Ok tt, {| files := files w; temp_counter := temp_counter w;
                      trace := trace w ++ [e] |}).

Definition path_exists (p : Path) : IO bool :=
  fun w => (Ok (bool_decide (p ∈ files w)), w).

(** [with NamedTemporaryFile(delete=False, suffix=".wav") as tmp:
    tmp.write(data); temp_file_path = tmp.name]: the file is made, written
    and closed.  When the write raises, the file stays ([delete=False]) and
    its name has not been assigned. *)
Definition write_temp_file {fs : FileSystem} (data : list Byte.byte) : IO Path :=
  fun w => let p := TempPath (temp_counter w) in
           let w' := {| files := p :: files w; temp_counter := S (temp_counter w);
                        trace := trace w ++ [TempCreated p] |} in
           match write_fails (temp_counter w) with
           | Some msg => (Raise (OSError msg), w')
           | None => (Ok p, w')
           end.

(** [os.unlink(p)]. *)
Definition unlink {fs : FileSystem} (p : Path) : IO unit :=
  fun w => match unlink_fails p with
           | Some msg => (Raise (OSError msg), w)
           | None => (Ok tt, {| files := filter (fun q => q <> p) (files w);
                                temp_counter := temp_counter w;
                                trace := trace w ++ [TempDeleted p] |})
           end.

(** The [finally] clause of the generator; [except OSError: pass] swallows a
    failing [unlink], and the file stays. *)
Definition cleanup {fs : FileSystem} (temp_file_path : option Path) : IO unit :=
  match temp_file_path with
  | Some p => and_then (path_exists p)
                (fun there => if there then attempt (unlink p) (fun _ => pure tt)
                              else pure tt)
  | None => pure tt
  end.

(** The body ran at a [yield] that only the [finally] clause encloses:
    clean up, then return or re-raise. *)
Definition leave {fs : FileSystem} {A} (temp_file_path : option Path) (r : Result A) : IO A :=
  and_then (cleanup temp_file_path)
    (fun _ => match r with Ok a => pure a | Raise e => raise e end).

Definition warn (msg : string) : IO unit := emit (Warned msg).

(** [max(|x|)] over a non-empty array exceeds 1. *)
Definition exceeds_unit (samples : list Q) : bool :=
  existsb (fun x => Qlt_bool 1 (Qabs x)) samples.

(** [with prepare_audio_input(audio_input, decode_wav_bytes=...) as
    (audio, temp): body].  [wave_open] is Python's [wave] module, as in
    [_decode_wav_bytes_to_array]. *)
Definition with_prepare_audio_input {fs : FileSystem} {A}
    (wave_open : list Byte.byte -> option WaveFile)
    (audio_input : AudioInput) (decode_wav_bytes : bool)
    (body : Audio -> option Path -> IO A) : IO A :=
  match audio_input with
  | InputPath name =>
      and_then (path_exists (UserPath name)) (fun there =>
        if negb there
        then raise (FileNotFoundError ("Audio file not found: " ++ name))
        else attempt (body (AudioFile (UserPath name)) None) (leave None))
  | InputBytes data =>
      let via_temp_file :=
        and_then (write_temp_file data) (fun p =>
          attempt (body (AudioFile p) (Some p)) (leave (Some p))) in
      if decode_wav_bytes then
        match _decode_wav_bytes_to_array wave_open data 16000 with
        | Some arr =>
            attempt (body (AudioArray arr) None) (fun r =>
              match r with
              | Ok a => leave None (Ok a)
              | Raise _ =>
                  (* thrown in at [yield arr, None], inside [try]: the
                     [except Exception] clause writes the temp file and
                     yields a second time; contextlib answers with its own
                     RuntimeError and closes the generator *)
                  and_then (write_temp_file data) (fun p =>
                    leave (Some p)
                      (Raise (RuntimeError "generator didn't stop after throw()")))
              end)
        | None => via_temp_file
        end
      else via_temp_file
  | InputArray ndim is_float32 samples =>
      if negb (Nat.eqb ndim 1)
      then raise (ValueError "Audio array must be 1D (mono).")
      else
        and_then (if is_float32 then pure tt
                  else warn "Converting audio array to float32.") (fun _ =>
        match samples with
        | [] => raise (ValueError "zero-size array to reduction operation maximum which has no identity")
        | _ :: _ =>
            and_then (if exceeds_unit samples
                      then warn "Audio array values exceed [-1.0, 1.0]. Consider normalizing."
                      else pure tt) (fun _ =>
            and_then (warn "Ensure numpy array is sampled at 16kHz mono for best results.")
              (fun _ => attempt (body (AudioArray samples) None) (leave None)))
        end)
  | InputOther =>
      raise (TypeError "audio_input must be path, bytes, or np.ndarray (1D float32 mono).")
  end.

End AudioIO.

(** ** transcription.py *)
Module Transcription.
Import AudioIO.

Record Segment := { seg_start : Q; seg_end : Q; seg_text : string }.

(** [getattr(info, name, None)] for the three attributes read. *)
Record Info := {
  info_language : option string;
  info_language_probability : option Q;
  info_duration : option Q
}.

(** The lazy sequence the library returns: the audio it was given and the
    segments it will yield, one per [next]. *)
Record LazySegments := { source : Audio; pending : list Segment }.

(** [model.transcribe(audio, language=..., task=..., vad_filter=...,
    beam_size=...)]: the message of the exception it raises, or the segments
    it will produce and the info record. *)
Definition Model : Type :=
  Audio -> option string -> string -> bool -> Z -> string + (list Segment * Info).

(** [str.strip()] on ASCII text. *)
Definition is_space (c : ascii) : bool :=
  let n := nat_of_ascii c in
  (Nat.leb 9 n && Nat.leb n 13) || (Nat.leb 28 n && Nat.leb n 32).
Fixpoint lstrip (s : string) : string :=
  match s with
  | EmptyString => EmptyString
  | String c rest => if is_space c then lstrip rest else s
  end.
Fixpoint rstrip (s : string) : string :=
  match s with
  | EmptyString => EmptyString
  | String c rest =>
      match rstrip rest with
      | EmptyString => if is_space c then EmptyString else String c EmptyString
      | rest' => String c rest'
      end
  end.
Definition strip (s : string) : string := rstrip (lstrip s).

(** [" ".join(parts)]. *)
Fixpoint join_spaces (parts : list string) : string :=
  match parts with
  | [] => ""
  | [p] => p
  | p :: rest => p ++ " " ++ join_spaces rest
  end.

Record SegmentDict := { d_start : Q; d_end : Q; d_text : string }.

Record MetaResult := {
  r_text : string;
  r_language : option string;
  r_language_probability : option Q;
  r_duration_seconds : option Q;
  r_segments : list SegmentDict
}.

Definition audio_there (audio : Audio) (w : World) : bool :=
  match audio with
  | AudioFile p => bool_decide (p ∈ files w)
  | AudioArray _ => true
  end.

(** [for segment in segments]: every [next] is observed, together with
    whether the audio the library was given can still be read. *)
Fixpoint consume (audio : Audio) (index : nat) (pending : list Segment)
    : IO (list Segment) :=
  match pending with
  | [] => pure []
  | seg :: rest =>
      and_then (fun w => emit (SegmentRead index (audio_there audio w)) w) (fun _ =>
      and_then (consume audio (S index) rest) (fun segs => pure (seg :: segs)))
  end.

Definition transcribe_with_model {fs : FileSystem}
    (wave_open : list Byte.byte -> option WaveFile)
    (model : Model) (audio_input : AudioInput)
    (language : option string) (task : string) (vad_filter : bool)
    (beam_size : Z) (return_meta decode_wav_bytes : bool)
    : IO (string + MetaResult) :=
  and_then
    (with_prepare_audio_input wave_open audio_input decode_wav_bytes
       (fun audio _temp =>
          and_then (emit (LibraryCalled audio)) (fun _ =>
            match model audio language task vad_filter beam_size with
            | inl msg => raise (RuntimeError ("Transcription failed: " ++ msg))
            | inr (segments, info) =>
                pure ({| source := audio; pending := segments |}, info)
            end)))
    (fun '(segments, info) =>
       (* Collect results *)
       and_then (consume (source segments) 0 (pending segments)) (fun segs =>
         let segment_texts := map (fun seg => strip (seg_text seg)) segs in
         let segments_list :=
           if return_meta
           then map (fun seg => {| d_start := seg_start seg; d_end := seg_end seg;
                                   d_text := strip (seg_text seg) |}) segs
           else [] in
         let full_text := strip (join_spaces segment_texts) in
         if negb return_meta then pure (inl full_text)
         else pure (inr {| r_text := full_text;
                           r_language := info_language info;
                           r_language_probability := info_language_probability info;
                           r_duration_seconds := info_duration info;
                           r_segments := segments_list |}))).

End Transcription.

(** ** faster_whisper_stt/transcriber.py: the first version of the driver *)
Module LegacyTranscriber.
Import AudioIO Transcription.

(** The dict returned with [return_meta]; it also names the model.  The
    driver reads [info.language] and the like directly: [info] is taken to be
    the library's [TranscriptionInfo], which has the three attributes. *)
Record LegacyMeta := {
  l_text : string;
  l_language : option string;
  l_language_probability : option Q;
  l_duration_seconds : option Q;
  l_model_used : string;
  l_segments : list SegmentDict
}.

(** From [# Run transcription] to the [return]s: the library call, the loop
    over the segments and the result. *)
Definition run_transcription (model : Model) (model_name : string)
    (audio : Audio) (language : option string) (task : string)
    (vad_filter : bool) (beam_size : Z) (return_meta : bool)
    : IO (string + LegacyMeta) :=
  and_then (emit (LibraryCalled audio)) (fun _ =>
    match model audio language task vad_filter beam_size with
    | inl msg => raise (RuntimeError ("Transcription failed: " ++ msg))
    | inr (segments, info) =>
        and_then (consume audio 0 segments) (fun segs =>
          let segment_texts := map (fun seg => strip (seg_text seg)) segs in
          let segments_list :=
            if return_meta
            then map (fun seg => {| d_start := seg_start seg; d_end := seg_end seg;
                                    d_text := strip (seg_text seg) |}) segs
            else [] in
          let full_text := strip (join_spaces segment_texts) in
          if negb return_meta then pure (inl full_text)
          else pure (inr {| l_text := full_text;
                            l_language := info_language info;
                            l_language_probability := info_language_probability info;
                            l_duration_seconds := info_duration info;
                            l_model_used := model_name;
                            l_segments := segments_list |}))
    end).

(** [WhisperSTT.transcribe]: one [try ... finally] around the preparation of
    the audio, the library call and the collection of the segments. *)
Definition transcribe {fs : FileSystem} (model : Model) (model_name : string)
    (audio_input : AudioInput) (language : option string) (task : string)
    (vad_filter : bool) (beam_size : Z) (return_meta : bool)
    : IO (string + LegacyMeta) :=
  let run audio :=
    run_transcription model model_name audio language task vad_filter beam_size
      return_meta in
  match audio_input with
  | InputPath name =>
      and_then (path_exists (UserPath name)) (fun there =>
        if negb there
        then raise (FileNotFoundError ("Audio file not found: " ++ name))
        else attempt (run (AudioFile (UserPath name))) (leave None))
  | InputBytes data =>
      and_then (write_temp_file data) (fun p =>
        attempt (run (AudioFile p)) (leave (Some p)))
  | InputArray ndim is_float32 samples =>
      if negb (Nat.eqb ndim 1)
      then raise (ValueError "Audio array must be 1D (mono).")
      else
        and_then (if is_float32 then pure tt
                  else warn "Converting audio array to float32.") (fun _ =>
        match samples with
        | [] => raise (ValueError "zero-size array to reduction operation maximum which has no identity")
        | _ :: _ =>
            and_then (if exceeds_unit samples
                      then warn "Audio array values exceed [-1.0, 1.0] range. This may cause poor transcription quality. Consider normalizing your audio data."
                      else pure tt) (fun _ =>
            and_then (warn "Ensure your numpy array is sampled at 16kHz. Incorrect sample rates will result in poor transcription.")
              (fun _ => attempt (run (AudioArray samples)) (leave None)))
        end)
  | InputOther =>
      raise (TypeError "audio_input must be str, Path, bytes, or np.ndarray (1D, float32, 16kHz mono).")
  end.

End LegacyTranscriber.

(** ** service.py: the facade, for one request running alone *)
Module Service.

(** [TranscribeOptions], a [TypedDict(total=False)]: every key may be absent;
    [language] may be present with the value [None]. *)
Record TranscribeOptions := {
  language : option (option string);
  task : option string;
  vad_filter : option bool;
  beam_size : option Z;
  return_meta : option bool;
  duration_seconds : option Q;
  decode_wav_bytes : option bool
}.

(** The dict literal [opts] starts from. *)
Definition default_options : TranscribeOptions :=
  {| language := Some None; task := Some "transcribe"; vad_filter := Some true;
     beam_size := Some 5%Z; return_meta := Some false; duration_seconds := None;
     decode_wav_bytes := Some true |}.

Definition overridden {A} (new old : option A) : option A :=
  match new with Some v => Some v | None => old end.

(** [opts.update(options)]. *)
Definition update (opts options : TranscribeOptions) : TranscribeOptions :=
  {| language := overridden (language options) (language opts);
     task := overridden (task options) (task opts);
     vad_filter := overridden (vad_filter options) (vad_filter opts);
     beam_size := overridden (beam_size options) (beam_size opts);
     return_meta := overridden (return_meta options) (return_meta opts);
     duration_seconds := overridden (duration_seconds options) (duration_seconds opts);
     decode_wav_bytes := overridden (decode_wav_bytes options) (decode_wav_bytes opts) |}.

(** [if options: opts.update(options)]. *)
Definition merged_options (options : option TranscribeOptions) : TranscribeOptions :=
  match options with
  | Some o => update default_options o
  | None => default_options
  end.

Definition _estimate_audio_minutes (audio_input : AudioIO.AudioInput) : Q := 1.0.

(** The [if isinstance(opts.get("duration_seconds"), (int, float)) and ...]
    statement. *)
Definition audio_minutes_of (opts : TranscribeOptions)
    (audio_input : AudioIO.AudioInput) : Q :=
  match duration_seconds opts with
  | Some d => if AudioIO.Qlt_bool 0 d then d / 60.0
              else _estimate_audio_minutes audio_input
  | None => _estimate_audio_minutes audio_input
  end.

(** [int(opts.get("beam_size", 5) or 5)]. *)
Definition beam_size_of (opts : TranscribeOptions) : Z :=
  int_or (default 5%Z (beam_size opts)) 5.

(** [await self.registry.get_or_create(...)] with no other task around: the
    statements of the call, one after the other.  [None]: the call has to
    wait for a lock that somebody else holds. *)
Definition returned (p : Registry.Pc) : option (option Registry.WhisperModel) :=
  match p with Registry.Done res => Some res | _ => None end.

Fixpoint await_alone (fuel : nat) (r : Registry.WhisperModelRegistry)
    (log : list (Registry.ModelKey * bool)) (t : Registry.Task) (ctor_ok : bool)
    : option (Registry.WhisperModelRegistry * list (Registry.ModelKey * bool)
              * option Registry.WhisperModel) :=
  match returned (Registry.pc t) with
  | Some res => Some (r, log, res)
  | None =>
      match fuel with
      | O => None
      | S fuel' =>
          match Registry.step_task r log t ctor_ok with
          | Some (r', log', p) => await_alone fuel' r' log' (Registry.at_pc t p) ctor_ok
          | None => None
          end
      end
  end.

Definition get_or_create (r : Registry.WhisperModelRegistry)
    (log : list (Registry.ModelKey * bool)) (key : Registry.ModelKey)
    (concurrency : option Z) (ctor_ok : bool) :=
  await_alone 8 r log
    {| Registry.key := key; Registry.concurrency := concurrency;
       Registry.pc := Registry.Entry |} ctor_ok.

(** Everything a request can touch: the registry and the constructor calls so
    far, the number of looks at the machine, the files. *)
Record Running := {
  registry : Registry.WhisperModelRegistry;
  calls : list (Registry.ModelKey * bool);
  clock : nat;
  disk : AudioIO.World
}.

Inductive Outcome :=
| Returned (result : string + Transcription.MetaResult)
| ResourceRejected (err : Resources.ResourceRejectedError)
| ConstructorRaised
| TranscriptionRaised (err : AudioIO.Error)
| Suspended.                 (* waits for a lock or a semaphore held elsewhere *)

Section Facade.
Context {fs : AudioIO.FileSystem}.
Variable world : nat -> HwProbe.Machine.
(** What each model object does when asked to transcribe. *)
Variable library : Registry.WhisperModel -> Transcription.Model.
Variable wave_open : list Byte.byte -> option AudioIO.WaveFile.

(** [STTService.transcribe_async]; [resources] is [self.resources], and
    [ctor_ok] tells whether the library constructor returns, should it be
    called. *)
Definition transcribe_async (resources : Resources.ResourceManager)
    (st : Running) (model_name device compute_type : string)
    (audio_input : AudioIO.AudioInput) (options : option TranscribeOptions)
    (ctor_ok : bool) : Outcome * Running :=
  let opts := merged_options options in
  (* Check resources and compute concurrency hint *)
  let hw := world (clock st) in
  let '(resolved_device, resolved_compute) :=
    Resources.resolve hw device compute_type in
  (* [is_cuda_available()] is asked only for [device == "auto"] *)
  let clock1 := if String.eqb device "auto" then S (clock st) else clock st in
  let is_loaded :=
    Registry.is_loaded (registry st) hw model_name resolved_device resolved_compute in
  let audio_minutes := audio_minutes_of opts audio_input in
  let '(admitted, clock2) :=
    Resources.admit_or_raise world resources resolved_device model_name
      resolved_compute audio_minutes (beam_size_of opts) is_loaded clock1 in
  match admitted with
  | inr err =>
      (ResourceRejected err,
       {| registry := registry st; calls := calls st; clock := clock2; disk := disk st |})
  | inl est =>
      (* Get or create model and set per-model semaphore capacity *)
      let '(hint, clock3) :=
        Resources.concurrency_hint world resources resolved_device est None clock2 in
      let key := Registry._key hw model_name resolved_device resolved_compute in
      match get_or_create (registry st) (calls st) key (Some (Z.max 1 hint)) ctor_ok with
      | None =>
          (Suspended,
           {| registry := registry st; calls := calls st; clock := clock3;
              disk := disk st |})
      | Some (r, log, None) =>
          (ConstructorRaised,
           {| registry := r; calls := log; clock := clock3; disk := disk st |})
      | Some (r, log, Some model) =>
          let '(capacity, r') := Registry.get_semaphore r key in
          if (capacity <=? 0)%Z then
            (Suspended, {| registry := r'; calls := log; clock := clock3; disk := disk st |})
          else
            let '(result, disk') :=
              Transcription.transcribe_with_model wave_open (library model) audio_input
                (default None (language opts))
                (default "transcribe" (task opts))
                (default true (vad_filter opts))
                (beam_size_of opts)
                (default false (return_meta opts))
                (default true (decode_wav_bytes opts))
                (disk st) in
            (match result with
             | AudioIO.Ok v => Returned v
             | AudioIO.Raise e => TranscriptionRaised e
             end,
             {| registry := r'; calls := log; clock := clock3; disk := disk' |})
      end
  end.

End Facade.

End Service.

(** * The vocabulary of the properties

    The words of the specification (costs, room, formulas), the invariant of
    the registry, and the concrete machines, schedules and payloads the
    properties are tried on. *)

(** ** Admission *)

(** The transient formula as the specification words it. *)
Definition transient_formula (model_name : string) (audio_minutes : Q)
    (beam_size : Z) : Q :=
  dict_get model_name 0.3 Config.TRANSIENT_PER_MIN_GB
  * Qmax 0.2 audio_minutes * Qmax 1 (inject_Z beam_size / 5).

(** The specification's words: the cost a request is charged and the room the device
    has left once the default margin is set aside. *)
Definition effective_cost (est : Resources.Estimate) (is_loaded : bool) : Q :=
  (if is_loaded then 0 else Resources.resident_gb est) + Resources.transient_gb est.

Definition headroom (device : string) (snap : Resources.ResourceSnapshot) : Q :=
  if String.eqb device "cuda"
  then Resources.get_or_zero (Resources.gpu_free_gb snap) - 1.5
  else Resources.get_or_zero (Resources.ram_available_gb snap) - 2.0.

(** The room as [concurrency_hint] computes it with the default margins: the
    difference of two floats, rounded. *)
Definition float_headroom (device : string) (snap : Resources.ResourceSnapshot) : Q :=
  if String.eqb device "cuda"
  then fsub (Resources.get_or_zero (Resources.gpu_free_gb snap)) 1.5
  else fsub (Resources.get_or_zero (Resources.ram_available_gb snap)) 2.0.

(** The snapshot a call works on, whatever was passed. *)
Definition snapshot_used (world : nat -> HwProbe.Machine)
    (self : Resources.ResourceManager)
    (snapshot : option Resources.ResourceSnapshot) (t : nat)
    : Resources.ResourceSnapshot :=
  fst (Resources.snapshot_or_probe world self snapshot t).

(** The hint as the specification words it; [eps] is the bound under which a
    divisor counts as effectively zero. *)
Definition concurrency_hint_spec (eps : Q) (device : string)
    (est : Resources.Estimate) (snap : Resources.ResourceSnapshot) : Z :=
  if String.eqb device "cuda" then
    if Resources.gpu_absent snap then 0%Z
    else if Qle_bool (Resources.transient_gb est) eps
         then Config.DEFAULT_GPU_CONCURRENCY
         else Z.max 1 (Qfloor (headroom device snap / Resources.transient_gb est))
  else
    if Qle_bool (Resources.transient_gb est) eps
    then Config.DEFAULT_CPU_CONCURRENCY
    else Z.max 1 (Qfloor (headroom device snap / Resources.transient_gb est)).

(** A machine without GPU that reports [avail] GB of available RAM at every look. *)
Definition steady_cpu_machine (avail : Q) : nat -> HwProbe.Machine :=
  fun _ => {| HwProbe.gpu_memory_gb := None;
              HwProbe.ram_gb := Some (16, avail);
              HwProbe.is_cuda_available := false |}.

(** A machine on which the RAM probe fails. *)
Definition blind_machine : nat -> HwProbe.Machine :=
  fun _ => {| HwProbe.gpu_memory_gb := None; HwProbe.ram_gb := None;
              HwProbe.is_cuda_available := false |}.

(** A machine whose available RAM is 1 GB at the first look and 64 GB from
    the second look on (another process released its memory in between). *)
Definition recovering_machine : nat -> HwProbe.Machine :=
  fun n => match n with
           | O => {| HwProbe.gpu_memory_gb := None;
                     HwProbe.ram_gb := Some (64, 1);
                     HwProbe.is_cuda_available := false |}
           | S _ => {| HwProbe.gpu_memory_gb := None;
                       HwProbe.ram_gb := Some (64, 64);
                       HwProbe.is_cuda_available := false |}
           end.

(** ** The registry under interleaving *)
Section RegistryVocabulary.
Import Registry.
Local Open Scope nat_scope.
Implicit Types (s : State) (r : WhisperModelRegistry) (t u : Task)
  (k : ModelKey) (m : WhisperModel) (log : list (ModelKey * bool))
  (ts : list Task) (p : Pc).

(** The control points inside [async with lock]. *)
Definition holds_lock p : bool :=
  match p with
  | Holding | Constructing | Publishing _ | InstallSem _ | Exiting _ => true
  | Entry | GetLock | AtLock | Done _ => false
  end.

(** Constructor calls for [k] that returned a model. *)
Definition ctor_returns k log : nat :=
  length (filter (fun c => c = (k, true)) log).

(** Statements a task may still have to run. *)
Definition rank p : nat :=
  match p with
  | Entry => 8 | GetLock => 7 | AtLock => 6 | Holding => 5 | Constructing => 4
  | Publishing _ => 3 | InstallSem _ => 2 | Exiting _ => 1 | Done _ => 0
  end.

Definition work ts : nat := list_sum (map (fun t => rank (pc t)) ts).

(** What a task may rely on at its control point. *)
Definition task_ok r log t : Prop :=
  let k := key t in
  match pc t with
  | Entry | GetLock | Done None => True
  | AtLock => is_Some (_locks r !! k)
  | Holding => _locks r !! k = Some true
  | Constructing =>
      _locks r !! k = Some true /\ _models r !! k = None
      /\ ctor_returns k log = 0
  | Publishing m =>
      _locks r !! k = Some true /\ _models r !! k = None
      /\ ctor_returns k log = 1
  | InstallSem m | Exiting (Some m) =>
      _locks r !! k = Some true /\ _models r !! k = Some m
  | Exiting None =>
      _locks r !! k = Some true
      /\ (1 <= ctor_raises k log \/ (concurrency_or_1 (concurrency t) < 0)%Z)
  | Done (Some m) => _models r !! k = Some m
  end.

(** The invariant of every reachable state: each task is where it may be,
    at most one task per key is inside [async with lock], a held lock has its
    holder, and the constructor has returned for a key exactly when the model
    is cached or about to be. *)
Record Inv s : Prop := {
  inv_tasks : forall i t, tasks s !! i = Some t ->
                          task_ok (registry s) (calls s) t;
  inv_raised : forall i t, tasks s !! i = Some t -> pc t = Done None ->
                           1 <= ctor_raises (key t) (calls s)
                           \/ (concurrency_or_1 (concurrency t) < 0)%Z;
  inv_mutex : forall i j t u,
      tasks s !! i = Some t -> tasks s !! j = Some u -> key t = key u ->
      holds_lock (pc t) = true -> holds_lock (pc u) = true -> i = j;
  inv_holder : forall k, _locks (registry s) !! k = Some true ->
      exists i t, tasks s !! i = Some t /\ key t = k /\ holds_lock (pc t) = true;
  inv_unloaded : forall k, _models (registry s) !! k = None ->
      ctor_returns k (calls s) = 0
      \/ exists i t m, tasks s !! i = Some t /\ key t = k /\ pc t = Publishing m;
  inv_loaded : forall k m, _models (registry s) !! k = Some m ->
      ctor_returns k (calls s) = 1
}.

(** The statements of [get_or_create], as a relation. *)
Inductive moves r log t : WhisperModelRegistry -> list (ModelKey * bool) -> Pc -> Prop :=
| mv_fast m :
    pc t = Entry -> _models r !! key t = Some m ->
    moves r log t r log (Done (Some m))
| mv_miss :
    pc t = Entry -> _models r !! key t = None ->
    moves r log t r log GetLock
| mv_getlock :
    pc t = GetLock ->
    moves r log t (set_locks (setdefault (key t) false) r) log AtLock
| mv_acquire :
    pc t = AtLock -> _locks r !! key t = Some false ->
    moves r log t (set_locks <[key t := true]> r) log Holding
| mv_recheck_hit m :
    pc t = Holding -> _models r !! key t = Some m ->
    moves r log t r log (Exiting (Some m))
| mv_recheck_miss :
    pc t = Holding -> _models r !! key t = None ->
    moves r log t r log Constructing
| mv_ctor_returns :
    pc t = Constructing ->
    moves r log t r (log ++ [(key t, true)]) (Publishing (length log))
| mv_ctor_raises :
    pc t = Constructing ->
    moves r log t r (log ++ [(key t, false)]) (Exiting None)
| mv_publish m :
    pc t = Publishing m ->
    moves r log t (set_models <[key t := m]> r) log (InstallSem m)
| mv_install m :
    pc t = InstallSem m -> (0 <= concurrency_or_1 (concurrency t))%Z ->
    moves r log t
      (set_semaphores (setdefault (key t) (concurrency_or_1 (concurrency t))) r)
      log (Exiting (Some m))
| mv_release res :
    pc t = Exiting res ->
    moves r log t (set_locks <[key t := false]> r) log (Done res)
| mv_install_raises m :
    pc t = InstallSem m -> (concurrency_or_1 (concurrency t) < 0)%Z ->
    moves r log t r log (Exiting None).

(** The state after task [i] has moved. *)
Definition moved_state s i t r' log' p : State :=
  {| registry := r'; tasks := <[i := at_pc t p]> (tasks s); calls := log' |}.

End RegistryVocabulary.

(** Two concurrent callers for [base/cpu/float32]: both miss the fast path,
    the second one wins the lock and constructs, the first one finds the model
    at the double check. *)
Definition base_cpu : Registry.ModelKey :=
  {| Registry.model_name := "base"; Registry.device := "cpu";
     Registry.compute_type := "float32" |}.

Definition two_callers : list (Registry.ModelKey * option Z) :=
  [(base_cpu, None); (base_cpu, Some 3%Z)].

Definition two_callers_schedule : list (nat * bool) :=
  map (fun i => (i, true))
      [0; 1; 0; 1; 1; 1; 1; 1; 1; 1; 0; 0; 0]%nat.

(** The same two callers when the constructor raises for the one that wins
    the lock: it releases the lock, and the other one, which had missed the
    fast path as well, constructs again. *)
Definition raising_schedule : list (nat * bool) :=
  [(0, true); (1, true); (0, true); (1, true); (0, true); (0, true);
   (0, false); (0, true);
   (1, true); (1, true); (1, true); (1, true); (1, true); (1, true)]%nat.

(** One caller alone that passes a negative [concurrency]: the constructor
    returns, the model is cached, and [asyncio.Semaphore] raises. *)
Definition refused_caller : list (Registry.ModelKey * option Z) :=
  [(base_cpu, Some (-1)%Z)].
Definition refused_schedule : list (nat * bool) := repeat (0%nat, true) 8.

(** ** Transcription *)

(** [count] consecutive reads of segments, from index [first]. *)
Definition read_events (there : bool) (first count : nat) : list AudioIO.Event :=
  map (fun j => AudioIO.SegmentRead j there) (seq first count).

(** An upload that is not a WAV file ([wave.open] raises), and a library that
    answers with two segments. *)
Definition not_a_wav : list Byte.byte := [Byte.x49; Byte.x44; Byte.x33].
Definition not_a_wave_file : list Byte.byte -> option AudioIO.WaveFile :=
  fun _ => None.
Definition two_segment_model : Transcription.Model :=
  fun _ _ _ _ _ =>
    inr ([ {| Transcription.seg_start := 0; Transcription.seg_end := 1.5;
              Transcription.seg_text := " Hello" |};
           {| Transcription.seg_start := 1.5; Transcription.seg_end := 3;
              Transcription.seg_text := " world. " |} ],
         {| Transcription.info_language := Some "en";
            Transcription.info_language_probability := Some 0.98;
            Transcription.info_duration := Some 3 |}).
Definition empty_world : AudioIO.World :=
  {| AudioIO.files := []; AudioIO.temp_counter := 0; AudioIO.trace := [] |}.

(** ** WAV decoding *)

(** The unit range of normalised samples. *)
Definition in_unit (x : Q) : Prop := -1 <= x /\ x <= 1.

(** The length the resampler aims at. *)
Definition target_length (n orig_sr target_sr : Z) : Z :=
  Z.max 1 (AudioIO.py_round (inject_Z n * (inject_Z target_sr / inject_Z orig_sr))).

(** A payload [wave.open] accepts as PCM of 1 to 4 bytes per sample, with
    all the frames its header announces. *)
Record well_formed (wf : AudioIO.WaveFile) : Prop := {
  wf_width : (1 <= AudioIO.getsampwidth wf <= 4)%Z;
  wf_channels : (1 <= AudioIO.getnchannels wf)%Z;
  wf_rate : (1 <= AudioIO.getframerate wf)%Z;
  wf_frames : (0 <= AudioIO.getnframes wf)%Z;
  wf_size : Z.of_nat (length (AudioIO.readframes wf))
            = (AudioIO.getnframes wf * AudioIO.getnchannels wf
               * AudioIO.getsampwidth wf)%Z
}.

(** [r] is a nearest integer of [x]. *)
Definition rounds_to (r : Z) (x : Q) : Prop :=
  - (1 # 2) <= inject_Z r - x /\ inject_Z r - x <= 1 # 2.

(** A 16-bit mono file at 8 kHz with three frames. *)
Definition three_frames_8k : AudioIO.WaveFile :=
  {| AudioIO.getnchannels := 1; AudioIO.getsampwidth := 2;
     AudioIO.getframerate := 8000; AudioIO.getnframes := 3;
     AudioIO.readframes := [Byte.x00; Byte.x80; Byte.xff; Byte.x7f; Byte.x00; Byte.x40] |}.

(** The bytes of the sample of channel [c] in frame [i] of the payload, and
    its level: 8-bit samples are unsigned around 128, wider ones are
    little-endian two's complement; both relative to full scale. *)
Definition sample_bytes (wf : AudioIO.WaveFile) (i c : nat) : list Byte.byte :=
  let w := Z.to_nat (AudioIO.getsampwidth wf) in
  let at_ := (i * Z.to_nat (AudioIO.getnchannels wf) + c)%nat in
  firstn w (skipn (at_ * w) (AudioIO.readframes wf)).
Definition sample_level (wf : AudioIO.WaveFile) (i c : nat) : Q :=
  let u := AudioIO.le_unsigned (sample_bytes wf i c) in
  let bits := (8 * AudioIO.getsampwidth wf)%Z in
  if (AudioIO.getsampwidth wf =? 1)%Z then (inject_Z u - 128) / 128
  else inject_Z (AudioIO.as_signed bits u) / inject_Z (2 ^ (bits - 1)).

(** The sum of a list of numbers, and what frame [i] is to become: the
    average of its channels, clipped to the unit range. *)
Definition total (l : list Q) : Q := fold_right Qplus 0 l.
Definition frame_level (wf : AudioIO.WaveFile) (i : nat) : Q :=
  let channels := Z.to_nat (AudioIO.getnchannels wf) in
  let avg := total (map (sample_level wf i) (seq 0 channels))
             / inject_Z (Z.of_nat channels) in
  Qmax (-1) (Qmin 1 avg).

(** The straight line through the two samples of [mono] around position
    [x] of [0, 1), on the grid [0, 1/n, 2/n, ...] of its [n] samples; after
    the last sample the signal stays where it is. *)
Definition on_line (mono : list Q) (x : Q) : Q :=
  let n := length mono in
  let pos := x * inject_Z (Z.of_nat n) in
  let k := Z.to_nat (Qfloor pos) in
  let y0 := nth k mono 0 in
  if (S k <? n)%nat
  then y0 + (nth (S k) mono 0 - y0) * (pos - inject_Z (Z.of_nat k))
  else y0.

(** ** Further vocabulary: the service, the files, the text *)

(** The snapshot of a machine without GPU that has [avail] GB of RAM left. *)
Definition snapshot_with_ram (avail : Q) : Resources.ResourceSnapshot :=
  Resources.snapshot_of (steady_cpu_machine avail 0%nat).

(** The locks after one call has created the lock of [k] if need be, taken
    it and released it. *)
Definition released (k : Registry.ModelKey) (locks : gmap Registry.ModelKey bool)
    : gmap Registry.ModelKey bool :=
  <[k := false]> (<[k := true]> (Registry.setdefault k false locks)).

(** A service that has just started, and a library whose models all answer
    with the same two segments. *)
Definition fresh_service : Service.Running :=
  {| Service.registry := Registry.__init__; Service.calls := [];
     Service.clock := 0%nat; Service.disk := empty_world |}.
Definition two_segment_library : Registry.WhisperModel -> Transcription.Model :=
  fun _ => two_segment_model.

(** A service that has served one [base] request on the CPU. *)
Definition warm_service : Service.Running :=
  {| Service.registry :=
       {| Registry._models := {[ base_cpu := 0%nat ]};
          Registry._locks := {[ base_cpu := false ]};
          Registry._semaphores := {[ base_cpu := 2%Z ]} |};
     Service.calls := [(base_cpu, true)];
     Service.clock := 3%nat;
     Service.disk := empty_world |}.

(** No temporary file that is yet to be made exists already. *)
Definition fresh_temps (w : AudioIO.World) : Prop :=
  forall n, (AudioIO.temp_counter w <= n)%nat ->
            AudioIO.TempPath n ∉ AudioIO.files w.

(** A file system on which the temporary files can be written and deleted. *)
Definition dependable (fs : AudioIO.FileSystem) : Prop :=
  (forall n, AudioIO.write_fails n = None)
  /\ (forall p, AudioIO.unlink_fails p = None).

(** The library fails on audio that was decoded in memory: the exception is
    thrown into [prepare_audio_input] at its first [yield], and the fallback
    clause makes a file that is deleted only when the generator is closed
    (by contextlib from Python 3.12 on, by the finaliser of the generator
    before). *)
Definition thrown_into_fallback (wave_open : list Byte.byte -> option AudioIO.WaveFile)
    (model : Transcription.Model) (audio_input : AudioIO.AudioInput)
    (language : option string) (task : string) (vad_filter : bool)
    (beam_size : Z) (decode_wav_bytes : bool) : bool :=
  match audio_input with
  | AudioIO.InputBytes data =>
      if decode_wav_bytes then
        match AudioIO._decode_wav_bytes_to_array wave_open data 16000 with
        | Some arr =>
            match model (AudioIO.AudioArray arr) language task vad_filter beam_size with
            | inl _ => true
            | inr _ => false
            end
        | None => false
        end
      else false
  | _ => false
  end.

(** Every temporary file made in these events is deleted in them. *)
Definition cleaned_up (evs : list AudioIO.Event) : Prop :=
  forall p, In (AudioIO.TempCreated p) evs -> In (AudioIO.TempDeleted p) evs.

(** The world after a computation that only reports events, none of them
    the making of a file; and after one that has tidied up behind itself. *)
Definition quiet (w w' : AudioIO.World) : Prop :=
  AudioIO.files w' = AudioIO.files w
  /\ AudioIO.temp_counter w' = AudioIO.temp_counter w
  /\ exists evs, AudioIO.trace w' = (AudioIO.trace w ++ evs)%list
                 /\ forall p, ~ In (AudioIO.TempCreated p) evs.
Definition tidy (w w' : AudioIO.World) : Prop :=
  AudioIO.files w' = AudioIO.files w
  /\ (AudioIO.temp_counter w <= AudioIO.temp_counter w')%nat
  /\ exists evs, AudioIO.trace w' = (AudioIO.trace w ++ evs)%list /\ cleaned_up evs.

(** What a caller who asked for the text sees of a result. *)
Definition outcome_text {M} (r : AudioIO.Result (string + M))
    : AudioIO.Result (option string) :=
  match r with
  | AudioIO.Ok (inl text) => AudioIO.Ok (Some text)
  | AudioIO.Ok (inr _) => AudioIO.Ok None
  | AudioIO.Raise e => AudioIO.Raise e
  end.

(** Whether a text begins or ends with a whitespace character. *)
Definition starts_with_space (s : string) : bool :=
  match s with
  | EmptyString => false
  | String c _ => Transcription.is_space c
  end.
Fixpoint ends_with_space (s : string) : bool :=
  match s with
  | EmptyString => false
  | String c EmptyString => Transcription.is_space c
  | String _ rest => ends_with_space rest
  end.
Definition trimmed (s : string) : Prop :=
  starts_with_space s = false /\ ends_with_space s = false.

(** The inputs that are neither a path, nor bytes, nor a one-dimensional
    array, with the exception each of them meets. *)
Definition malformed (audio_input : AudioIO.AudioInput) : option AudioIO.Error :=
  match audio_input with
  | AudioIO.InputOther =>
      Some (AudioIO.TypeError
              "audio_input must be path, bytes, or np.ndarray (1D float32 mono).")
  | AudioIO.InputArray ndim _ _ =>
      if Nat.eqb ndim 1 then None
      else Some (AudioIO.ValueError "Audio array must be 1D (mono).")
  | _ => None
  end.

(** [lo <= x <= hi]. *)
Definition between (lo hi x : Q) : Prop := lo <= x /\ x <= hi.

(** * Verification *)

(** ** Facts about the Python primitives *)

Lemma py_max_cases (a b : Q) :
  (b <= a /\ py_max a b = a) \/ (a < b /\ py_max a b = b).
Proof.
  unfold py_max. destruct (Qle_bool b a) eqn:E.
  - left. split; [now apply Qle_bool_iff | reflexivity].
  - right. split; [| reflexivity].
    apply Qnot_le_lt. intros H. apply Qle_bool_iff in H. congruence.
Qed.

Lemma py_max_lub_l (a b : Q) : a <= py_max a b.
Proof. destruct (py_max_cases a b) as [[H ->] | [H ->]]; lra. Qed.

Lemma py_max_lub_r (a b : Q) : b <= py_max a b.
Proof. destruct (py_max_cases a b) as [[H ->] | [H ->]]; lra. Qed.

Lemma dict_get_pos (k : string) (dflt : Q) (d : list (string * Q)) :
  0 < dflt -> Forall (fun kv => 0 < kv.2) d -> 0 < dict_get k dflt d.
Proof.
  intros Hd Hall. induction Hall as [| [k' v] rest Hv _ IH]; simpl.
  - exact Hd.
  - destruct (String.eqb k k'); [exact Hv | exact IH].
Qed.

(** ** resources.py: estimates *)
Section EstimateFacts.
Import Resources.

Lemma tables_positive :
  Forall (fun kv : string * Q => 0 < kv.2) Config.MODEL_RESIDENT_GB /\
  Forall (fun kv : string * Q => 0 < kv.2) Config.COMPUTE_MULTIPLIER /\
  Forall (fun kv : string * Q => 0 < kv.2) Config.TRANSIENT_PER_MIN_GB.
Proof. repeat split; repeat constructor. Qed.

Lemma estimate_resident_pos self model_name compute_type audio_minutes beam_size :
  0 < resident_gb (estimate self model_name compute_type audio_minutes beam_size).
Proof.
  destruct tables_positive as (Hr & Hc & _).
  unfold estimate; cbn [resident_gb].
  apply Qmult_lt_0_compat; apply dict_get_pos; try assumption; reflexivity.
Qed.

Lemma estimate_transient_floor self model_name compute_type audio_minutes beam_size :
  0.1 <= transient_gb (estimate self model_name compute_type audio_minutes beam_size).
Proof. unfold estimate; cbn [transient_gb]. apply py_max_lub_l. Qed.

Lemma py_max_Qmax (a b : Q) : py_max a b == Qmax a b.
Proof.
  destruct (py_max_cases a b) as [[H ->] | [H ->]].
  - symmetry. now apply Q.max_l.
  - symmetry. apply Q.max_r. lra.
Qed.

Lemma estimate_transient_eq self model_name compute_type audio_minutes beam_size :
  transient_gb (estimate self model_name compute_type audio_minutes beam_size)
  == Qmax 0.1 (transient_formula model_name audio_minutes beam_size).
Proof.
  unfold estimate; cbn [transient_gb].
  unfold transient_formula, Config.DEFAULT_BEAM_BASELINE.
  rewrite !py_max_Qmax. change (inject_Z 5) with 5.
  assert (E : 1.0 == 1) by reflexivity. rewrite E. reflexivity.
Qed.

End EstimateFacts.

(** C3, as stated, fails: a six-second clip on the [tiny] model at the
    baseline beam has formula value 0.04 GB, and [estimate] answers 0.1 GB. *)
Lemma estimate_transient_formula_refuted :
  ~ (forall model_name compute_type audio_minutes beam_size, (1 <= beam_size)%Z ->
       Resources.transient_gb
         (Resources.estimate Resources.default_manager model_name compute_type
            audio_minutes beam_size)
       == transient_formula model_name audio_minutes beam_size).
Proof.
  intros H. specialize (H "tiny" "int8" 0.1 5%Z ltac:(lia)).
  vm_compute in H. discriminate H.
Qed.

(** C3 (amended): for every model name, compute type, audio length and beam
    size, [estimate] returns as [transient_gb] the larger of 0.1 GB and
    table[model] x max(0.2, audio_minutes) x max(1, beam_size / 5).  For
    [beam_size >= 5] the product is linear in [beam_size], for
    [beam_size < 5] the beam factor is the baseline 1. *)
Theorem estimate_transient_floored
    (model_name compute_type : string) (audio_minutes : Q) (beam_size : Z) :
  let transient :=
    Resources.transient_gb
      (Resources.estimate Resources.default_manager model_name compute_type
         audio_minutes beam_size) in
  let per_min := dict_get model_name 0.3 Config.TRANSIENT_PER_MIN_GB in
  transient == Qmax 0.1 (transient_formula model_name audio_minutes beam_size)
  /\ ((5 <= beam_size)%Z ->
      transient == Qmax 0.1 (per_min * Qmax 0.2 audio_minutes * (inject_Z beam_size / 5)))
  /\ ((beam_size < 5)%Z ->
      transient == Qmax 0.1 (per_min * Qmax 0.2 audio_minutes)).
Proof.
  intros transient per_min. subst transient.
  split; [apply estimate_transient_eq |].
  assert (Hz : forall a b : Z, (a <= b)%Z -> inject_Z a <= inject_Z b)
    by (intros a b; rewrite <- Zle_Qle; trivial).
  split; intros Hb; rewrite estimate_transient_eq; unfold transient_formula;
    fold per_min.
  - assert (H1 : 1 <= inject_Z beam_size / 5).
    { apply Qle_shift_div_l; [reflexivity |]. apply (Hz 5%Z) in Hb.
      change (inject_Z 5) with 5 in Hb. lra. }
    rewrite (Q.max_r 1 _ H1). reflexivity.
  - assert (H1 : inject_Z beam_size / 5 <= 1).
    { apply Qle_shift_div_r; [reflexivity |].
      apply Z.lt_le_incl, (Hz _ 5%Z) in Hb.
      change (inject_Z 5) with 5 in Hb. lra. }
    rewrite (Q.max_l 1 _ H1). rewrite Qmult_1_r. reflexivity.
Qed.

Lemma estimate_transient_floored_witness :
  Resources.transient_gb
    (Resources.estimate Resources.default_manager "large" "float16" 2 10)
  == Qmax 0.1 (0.8 * Qmax 0.2 2 * (inject_Z 10 / 5)).
Proof.
  apply (proj1 (proj2 (estimate_transient_floored "large" "float16" 2 10))).
  lia.
Defined.

(** ** resources.py: admission *)

Section AdmissionFacts.
Import Resources.
Variable world : nat -> HwProbe.Machine.

Lemma snapshot_of_truthy hw : truthy (snapshot_of hw) = true.
Proof. reflexivity. Qed.

(** With a positive cost, clamping the free amount at zero does not change
    the comparison. *)
Lemma clamp_irrelevant (need room : Q) :
  0 < need -> (Qle_bool need (py_max 0.0 room) = true <-> need <= room).
Proof.
  intros Hpos. rewrite Qle_bool_iff.
  assert (E : 0.0 == 0) by reflexivity.
  destruct (py_max_cases 0.0 room) as [[H ->] | [H ->]]; lra.
Qed.

(** What [can_accept] computes on the cpu branch and on the cuda branch
    with a GPU. *)
Lemma can_accept_cpu self device est (is_loaded : bool) snapshot t :
  String.eqb device "cuda" = false ->
  let snap := snapshot_used world self snapshot t in
  let need := (if is_loaded then 0.0 else resident_gb est) + transient_gb est in
  let free := py_max 0.0 (get_or_zero (ram_available_gb snap) - ram_margin_gb self) in
  fst (can_accept world self device est is_loaded snapshot t)
  = if Qle_bool need free then (true, None)
    else (false, Some (InsufficientRAM need free)).
Proof.
  intros Hd snap need free. subst snap need free.
  unfold can_accept, snapshot_used, bind.
  destruct (snapshot_or_probe world self snapshot t) as [s t'].
  rewrite Hd. cbn [fst].
  match goal with |- context [Qle_bool ?a ?b] => destruct (Qle_bool a b) end;
    reflexivity.
Qed.

Lemma can_accept_cuda self est (is_loaded : bool) snapshot t :
  let snap := snapshot_used world self snapshot t in
  let need := (if is_loaded then 0.0 else resident_gb est) + transient_gb est in
  let free := py_max 0.0 (get_or_zero (gpu_free_gb snap) - gpu_margin_gb self) in
  fst (can_accept world self "cuda" est is_loaded snapshot t)
  = if gpu_absent snap then (false, Some GpuNotPresent)
    else if Qle_bool need free then (true, None)
    else (false, Some (InsufficientVRAM need free)).
Proof.
  intros snap need free. subst snap need free.
  unfold can_accept, snapshot_used, bind.
  destruct (snapshot_or_probe world self snapshot t) as [s t'].
  cbn [fst String.eqb Ascii.eqb Bool.eqb].
  destruct (gpu_absent s); [reflexivity |].
  match goal with |- context [Qle_bool ?a ?b] => destruct (Qle_bool a b) end;
    reflexivity.
Qed.

Lemma need_as_cost est (is_loaded : bool) :
  (if is_loaded then 0.0 else resident_gb est) + transient_gb est
  == effective_cost est is_loaded.
Proof. unfold effective_cost. destruct is_loaded; [| reflexivity]. lra. Qed.

Lemma estimate_cost_pos self model_name compute_type audio_minutes beam_size is_loaded :
  0 < effective_cost
        (estimate self model_name compute_type audio_minutes beam_size) is_loaded.
Proof.
  pose proof (estimate_resident_pos self model_name compute_type audio_minutes beam_size).
  pose proof (estimate_transient_floor self model_name compute_type audio_minutes beam_size).
  unfold effective_cost. destruct is_loaded; lra.
Qed.

(** [admit_or_raise] decides on the look at time [t] and, when it rejects,
    looks again at time [t + 1] for the snapshot it attaches. *)
Lemma admit_or_raise_unfold self device model_name compute_type audio_minutes
    beam_size is_loaded t :
  let est := estimate self model_name compute_type audio_minutes beam_size in
  let verdict := fst (can_accept world self device est is_loaded None t) in
  admit_or_raise world self device model_name compute_type audio_minutes
    beam_size is_loaded t
  = if fst verdict
    then (inl est, S t)
    else (inr (mkResourceRejectedError (reason_or_default (snd verdict))
                 (snapshot_of (world (S t)))), S (S t)).
Proof.
  intros est verdict. subst est verdict.
  unfold admit_or_raise, bind.
  assert (Ht : snd (can_accept world self device
                       (estimate self model_name compute_type audio_minutes beam_size)
                       is_loaded None t) = S t).
  { unfold can_accept, bind, snapshot_or_probe, probe, ret.
    repeat match goal with
           | |- context [if ?b then _ else _] => destruct b
           end; reflexivity. }
  destruct (can_accept world self device _ is_loaded None t) as [[ok reason] t'].
  cbn [fst snd] in *. subst t'. destruct ok; reflexivity.
Qed.

End AdmissionFacts.

(** The verdict of [can_accept] with the default margins, for a request of
    positive cost on a device the snapshot shows. *)
Lemma can_accept_verdict (world : nat -> HwProbe.Machine) (device : string)
    (est : Resources.Estimate) (is_loaded : bool)
    (snapshot : option Resources.ResourceSnapshot) (t : nat) :
  let snap := snapshot_used world Resources.default_manager snapshot t in
  device = "cpu" \/ (device = "cuda" /\ Resources.gpu_absent snap = false) ->
  0 < effective_cost est is_loaded ->
  fst (fst (Resources.can_accept world Resources.default_manager device est
              is_loaded snapshot t)) = true
  <-> effective_cost est is_loaded <= headroom device snap.
Proof.
  intros snap Hdev Hpos. subst snap.
  pose proof (need_as_cost est is_loaded) as Hneed.
  destruct Hdev as [-> | [-> Hgpu]].
  - rewrite can_accept_cpu by reflexivity.
    unfold headroom; cbn [String.eqb Ascii.eqb Bool.eqb].
    change (Resources.ram_margin_gb Resources.default_manager) with 2.0.
    match goal with |- context [Qle_bool ?a ?b] =>
      pose proof (clamp_irrelevant a
        (Resources.get_or_zero
           (Resources.ram_available_gb
              (snapshot_used world Resources.default_manager snapshot t)) - 2.0)
        ltac:(lra)) as Hc;
      destruct (Qle_bool a b)
    end; cbn [fst]; split; intros H; try lra; try discriminate.
  - rewrite can_accept_cuda, Hgpu.
    unfold headroom; cbn [String.eqb Ascii.eqb Bool.eqb].
    change (Resources.gpu_margin_gb Resources.default_manager) with 1.5.
    match goal with |- context [Qle_bool ?a ?b] =>
      pose proof (clamp_irrelevant a
        (Resources.get_or_zero
           (Resources.gpu_free_gb
              (snapshot_used world Resources.default_manager snapshot t)) - 1.5)
        ltac:(lra)) as Hc;
      destruct (Qle_bool a b)
    end; cbn [fst]; split; intros H; try lra; try discriminate.
Qed.

(** C2: on cpu or cuda, with the device present in the snapshot taken for the
    decision, [admit_or_raise] raises [ResourceRejectedError] exactly when the
    effective cost strictly exceeds free minus the margin; otherwise it
    returns the estimate. *)
Theorem admit_or_raise_rejects_iff (world : nat -> HwProbe.Machine) (t : nat)
    (device model_name compute_type : string) (audio_minutes : Q)
    (beam_size : Z) (is_loaded : bool) :
  device = "cpu" \/ device = "cuda" ->
  (device = "cuda" -> HwProbe.gpu_memory_gb (world t) <> None) ->
  let est := Resources.estimate Resources.default_manager model_name compute_type
               audio_minutes beam_size in
  let snap := Resources.snapshot_of (world t) in
  let outcome := fst (Resources.admit_or_raise world Resources.default_manager
                        device model_name compute_type audio_minutes beam_size
                        is_loaded t) in
  ((exists err, outcome = inr err)
   <-> headroom device snap < effective_cost est is_loaded)
  /\ (~ headroom device snap < effective_cost est is_loaded -> outcome = inl est).
Proof.
  intros Hdev Hgpu est snap outcome. subst outcome.
  rewrite admit_or_raise_unfold. fold est.
  pose proof (can_accept_verdict world device est is_loaded None t) as Hv.
  cbn zeta in Hv.
  change (snapshot_used world Resources.default_manager None t) with snap in Hv.
  assert (Hd : device = "cpu" \/ device = "cuda" /\ Resources.gpu_absent snap = false).
  { destruct Hdev as [-> | ->]; [now left | right; split; [reflexivity |]].
    specialize (Hgpu eq_refl). subst snap. unfold Resources.gpu_absent; simpl.
    destruct (HwProbe.gpu_memory_gb (world t)); [reflexivity | congruence]. }
  specialize (Hv Hd (estimate_cost_pos _ _ _ _ _ _)).
  destruct (fst (fst (Resources.can_accept world Resources.default_manager device
                        est is_loaded None t))); cbn [fst].
  - assert (Hle : effective_cost est is_loaded <= headroom device snap)
      by now apply Hv.
    split; [split |].
    + intros [err H]. discriminate H.
    + intros Hlt. lra.
    + reflexivity.
  - assert (Hlt : headroom device snap < effective_cost est is_loaded).
    { apply Qnot_le_lt. intros Hle. apply Hv in Hle. discriminate Hle. }
    split; [split |].
    + intros _. exact Hlt.
    + intros _. eexists. reflexivity.
    + intros Hn. contradiction.
Qed.

Lemma admit_or_raise_rejects_iff_witness :
  fst (Resources.admit_or_raise (steady_cpu_machine 8) Resources.default_manager
         "cpu" "base" "float32" 1 5 false 0%nat)
  = inl (Resources.estimate Resources.default_manager "base" "float32" 1 5).
Proof.
  apply (proj2 (admit_or_raise_rejects_iff (steady_cpu_machine 8) 0%nat
                  "cpu" "base" "float32" 1 5 false
                  (or_introl eq_refl)
                  (fun H : "cpu" = "cuda" => ltac:(discriminate H)))).
  vm_compute. intros H. discriminate H.
Defined.

(** C7: admission is monotone in the loaded status.  The resident size of an
    estimate is a number of gigabytes, hence not negative. *)
Theorem can_accept_monotone_in_loaded (world : nat -> HwProbe.Machine)
    (self : Resources.ResourceManager) (device : string)
    (est : Resources.Estimate) (snapshot : option Resources.ResourceSnapshot)
    (t : nat) :
  0 <= Resources.resident_gb est ->
  fst (fst (Resources.can_accept world self device est false snapshot t)) = true ->
  fst (fst (Resources.can_accept world self device est true snapshot t)) = true.
Proof.
  intros Hres.
  assert (Hmono : forall free,
    Qle_bool (Resources.resident_gb est + Resources.transient_gb est) free = true ->
    Qle_bool (0.0 + Resources.transient_gb est) free = true).
  { intros free. rewrite !Qle_bool_iff. assert (E : 0.0 == 0) by reflexivity. lra. }
  destruct (String.eqb device "cuda") eqn:Hd.
  - apply String.eqb_eq in Hd. subst device. rewrite !can_accept_cuda.
    destruct (Resources.gpu_absent _); [trivial |].
    match goal with |- context [Qle_bool (Resources.resident_gb est + _) ?f] =>
      specialize (Hmono f); destruct (Qle_bool (Resources.resident_gb est + _) f)
    end; [| discriminate].
    intros _. rewrite Hmono; reflexivity.
  - rewrite !can_accept_cpu by assumption.
    match goal with |- context [Qle_bool (Resources.resident_gb est + _) ?f] =>
      specialize (Hmono f); destruct (Qle_bool (Resources.resident_gb est + _) f)
    end; [| discriminate].
    intros _. rewrite Hmono; reflexivity.
Qed.

Lemma can_accept_monotone_in_loaded_witness :
  fst (fst (Resources.can_accept (steady_cpu_machine 8) Resources.default_manager
              "cpu" {| Resources.resident_gb := 2.8; Resources.transient_gb := 0.2 |}
              true None 0%nat)) = true.
Proof.
  apply (can_accept_monotone_in_loaded (steady_cpu_machine 8)
           Resources.default_manager "cpu"
           {| Resources.resident_gb := 2.8; Resources.transient_gb := 0.2 |} None 0%nat).
  - vm_compute. discriminate.
  - vm_compute. reflexivity.
Defined.

(** C10: a snapshot without a RAM reading makes [can_accept] on cpu count the
    available RAM as 0 GB and refuse every request of positive cost. *)
Theorem can_accept_cpu_without_ram_reading (world : nat -> HwProbe.Machine)
    (est : Resources.Estimate) (is_loaded : bool)
    (snapshot : option Resources.ResourceSnapshot) (t : nat) :
  let snap := snapshot_used world Resources.default_manager snapshot t in
  0 < effective_cost est is_loaded ->
  Resources.ram_available_gb snap = None ->
  Resources.get_or_zero (Resources.ram_available_gb snap) = 0
  /\ exists need,
       need == effective_cost est is_loaded
       /\ fst (Resources.can_accept world Resources.default_manager "cpu" est
                 is_loaded snapshot t)
          = (false, Some (Resources.InsufficientRAM need 0.0)).
Proof.
  intros snap Hpos Hnone. subst snap. rewrite Hnone.
  split; [reflexivity |].
  eexists. split; [apply need_as_cost |].
  rewrite can_accept_cpu by reflexivity. rewrite Hnone.
  change (py_max 0.0 (Resources.get_or_zero None
                      - Resources.ram_margin_gb Resources.default_manager))
    with 0.0.
  pose proof (need_as_cost est is_loaded) as Hneed.
  match goal with |- context [Qle_bool ?a ?b] => destruct (Qle_bool a b) eqn:E end;
    [| reflexivity].
  apply Qle_bool_iff in E. assert (E0 : 0.0 == 0) by reflexivity. lra.
Qed.

Lemma can_accept_cpu_without_ram_reading_witness :
  exists need,
    need == effective_cost
              {| Resources.resident_gb := 1.4; Resources.transient_gb := 0.2 |} false
    /\ fst (Resources.can_accept blind_machine Resources.default_manager "cpu"
              {| Resources.resident_gb := 1.4; Resources.transient_gb := 0.2 |}
              false None 0%nat)
       = (false, Some (Resources.InsufficientRAM need 0.0)).
Proof.
  apply (proj2 (can_accept_cpu_without_ram_reading blind_machine
                  {| Resources.resident_gb := 1.4; Resources.transient_gb := 0.2 |}
                  false None 0%nat eq_refl eq_refl)).
Defined.

(** C9 (amended): when [admit_or_raise] rejects, it has looked at the machine
    twice; the error carries the snapshot of the second look, taken right
    after the decision, and this is the snapshot the decision was made on
    whenever the machine reports the same at both looks. *)
Theorem admit_or_raise_error_snapshot (world : nat -> HwProbe.Machine)
    (self : Resources.ResourceManager) (device model_name compute_type : string)
    (audio_minutes : Q) (beam_size : Z) (is_loaded : bool) (t : nat)
    (err : Resources.ResourceRejectedError) :
  fst (Resources.admit_or_raise world self device model_name compute_type
         audio_minutes beam_size is_loaded t) = inr err ->
  snd (Resources.admit_or_raise world self device model_name compute_type
         audio_minutes beam_size is_loaded t) = S (S t)
  /\ Resources.snapshot err = Resources.snapshot_of (world (S t))
  /\ (world (S t) = world t ->
      Resources.snapshot err = Resources.snapshot_of (world t)).
Proof.
  rewrite admit_or_raise_unfold.
  destruct (fst (fst (Resources.can_accept world self device _ is_loaded None t)));
    cbn [fst snd]; intros H; [discriminate H |].
  injection H as <-. split; [reflexivity |]. split; [reflexivity |].
  intros ->. reflexivity.
Qed.

Lemma admit_or_raise_error_snapshot_witness :
  exists err,
    fst (Resources.admit_or_raise (steady_cpu_machine 1) Resources.default_manager
           "cpu" "large" "float32" 1 5 false 0%nat) = inr err
    /\ Resources.snapshot err = Resources.snapshot_of (steady_cpu_machine 1 0%nat).
Proof.
  destruct (fst (Resources.admit_or_raise (steady_cpu_machine 1)
                   Resources.default_manager "cpu" "large" "float32" 1 5 false 0%nat))
    as [est | err] eqn:E; [vm_compute in E; discriminate E |].
  exists err. split; [reflexivity |].
  apply (admit_or_raise_error_snapshot (steady_cpu_machine 1)
           Resources.default_manager "cpu" "large" "float32" 1 5 false 0%nat err E).
  reflexivity.
Defined.

(** C9, as stated, fails: [admit_or_raise] rejects the [large] model on the
    1 GB reading, and the error it raises carries the later 64 GB reading,
    which is not the snapshot the decision was made on. *)
Lemma admit_or_raise_attaches_later_snapshot :
  exists err need free,
    fst (Resources.admit_or_raise recovering_machine Resources.default_manager
           "cpu" "large" "float32" 1 5 false 0%nat) = inr err
    /\ Resources.message err = Resources.InsufficientRAM need free
    /\ free == 0
    /\ Resources.ram_available_gb (Resources.snapshot_of (recovering_machine 0))
       = Some 1
    /\ Resources.ram_available_gb (Resources.snapshot err) = Some 64
    /\ Resources.snapshot err <> Resources.snapshot_of (recovering_machine 0).
Proof.
  eexists _, _, _. split; [vm_compute; reflexivity |].
  cbn [Resources.message Resources.snapshot Resources.mkResourceRejectedError].
  split; [reflexivity |]. split; [reflexivity |].
  split; [reflexivity |]. split; [reflexivity |].
  intros H. discriminate H.
Qed.

(** ** resources.py: the concurrency hint *)

(** C6 as the specification has it fails whatever "effectively zero" means:
    on the CPU with 12 GB available (10 GB of room) and a transient estimate
    of 0.0625 GB, the code divides by its floor of 0.1 GB and answers 99,
    where the claim gives the default 2 if 0.0625 counts as zero and
    floor(10 / 0.0625) = 160 if it does not. *)
Lemma concurrency_hint_spec_refuted :
  fst (Resources.concurrency_hint blind_machine Resources.default_manager "cpu"
         {| Resources.resident_gb := 1.4; Resources.transient_gb := 0.0625 |}
         (Some (Resources.snapshot_of (steady_cpu_machine 12 0%nat))) 0%nat)
  = 99%Z
  /\ ~ exists eps, 0 <= eps /\
      forall device est snap,
        Resources.truthy snap = true ->
        fst (Resources.concurrency_hint blind_machine Resources.default_manager
               device est (Some snap) 0%nat)
        = concurrency_hint_spec eps device est snap.
Proof.
  split; [vm_compute; reflexivity |].
  intros (eps & _ & H).
  specialize (H "cpu"
                {| Resources.resident_gb := 1.4; Resources.transient_gb := 0.0625 |}
                (Resources.snapshot_of (steady_cpu_machine 12 0%nat)) eq_refl).
  unfold concurrency_hint_spec in H.
  cbn [String.eqb Ascii.eqb Bool.eqb Resources.transient_gb] in H.
  destruct (Qle_bool 0.0625 eps); vm_compute in H; discriminate H.
Qed.

Lemma int_or_max_1 (x d : Z) : int_or (Z.max 1 x) d = Z.max 1 x.
Proof. unfold int_or. destruct (Z.eqb_spec (Z.max 1 x) 0); [lia | reflexivity]. Qed.

Lemma float_tenth_pos : 0 < fl 0.1.
Proof. vm_compute. reflexivity. Qed.

Lemma clamped_divisor_not_zero (transient : Q) :
  Qle_bool (py_max transient (fl 0.1)) 0.0 = false.
Proof.
  destruct (Qle_bool (py_max transient (fl 0.1)) 0.0) eqn:E; [| reflexivity].
  apply Qle_bool_iff in E. pose proof (py_max_lub_r transient (fl 0.1)) as H.
  assert (E0 : 0.0 == 0) by reflexivity.
  pose proof float_tenth_pos. lra.
Qed.

Lemma floordiv_clamped (room transient : Q) :
  floordiv (py_max 0.0 room) (py_max transient (fl 0.1))
  = Qfloor (Qmax 0 room / Qmax transient (fl 0.1)).
Proof.
  unfold floordiv. apply Qfloor_comp. rewrite !py_max_Qmax.
  assert (E0 : 0.0 == 0) by reflexivity. rewrite E0. reflexivity.
Qed.

Lemma hint_on_unclamped (room transient : Q) :
  fl 0.1 <= transient ->
  Z.max 1 (Qfloor (Qmax 0 room / Qmax transient (fl 0.1)))
  = Z.max 1 (Qfloor (room / transient)).
Proof.
  intros Ht. pose proof float_tenth_pos as E1.
  rewrite (Q.max_l transient (fl 0.1) Ht).
  destruct (Qlt_le_dec room 0) as [Hneg | Hpos].
  - rewrite (Q.max_l 0 room) by lra.
    assert (Hz : 0 / transient == 0) by (unfold Qdiv; lra).
    rewrite Hz. change (Qfloor 0) with 0%Z.
    assert (Hlt : room / transient < 0).
    { apply Qlt_shift_div_r; lra. }
    pose proof (Qfloor_le (room / transient)) as Hfl.
    assert (Hq : inject_Z (Qfloor (room / transient)) < inject_Z 0)
      by (change (inject_Z 0) with 0; lra).
    rewrite <- Zlt_Qlt in Hq. lia.
  - rewrite (Q.max_r 0 room) by lra. reflexivity.
Qed.

(** C6 (amended): [concurrency_hint] returns 0 when the device is cuda and the
    snapshot shows no GPU; otherwise it returns at least 1, and for every
    estimate whose transient part is at least 0.1 GB it returns
    max(1, floor((free - margin) / transient)), taken as Python takes it: the
    difference rounded to the nearest float, then the floor of the quotient
    of the two floats. *)
Theorem concurrency_hint_clamped (world : nat -> HwProbe.Machine)
    (device : string) (est : Resources.Estimate)
    (snapshot : option Resources.ResourceSnapshot) (t : nat) :
  let snap := snapshot_used world Resources.default_manager snapshot t in
  let hint := fst (Resources.concurrency_hint world Resources.default_manager
                     device est snapshot t) in
  let absent := String.eqb device "cuda" && Resources.gpu_absent snap in
  let transient := fl (Resources.transient_gb est) in
  (absent = true -> hint = 0%Z)
  /\ (absent = false ->
      (1 <= hint)%Z
      /\ (fl 0.1 <= transient ->
          hint = Z.max 1 (Qfloor (float_headroom device snap / transient)))).
Proof.
  intros snap hint absent transient. subst snap hint absent transient.
  unfold Resources.concurrency_hint, snapshot_used, Resources.bind, float_headroom.
  destruct (Resources.snapshot_or_probe world Resources.default_manager snapshot t)
    as [s t'].
  cbn [fst].
  change (Resources.gpu_margin_gb Resources.default_manager) with 1.5.
  change (Resources.ram_margin_gb Resources.default_manager) with 2.0.
  destruct (String.eqb device "cuda"); cbn [andb].
  - destruct (Resources.gpu_absent s).
    + split; [reflexivity | discriminate].
    + split; [discriminate | intros _].
      rewrite clamped_divisor_not_zero. unfold Resources.ret; cbn [fst].
      rewrite int_or_max_1, floordiv_clamped.
      split; [lia |].
      intros Ht. now apply hint_on_unclamped.
  - split; [discriminate | intros _].
    rewrite clamped_divisor_not_zero. unfold Resources.ret; cbn [fst].
    rewrite int_or_max_1, floordiv_clamped.
    split; [lia |].
    intros Ht. now apply hint_on_unclamped.
Qed.

Lemma concurrency_hint_clamped_witness :
  fst (Resources.concurrency_hint (steady_cpu_machine 12) Resources.default_manager
         "cpu" {| Resources.resident_gb := 1.4; Resources.transient_gb := 0.25 |}
         None 0%nat)
  = Z.max 1 (Qfloor (float_headroom "cpu"
                       (Resources.snapshot_of (steady_cpu_machine 12 0%nat))
                     / fl 0.25))
  /\ Z.max 1 (Qfloor (float_headroom "cpu"
                        (Resources.snapshot_of (steady_cpu_machine 12 0%nat))
                      / fl 0.25)) = 40%Z.
Proof.
  split; [| vm_compute; reflexivity].
  apply (proj2 (concurrency_hint_clamped (steady_cpu_machine 12) "cpu"
                  {| Resources.resident_gb := 1.4; Resources.transient_gb := 0.25 |}
                  None 0%nat) eq_refl).
  vm_compute. discriminate.
Defined.

(** ** registry.py: key canonicalisation *)

Lemma is_device_spec (d : string) :
  Registry.is_device d = true <-> d = "cpu" \/ d = "cuda".
Proof.
  unfold Registry.is_device. rewrite orb_true_iff, !String.eqb_eq. reflexivity.
Qed.

Lemma is_compute_spec (c : string) :
  Registry.is_compute c = true <-> c = "float32" \/ c = "float16" \/ c = "int8".
Proof.
  unfold Registry.is_compute. rewrite !orb_true_iff, !String.eqb_eq. tauto.
Qed.

Lemma key_fields (hw : HwProbe.Machine) (name d c : string) :
  let k := Registry._key hw name d c in
  let d' := fst (HwProbe.resolve_auto_device_compute hw d c) in
  let c' := snd (HwProbe.resolve_auto_device_compute hw d c) in
  Registry.model_name k = name
  /\ Registry.device k = (if Registry.is_device d' then d' else "cpu")
  /\ Registry.compute_type k =
       (if Registry.is_compute c' then c'
        else if String.eqb (Registry.device k) "cpu" then "float32" else "float16").
Proof.
  unfold Registry._key, HwProbe.resolve_auto_device_compute. cbn [fst snd].
  set (d1 := if String.eqb d "auto" then _ else d).
  set (c1 := if String.eqb c "auto" then _ else c).
  cbn [Registry.model_name Registry.device Registry.compute_type].
  destruct (Registry.is_device d1), (Registry.is_compute c1); auto.
Qed.

(** C5: every canonical key has its device in {cpu, cuda} and its compute type
    in {float32, float16, int8}.  After [auto] is resolved, a device outside
    the set becomes cpu and a compute type outside the set becomes float32 on
    cpu and float16 on cuda; values inside the sets are kept.  The key is a
    function of the arguments and of whether CUDA is available. *)
Theorem key_canonical (hw : HwProbe.Machine) (name d c : string) :
  let k := Registry._key hw name d c in
  let d' := fst (HwProbe.resolve_auto_device_compute hw d c) in
  let c' := snd (HwProbe.resolve_auto_device_compute hw d c) in
  Registry.model_name k = name
  /\ (Registry.device k = "cpu" \/ Registry.device k = "cuda")
  /\ (Registry.compute_type k = "float32" \/ Registry.compute_type k = "float16"
      \/ Registry.compute_type k = "int8")
  /\ (Registry.device k = if Registry.is_device d' then d' else "cpu")
  /\ (Registry.compute_type k =
        if Registry.is_compute c' then c'
        else if String.eqb (Registry.device k) "cpu" then "float32" else "float16")
  /\ (d' = if String.eqb d "auto"
           then (if HwProbe.is_cuda_available hw then "cuda" else "cpu") else d)
  /\ (forall hw', HwProbe.is_cuda_available hw' = HwProbe.is_cuda_available hw ->
                  Registry._key hw' name d c = k).
Proof.
  intros k d' c'. destruct (key_fields hw name d c) as (Hn & Hd & Hc).
  fold k d' c' in Hn, Hd, Hc.
  split; [exact Hn |].
  split.
  { rewrite Hd. destruct (Registry.is_device d') eqn:E; [| now left].
    now apply is_device_spec. }
  split.
  { rewrite Hc. destruct (Registry.is_compute c') eqn:E.
    - now apply is_compute_spec.
    - destruct (String.eqb (Registry.device k) "cpu"); auto. }
  split; [exact Hd |]. split; [exact Hc |]. split; [reflexivity |].
  intros hw' Hcuda. subst k.
  unfold Registry._key, HwProbe.resolve_auto_device_compute.
  rewrite Hcuda. reflexivity.
Qed.

Lemma key_canonical_witness :
  Registry._key {| HwProbe.gpu_memory_gb := None; HwProbe.ram_gb := None;
                   HwProbe.is_cuda_available := true |} "base" "auto" "bfloat16"
  = Registry._key {| HwProbe.gpu_memory_gb := Some (24, 20); HwProbe.ram_gb := None;
                     HwProbe.is_cuda_available := true |} "base" "auto" "bfloat16".
Proof.
  apply (proj2 (proj2 (proj2 (proj2 (proj2 (proj2
           (key_canonical {| HwProbe.gpu_memory_gb := Some (24, 20);
                             HwProbe.ram_gb := None;
                             HwProbe.is_cuda_available := true |}
                          "base" "auto" "bfloat16"))))))).
  reflexivity.
Defined.

(** ** registry.py: [get_or_create] under every interleaving *)
Section GetOrCreate.
Import Registry.
Local Open Scope nat_scope.
Implicit Types (s : State) (r : WhisperModelRegistry) (t u : Task)
  (k : ModelKey) (m : WhisperModel) (log : list (ModelKey * bool))
  (ts : list Task) (p : Pc).

(** *** Counting constructor calls *)

Lemma ctor_returns_snoc k k' (b : bool) log :
  ctor_returns k (log ++ [(k', b)])
  = ctor_returns k log + (if decide ((k', b) = (k, true)) then 1 else 0).
Proof.
  unfold ctor_returns. rewrite filter_app, length_app.
  rewrite filter_cons, filter_nil. destruct (decide _); simpl; lia.
Qed.

Lemma ctor_raises_snoc k k' (b : bool) log :
  ctor_raises k (log ++ [(k', b)])
  = ctor_raises k log + (if decide ((k', b) = (k, false)) then 1 else 0).
Proof.
  unfold ctor_raises. rewrite filter_app, length_app.
  rewrite filter_cons, filter_nil. destruct (decide _); simpl; lia.
Qed.

Lemma ctor_calls_split k log :
  ctor_calls k log = ctor_returns k log + ctor_raises k log.
Proof.
  unfold ctor_calls, ctor_returns, ctor_raises.
  induction log as [| [k' b] log IH]; [reflexivity |].
  rewrite !filter_cons. simpl.
  destruct (decide (k' = k)) as [-> | Hne].
  - destruct b.
    + rewrite decide_True by reflexivity. rewrite decide_False by congruence.
      simpl. lia.
    + rewrite decide_False by congruence. rewrite decide_True by reflexivity.
      simpl. lia.
  - rewrite !decide_False by congruence. exact IH.
Qed.

(** *** The work left decreases *)

Lemma work_insert ts i t p :
  ts !! i = Some t ->
  work (<[i := at_pc t p]> ts) + rank (pc t) = work ts + rank p.
Proof.
  unfold work. revert i. induction ts as [| u ts IH]; intros [| i] H;
    try discriminate; simpl in *.
  - injection H as ->. lia.
  - specialize (IH i H). lia.
Qed.

Lemma step_task_rank r log t ok r' log' p :
  step_task r log t ok = Some (r', log', p) -> rank p < rank (pc t).
Proof.
  unfold step_task. intros H.
  destruct (pc t); simpl; repeat case_match; simplify_eq; simpl; lia.
Qed.

Lemma step_work s i ok s' : step s i ok = Some s' -> work (tasks s') < work (tasks s).
Proof.
  unfold step. intros H.
  destruct (tasks s !! i) as [t |] eqn:Ht; [| discriminate].
  destruct (step_task _ _ t ok) as [[[r log] p] |] eqn:Hs; [| discriminate].
  injection H as <-. simpl.
  pose proof (work_insert _ _ _ p Ht). apply step_task_rank in Hs. lia.
Qed.

Lemma run_bounded schedule : forall s s',
  run s schedule = Some s' -> length schedule + work (tasks s') <= work (tasks s).
Proof.
  induction schedule as [| [i ok] rest IH]; intros s s' H; simpl in *.
  - injection H as ->. lia.
  - destruct (step s i ok) as [s1 |] eqn:Hs; [| discriminate].
    apply step_work in Hs. apply IH in H. lia.
Qed.

Lemma work_spawn args : work (tasks (spawn args)) = 8 * length args.
Proof.
  unfold work, spawn. simpl. induction args as [| a args IH]; simpl in *; lia.
Qed.

(** *** How one statement of one task affects what the others rely on *)

Lemma lookup_setdefault {V} k k' (v : V) (d : gmap ModelKey V) :
  setdefault k v d !! k' = match d !! k' with
                           | Some x => Some x
                           | None => if decide (k = k') then Some v else None
                           end.
Proof.
  unfold setdefault. destruct (d !! k) eqn:E.
  - destruct (d !! k') eqn:E'; [reflexivity |].
    destruct (decide (k = k')); [congruence | reflexivity].
  - destruct (decide (k = k')) as [<- | Hne].
    + rewrite lookup_insert_eq, E. reflexivity.
    + rewrite lookup_insert_ne by assumption. destruct (d !! k'); reflexivity.
Qed.

Lemma frame_setdefault_lock r log k u :
  task_ok r log u -> task_ok (set_locks (setdefault k false) r) log u.
Proof.
  unfold task_ok, set_locks; simpl. rewrite lookup_setdefault.
  destruct (pc u) as [| | | | | | | [m |] | [m |]]; simpl;
    destruct (_locks r !! key u) as [b |] eqn:E; try tauto;
    intros H; first [discriminate H | destruct H as [H _]; discriminate H
                    | destruct H as [b H]; discriminate H].
Qed.

Lemma frame_acquire r log k u :
  task_ok r log u -> task_ok (set_locks <[k := true]> r) log u.
Proof.
  unfold task_ok, set_locks; simpl.
  destruct (decide (k = key u)) as [-> | Hne].
  - rewrite lookup_insert_eq.
    destruct (pc u) as [| | | | | | | [?|] | [?|]]; simpl; try tauto; eauto.
  - rewrite lookup_insert_ne by assumption. trivial.
Qed.

Lemma frame_release r log k u :
  (key u = k -> holds_lock (pc u) = false) ->
  task_ok r log u -> task_ok (set_locks <[k := false]> r) log u.
Proof.
  unfold task_ok, set_locks; simpl. intros Hother.
  destruct (decide (k = key u)) as [-> | Hne].
  - specialize (Hother eq_refl). rewrite lookup_insert_eq.
    destruct (pc u) as [| | | | | | | [?|] | [?|]]; simpl in *;
      try discriminate; try tauto; eauto.
  - rewrite lookup_insert_ne by assumption. trivial.
Qed.

Lemma frame_publish r log k m u :
  _models r !! k = None ->
  (key u = k -> holds_lock (pc u) = false) ->
  task_ok r log u -> task_ok (set_models <[k := m]> r) log u.
Proof.
  unfold task_ok, set_models; simpl. intros Hnone Hother.
  destruct (decide (k = key u)) as [-> | Hne].
  - specialize (Hother eq_refl). rewrite lookup_insert_eq.
    destruct (pc u) as [| | | | | | | [?|] | [?|]]; simpl in *;
      try discriminate; try tauto; congruence.
  - rewrite lookup_insert_ne by assumption. trivial.
Qed.

Lemma frame_install r log k c u :
  task_ok r log u -> task_ok (set_semaphores (setdefault k c) r) log u.
Proof. trivial. Qed.

Lemma frame_call r log k (b : bool) u :
  (key u = k -> holds_lock (pc u) = false) ->
  task_ok r log u -> task_ok r (log ++ [(k, b)]) u.
Proof.
  unfold task_ok. intros Hother.
  rewrite ctor_returns_snoc, ctor_raises_snoc.
  destruct (decide (k = key u)) as [-> | Hne].
  - specialize (Hother eq_refl).
    destruct (pc u) as [| | | | | | | [?|] | [?|]]; simpl in *;
      try discriminate; tauto.
  - rewrite decide_False by congruence.
    destruct (pc u) as [| | | | | | | [?|] | [?|]]; simpl in *;
      rewrite ?Nat.add_0_r; try tauto.
    intros [? ?]. split; [assumption | lia].
Qed.

(** Looking up a task after task [i] has moved. *)
Lemma lookup_moved ts i t p j u :
  ts !! i = Some t ->
  <[i := at_pc t p]> ts !! j = Some u ->
  (j = i /\ u = at_pc t p) \/ (j <> i /\ ts !! j = Some u).
Proof.
  intros Ht H. apply list_lookup_insert_Some in H.
  destruct H as [(-> & <- & _) | (Hne & H)]; [left | right]; auto.
Qed.

Lemma lookup_others ts i t p j u :
  j <> i -> ts !! j = Some u -> <[i := at_pc t p]> ts !! j = Some u.
Proof. intros Hne H. rewrite list_lookup_insert_ne; auto. Qed.

Lemma lookup_self ts i t p :
  ts !! i = Some t -> <[i := at_pc t p]> ts !! i = Some (at_pc t p).
Proof. intros H. apply list_lookup_insert_eq. eapply lookup_lt_Some, H. Qed.

(** *** The statements, as a relation *)

Lemma step_task_moves r log t ok r' log' p :
  step_task r log t ok = Some (r', log', p) -> moves r log t r' log' p.
Proof.
  unfold step_task. intros H.
  destruct (pc t) eqn:Hpc; repeat case_match; simplify_eq;
    try (econstructor; eauto; fail).
  - eapply mv_install_raises; [eassumption |]. now apply Z.ltb_lt.
  - eapply mv_install; [eassumption |]. now apply Z.ltb_ge.
Qed.

Lemma moves_step_task r log t r' log' p :
  moves r log t r' log' p -> exists ok, step_task r log t ok = Some (r', log', p).
Proof.
  intros H. destruct H as [m Hp Hm | Hp Hm | Hp | Hp Hl | m Hp Hm | Hp Hm
                           | Hp | Hp | m Hp | m Hp | res Hp | m Hp Hneg];
    unfold step_task; rewrite Hp; rewrite ?Hm, ?Hl;
      [exists true | exists true | exists true | exists true | exists true
       | exists true | exists true | exists false | exists true | exists true
       | exists true | exists true]; try reflexivity.
  - match goal with H : (0 <= _)%Z |- _ => apply Z.ltb_ge in H; rewrite H end.
    reflexivity.
  - apply Z.ltb_lt in Hneg. rewrite Hneg. reflexivity.
Qed.

(** *** The invariant is kept by every statement *)

Lemma holder_locked r log u :
  task_ok r log u -> holds_lock (pc u) = true -> _locks r !! key u = Some true.
Proof.
  unfold task_ok.
  destruct (pc u) as [| | | | | | | [m |] | [m |]]; simpl;
    try discriminate; tauto.
Qed.

Lemma others_outside s i t j u :
  Inv s -> tasks s !! i = Some t -> holds_lock (pc t) = true ->
  j <> i -> tasks s !! j = Some u -> key u = key t ->
  holds_lock (pc u) = false.
Proof.
  intros HI Ht Hh Hne Hu Hk.
  destruct (holds_lock (pc u)) eqn:E; [| reflexivity].
  exfalso. apply Hne. eapply (inv_mutex s HI j i u t); eauto.
Qed.

Lemma nobody_inside s k j u :
  Inv s -> _locks (registry s) !! k = Some false ->
  tasks s !! j = Some u -> key u = k -> holds_lock (pc u) = false.
Proof.
  intros HI Hfree Hu Hk.
  destruct (holds_lock (pc u)) eqn:E; [| reflexivity].
  pose proof (holder_locked _ _ _ (inv_tasks s HI j u Hu) E) as Hl.
  congruence.
Qed.

Lemma moves_keeps_tasks s i t r' log' p :
  Inv s -> tasks s !! i = Some t ->
  moves (registry s) (calls s) t r' log' p ->
  forall j u, tasks (moved_state s i t r' log' p) !! j = Some u ->
              task_ok r' log' u.
Proof.
  intros HI Ht Hmv j u Hj. simpl in Hj.
  pose proof (inv_tasks s HI i t Ht) as Hok.
  destruct (lookup_moved _ _ _ _ _ _ Ht Hj) as [[-> ->] | [Hne Hu]].
  - (* the task that moved *)
    unfold task_ok in *. simpl.
    destruct Hmv as [m Hp Hm | Hp Hm | Hp | Hp Hl | m Hp Hm | Hp Hm
                     | Hp | Hp | m Hp | m Hp | res Hp | m Hp Hneg];
      rewrite Hp in Hok; simpl in *.
    + exact Hm.
    + exact I.
    + rewrite lookup_setdefault. destruct (_locks (registry s) !! key t); eauto.
      rewrite decide_True by reflexivity. eauto.
    + apply lookup_insert_eq.
    + auto.
    + split; [assumption |]. split; [assumption |].
      destruct (inv_unloaded s HI (key t) Hm) as [H0 | (j & u & m & Hu & Hk & Hpu)];
        [exact H0 | exfalso].
      assert (j = i).
      { eapply (inv_mutex s HI j i u t); eauto; [rewrite Hpu | rewrite Hp]; reflexivity. }
      subst j. congruence.
    + destruct Hok as (Hl & Hm & Hc). split; [assumption |]. split; [assumption |].
      rewrite ctor_returns_snoc, decide_True by reflexivity. lia.
    + destruct Hok as (Hl & Hm & Hc). split; [assumption |]. left.
      rewrite ctor_raises_snoc, decide_True by reflexivity. lia.
    + destruct Hok as (Hl & Hm & Hc). split; [assumption |]. apply lookup_insert_eq.
    + exact Hok.
    + destruct res as [m |]; [| exact I]. destruct Hok as [_ Hm]. exact Hm.
    + destruct Hok as [Hl _]. split; [exact Hl | right; exact Hneg].
  - (* the others *)
    pose proof (inv_tasks s HI j u Hu) as Hou.
    destruct Hmv as [m Hp Hm | Hp Hm | Hp | Hp Hl | m Hp Hm | Hp Hm
                     | Hp | Hp | m Hp | m Hp | res Hp | m Hp Hneg];
      unfold task_ok in Hok; rewrite Hp in Hok; simpl in Hok; try exact Hou.
    + now apply frame_setdefault_lock.
    + now apply frame_acquire.
    + apply frame_call; [| exact Hou]. intros Hk.
      apply (others_outside s i t j u HI Ht); auto. rewrite Hp; reflexivity.
    + apply frame_call; [| exact Hou]. intros Hk.
      apply (others_outside s i t j u HI Ht); auto. rewrite Hp; reflexivity.
    + apply frame_publish; [tauto | | exact Hou]. intros Hk.
      apply (others_outside s i t j u HI Ht); auto. rewrite Hp; reflexivity.
    + apply frame_release; [| exact Hou]. intros Hk.
      apply (others_outside s i t j u HI Ht); auto. rewrite Hp; reflexivity.
Qed.

Lemma moves_log_grows r log t r' log' p k :
  moves r log t r' log' p -> ctor_raises k log <= ctor_raises k log'.
Proof.
  intros Hmv. destruct Hmv; try lia; rewrite ctor_raises_snoc; lia.
Qed.

Lemma moves_keeps_raised s i t r' log' p :
  Inv s -> tasks s !! i = Some t ->
  moves (registry s) (calls s) t r' log' p ->
  forall j u, tasks (moved_state s i t r' log' p) !! j = Some u ->
              pc u = Done None ->
              1 <= ctor_raises (key u) log'
              \/ (concurrency_or_1 (concurrency u) < 0)%Z.
Proof.
  intros HI Ht Hmv j u Hj Hdone. simpl in Hj.
  pose proof (moves_log_grows _ _ _ _ _ _ (key u) Hmv) as Hgrow.
  destruct (lookup_moved _ _ _ _ _ _ Ht Hj) as [[-> ->] | [Hne Hu]].
  - pose proof (inv_tasks s HI i t Ht) as Hok. unfold task_ok in Hok.
    simpl in *. subst p.
    inversion Hmv as [| | | | | | | | | | res Hp |]; subst.
    rewrite Hp in Hok. simpl in Hok. destruct Hok as [_ [Hr | Hc]]; [left; lia | now right].
  - destruct (inv_raised s HI j u Hu Hdone) as [Hr | Hc]; [left; lia | now right].
Qed.

Lemma moves_holds_lock r log t r' log' p :
  moves r log t r' log' p ->
  holds_lock p = true ->
  holds_lock (pc t) = true \/ _locks r !! key t = Some false.
Proof.
  intros Hmv. destruct Hmv as [m Hp Hm | Hp Hm | Hp | Hp Hl | m Hp Hm | Hp Hm
                               | Hp | Hp | m Hp | m Hp | res Hp | m Hp Hneg];
    rewrite Hp; simpl; auto; discriminate.
Qed.

Lemma moves_keeps_mutex s i t r' log' p :
  Inv s -> tasks s !! i = Some t ->
  moves (registry s) (calls s) t r' log' p ->
  forall j1 j2 u1 u2,
    tasks (moved_state s i t r' log' p) !! j1 = Some u1 ->
    tasks (moved_state s i t r' log' p) !! j2 = Some u2 ->
    key u1 = key u2 ->
    holds_lock (pc u1) = true -> holds_lock (pc u2) = true -> j1 = j2.
Proof.
  intros HI Ht Hmv j1 j2 u1 u2 H1 H2 Hk Hh1 Hh2. simpl in H1, H2.
  assert (Hclash : forall j u, j <> i -> tasks s !! j = Some u ->
                               key u = key t -> holds_lock (pc u) = true ->
                               holds_lock p = true -> False).
  { intros j u Hne Hu Hku Hhu Hp.
    destruct (moves_holds_lock _ _ _ _ _ _ Hmv Hp) as [Hheld | Hfree].
    - pose proof (others_outside s i t j u HI Ht Hheld Hne Hu Hku). congruence.
    - pose proof (nobody_inside s (key t) j u HI Hfree Hu Hku). congruence. }
  destruct (lookup_moved _ _ _ _ _ _ Ht H1) as [[-> ->] | [Hne1 Hu1]];
    destruct (lookup_moved _ _ _ _ _ _ Ht H2) as [[-> ->] | [Hne2 Hu2]];
    simpl in *.
  - reflexivity.
  - exfalso. eapply (Hclash j2 u2); eauto.
  - exfalso. eapply (Hclash j1 u1); eauto.
  - eapply (inv_mutex s HI); eauto.
Qed.

Lemma moves_keeps_holder s i t r' log' p :
  Inv s -> tasks s !! i = Some t ->
  moves (registry s) (calls s) t r' log' p ->
  forall k, _locks r' !! k = Some true ->
    exists j u, tasks (moved_state s i t r' log' p) !! j = Some u
                /\ key u = k /\ holds_lock (pc u) = true.
Proof.
  intros HI Ht Hmv k Hk. simpl.
  (* a holder before the move is a holder after it, unless it released *)
  assert (Hpre : _locks (registry s) !! k = Some true ->
                 (forall res, pc t = Exiting res -> k <> key t) ->
                 (holds_lock (pc t) = true -> holds_lock p = true
                                              \/ exists res, pc t = Exiting res) ->
                 exists j u, <[i := at_pc t p]> (tasks s) !! j = Some u
                             /\ key u = k /\ holds_lock (pc u) = true).
  { intros Hl Hrel Hstay.
    destruct (inv_holder s HI k Hl) as (j & u & Hu & Hku & Hhu).
    destruct (decide (j = i)) as [-> | Hne].
    - assert (u = t) by congruence. subst u.
      destruct (Hstay Hhu) as [Hp | [res Hres]].
      + exists i, (at_pc t p). split; [now apply lookup_self |]. auto.
      + exfalso. eapply Hrel; eauto.
    - exists j, u. split; [now apply lookup_others |]. auto. }
  destruct Hmv as [m Hp Hm | Hp Hm | Hp | Hp Hl | m Hp Hm | Hp Hm
                   | Hp | Hp | m Hp | m Hp | res Hp | m Hp Hneg]; simpl in Hk.
  all: try (apply Hpre; [exact Hk | intros res Hres; congruence
                        | rewrite Hp; simpl; intros; first [discriminate | auto]]).
  - (* setdefault *)
    rewrite lookup_setdefault in Hk.
    destruct (_locks (registry s) !! k) as [b |] eqn:E.
    + apply Hpre; [congruence | intros res Hres; congruence
                  | rewrite Hp; simpl; intros; discriminate].
    + destruct (decide (key t = k)); discriminate.
  - (* acquire *)
    destruct (decide (key t = k)) as [<- | Hne].
    + exists i, (at_pc t Holding). split; [now apply lookup_self |]. auto.
    + rewrite lookup_insert_ne in Hk by assumption.
      apply Hpre; [exact Hk | intros res Hres; congruence
                  | rewrite Hp; simpl; intros; discriminate].
  - (* release *)
    destruct (decide (key t = k)) as [<- | Hne].
    + rewrite lookup_insert_eq in Hk. discriminate.
    + rewrite lookup_insert_ne in Hk by assumption.
      apply Hpre; [exact Hk | intros; congruence | eauto].
Qed.

Lemma moves_models_grow r log t r' log' p k :
  moves r log t r' log' p -> _models r' !! k = None -> _models r !! k = None.
Proof.
  intros Hmv. destruct Hmv; simpl; auto.
  destruct (decide (key t = k)) as [<- | Hne].
  - rewrite lookup_insert_eq. discriminate.
  - rewrite lookup_insert_ne by assumption. auto.
Qed.

Lemma moves_keeps_unloaded s i t r' log' p :
  Inv s -> tasks s !! i = Some t ->
  moves (registry s) (calls s) t r' log' p ->
  forall k, _models r' !! k = None ->
    ctor_returns k log' = 0
    \/ exists j u m, tasks (moved_state s i t r' log' p) !! j = Some u
                      /\ key u = k /\ pc u = Publishing m.
Proof.
  intros HI Ht Hmv k Hk. simpl.
  pose proof (moves_models_grow _ _ _ _ _ _ k Hmv Hk) as Hk0.
  destruct (inv_unloaded s HI k Hk0) as [H0 | (j & u & m & Hu & Hku & Hpu)].
  - (* no constructor has returned for [k] so far *)
    destruct Hmv as [m Hp Hm | Hp Hm | Hp | Hp Hl | m Hp Hm | Hp Hm
                     | Hp | Hp | m Hp | m Hp | res Hp | m Hp Hneg]; auto.
    + destruct (decide (key t = k)) as [<- | Hne].
      * right. exists i, (at_pc t (Publishing (length (calls s)))), (length (calls s)).
        split; [now apply lookup_self |]. auto.
      * left. rewrite ctor_returns_snoc, decide_False by congruence. lia.
    + left. rewrite ctor_returns_snoc, decide_False by congruence. lia.
  - (* some task is about to publish for [k] *)
    destruct (decide (j = i)) as [-> | Hne].
    + assert (u = t) by congruence. subst u. exfalso.
      inversion Hmv as [| | | | | | | | m' Hp | | |]; subst; try congruence.
      simpl in Hk. rewrite lookup_insert_eq in Hk. discriminate.
    + right. exists j, u, m. split; [now apply lookup_others |]. auto.
Qed.

Lemma moves_keeps_loaded s i t r' log' p :
  Inv s -> tasks s !! i = Some t ->
  moves (registry s) (calls s) t r' log' p ->
  forall k m, _models r' !! k = Some m -> ctor_returns k log' = 1.
Proof.
  intros HI Ht Hmv k m Hk.
  pose proof (inv_tasks s HI i t Ht) as Hok. unfold task_ok in Hok.
  destruct Hmv as [m' Hp Hm | Hp Hm | Hp | Hp Hl | m' Hp Hm | Hp Hm
                   | Hp | Hp | m' Hp | m' Hp | res Hp | m' Hp Hneg];
    rewrite Hp in Hok; simpl in *;
    try (eapply (inv_loaded s HI); eauto; fail).
  - destruct Hok as (_ & Hm & _).
    rewrite ctor_returns_snoc.
    destruct (decide (key t = k)) as [<- | Hne]; [congruence |].
    rewrite decide_False by congruence.
    rewrite (inv_loaded s HI k m Hk). lia.
  - rewrite ctor_returns_snoc, decide_False by congruence.
    rewrite (inv_loaded s HI k m Hk). lia.
  - destruct Hok as (_ & Hm & Hc).
    destruct (decide (key t = k)) as [<- | Hne]; [exact Hc |].
    rewrite lookup_insert_ne in Hk by assumption.
    eapply (inv_loaded s HI); eauto.
Qed.

(** Every statement of every task keeps the invariant. *)
Lemma step_inv s i ok s' : Inv s -> step s i ok = Some s' -> Inv s'.
Proof.
  intros HI H. unfold step in H.
  destruct (tasks s !! i) as [t |] eqn:Ht; [| discriminate].
  destruct (step_task _ _ t ok) as [[[r' log'] p] |] eqn:Hs; [| discriminate].
  injection H as <-. apply step_task_moves in Hs.
  change {| registry := r'; tasks := <[i := at_pc t p]> (tasks s); calls := log' |}
    with (moved_state s i t r' log' p).
  constructor.
  - now apply moves_keeps_tasks.
  - now apply moves_keeps_raised.
  - now apply moves_keeps_mutex.
  - now apply moves_keeps_holder.
  - now apply moves_keeps_unloaded.
  - now apply (moves_keeps_loaded s i t r' log' p).
Qed.

Lemma spawn_inv args : Inv (spawn args).
Proof.
  assert (Hentry : forall j u, tasks (spawn args) !! j = Some u -> pc u = Entry).
  { intros j u Hu. simpl in Hu. rewrite list_lookup_fmap in Hu.
    destruct (args !! j); simpl in Hu; [| discriminate]. now injection Hu as <-. }
  constructor; simpl.
  - intros j u Hu. unfold task_ok. now rewrite (Hentry j u Hu).
  - intros j u Hu Hp. rewrite (Hentry j u Hu) in Hp. discriminate.
  - intros j1 j2 u1 u2 H1 _ _ Hh. rewrite (Hentry j1 u1 H1) in Hh. discriminate.
  - intros k Hk. rewrite lookup_empty in Hk. discriminate.
  - intros k _. left. reflexivity.
  - intros k m Hk. rewrite lookup_empty in Hk. discriminate.
Qed.

Lemma run_inv schedule : forall s s', Inv s -> run s schedule = Some s' -> Inv s'.
Proof.
  induction schedule as [| [i ok] rest IH]; intros s s' HI H; simpl in H.
  - now injection H as <-.
  - destruct (step s i ok) as [s1 |] eqn:Hs; [| discriminate].
    eapply IH; [| exact H]. eapply step_inv; eauto.
Qed.

(** *** No deadlock *)

Lemma can_move r log t :
  pc t <> AtLock -> finished t = false ->
  exists res, step_task r log t true = Some res.
Proof.
  unfold step_task, finished.
  destruct (pc t); intros Hat Hfin; try congruence; try discriminate;
    repeat case_match; eauto.
Qed.

Lemma step_of_task s i t ok res :
  tasks s !! i = Some t -> step_task (registry s) (calls s) t ok = Some res ->
  exists s', step s i ok = Some s'.
Proof.
  intros Ht Hs. unfold step. rewrite Ht, Hs. destruct res as [[r log] p]. eauto.
Qed.

Lemma progress s :
  Inv s ->
  Forall (fun t => finished t = true) (tasks s)
  \/ exists i ok s', step s i ok = Some s'.
Proof.
  intros HI.
  destruct (decide (Forall (fun t => finished t = true) (tasks s))) as [Hall | Hnot];
    [now left | right].
  apply not_Forall_Exists in Hnot; [| apply _].
  apply Exists_exists in Hnot. destruct Hnot as (t & Hin & Hfin). simpl in Hfin.
  apply list_elem_of_lookup in Hin. destruct Hin as [i Ht].
  apply not_true_is_false in Hfin.
  destruct (decide (pc t = AtLock)) as [Hat | Hat].
  - pose proof (inv_tasks s HI i t Ht) as Hok. unfold task_ok in Hok.
    rewrite Hat in Hok. destruct Hok as [[|] Hl].
    + (* the lock is held: its holder can move *)
      destruct (inv_holder s HI (key t) Hl) as (j & u & Hu & Hku & Hhu).
      destruct (can_move (registry s) (calls s) u) as [res Hres].
      * intros Hpu. rewrite Hpu in Hhu. discriminate.
      * unfold finished. destruct (pc u); try reflexivity; discriminate.
      * destruct (step_of_task s j u true res Hu Hres) as [s' Hs']. eauto.
    + (* the lock is free: the task acquires it *)
      eapply (step_of_task s i t true) in Ht as [s' Hs']; [eauto |].
      unfold step_task. rewrite Hat, Hl. reflexivity.
  - destruct (can_move (registry s) (calls s) t Hat Hfin) as [res Hres].
    destruct (step_of_task s i t true res Ht Hres) as [s' Hs']. eauto.
Qed.

(** *** Who called for which key *)

Lemma step_keys s i ok s' :
  step s i ok = Some s' -> map key (tasks s') = map key (tasks s).
Proof.
  unfold step. intros H.
  destruct (tasks s !! i) as [t |] eqn:Ht; [| discriminate].
  destruct (step_task _ _ t ok) as [[[r log] p] |]; [| discriminate].
  injection H as <-. simpl.
  change (map key) with (fmap (M := list) key).
  rewrite list_fmap_insert. simpl.
  apply list_insert_id. rewrite list_lookup_fmap, Ht. reflexivity.
Qed.

Lemma run_keys schedule : forall s s',
  run s schedule = Some s' -> map key (tasks s') = map key (tasks s).
Proof.
  induction schedule as [| [i ok] rest IH]; intros s s' H; simpl in H.
  - now injection H as <-.
  - destruct (step s i ok) as [s1 |] eqn:Hs; [| discriminate].
    rewrite (IH _ _ H). eapply step_keys, Hs.
Qed.

Lemma spawn_keys args : map key (tasks (spawn args)) = map fst args.
Proof. simpl. rewrite map_map. reflexivity. Qed.

Lemma step_callers s i ok s' :
  step s i ok = Some s' ->
  map (fun t => (key t, concurrency t)) (tasks s')
  = map (fun t => (key t, concurrency t)) (tasks s).
Proof.
  unfold step. intros H.
  destruct (tasks s !! i) as [t |] eqn:Ht; [| discriminate].
  destruct (step_task _ _ t ok) as [[[r log] p] |]; [| discriminate].
  injection H as <-. simpl.
  change (map (fun t => (key t, concurrency t)))
    with (fmap (M := list) (fun t => (key t, concurrency t))).
  rewrite list_fmap_insert. simpl.
  apply list_insert_id. rewrite list_lookup_fmap, Ht. reflexivity.
Qed.

Lemma run_callers schedule : forall s s',
  run s schedule = Some s' ->
  map (fun t => (key t, concurrency t)) (tasks s')
  = map (fun t => (key t, concurrency t)) (tasks s).
Proof.
  induction schedule as [| [i ok] rest IH]; intros s s' H; simpl in H.
  - now injection H as <-.
  - destruct (step s i ok) as [s1 |] eqn:Hs; [| discriminate].
    rewrite (IH _ _ H). eapply step_callers, Hs.
Qed.

Lemma spawn_callers args :
  map (fun t => (key t, concurrency t)) (tasks (spawn args)) = args.
Proof.
  simpl. rewrite map_map. simpl. induction args as [| [k c] args IH];
    [reflexivity | simpl; now rewrite IH].
Qed.

Lemma returns_at_most_once s k : Inv s -> ctor_returns k (calls s) <= 1.
Proof.
  intros HI. destruct (_models (registry s) !! k) as [m |] eqn:Hm.
  - rewrite (inv_loaded s HI k m Hm). lia.
  - destruct (inv_unloaded s HI k Hm) as [-> | (j & u & m & Hu & Hk & Hp)]; [lia |].
    pose proof (inv_tasks s HI j u Hu) as Hok. unfold task_ok in Hok.
    rewrite Hp, Hk in Hok. lia.
Qed.

End GetOrCreate.

(** C1 as the spec has it fails: when the constructor raises for the caller
    that holds the lock, the lock is released and the next waiter constructs
    again.  Two concurrent callers for one unloaded key, every call finished:
    the constructor was invoked twice for the key, and the first caller
    raised instead of receiving the model the second one got.  And a caller
    alone that passes the concurrency -1 receives no model either, although
    no constructor call raised: the model is cached, then
    [asyncio.Semaphore(-1)] raises. *)
Lemma get_or_create_constructs_twice :
  (exists s,
    Registry.run (Registry.spawn two_callers) raising_schedule = Some s
    /\ Forall (fun t => Registry.finished t = true) (Registry.tasks s)
    /\ Registry.ctor_calls base_cpu (Registry.calls s) = 2%nat
    /\ Registry.pc <$> Registry.tasks s
       = [Registry.Done None; Registry.Done (Some 1%nat)])
  /\ (exists s,
    Registry.run (Registry.spawn refused_caller) refused_schedule = Some s
    /\ Forall (fun t => Registry.finished t = true) (Registry.tasks s)
    /\ Registry.calls s = [(base_cpu, true)]
    /\ Registry._models (Registry.registry s) !! base_cpu = Some 0%nat
    /\ Registry.pc <$> Registry.tasks s = [Registry.Done None]).
Proof.
  split.
  - eexists. split; [vm_compute; reflexivity |].
    split; [repeat constructor |]. split; vm_compute; reflexivity.
  - eexists. split; [vm_compute; reflexivity |].
    split; [repeat constructor |]. repeat split; vm_compute; reflexivity.
Qed.

(** C1, amended: take any number of concurrent [get_or_create] calls on a
    fresh registry, at least one of them for the key [k], and any
    interleaving of their statements.  At every point the library
    constructor has returned at most one model for [k]; a run never
    deadlocks and takes at most eight statements per call; and when every
    call has finished, no constructor call for [k] raised and every caller
    for [k] passed a [concurrency] that [asyncio.Semaphore] accepts, the
    constructor was invoked exactly once for [k] and every caller for [k]
    returned the same model reference, the one cached in the registry. *)
Theorem get_or_create_constructs_once
    (args : list (Registry.ModelKey * option Z)) (schedule : list (nat * bool))
    (s : Registry.State) (k : Registry.ModelKey) :
  Registry.run (Registry.spawn args) schedule = Some s ->
  (ctor_returns k (Registry.calls s) <= 1)%nat
  /\ (Forall (fun t => Registry.finished t = true) (Registry.tasks s)
      \/ exists i ok s', Registry.step s i ok = Some s')
  /\ (length schedule <= 8 * length args)%nat
  /\ (Forall (fun t => Registry.finished t = true) (Registry.tasks s) ->
      In k (map fst args) ->
      Registry.ctor_raises k (Registry.calls s) = 0%nat ->
      Forall (fun a => a.1 = k -> (0 <= Registry.concurrency_or_1 a.2)%Z) args ->
      Registry.ctor_calls k (Registry.calls s) = 1%nat
      /\ exists m, Registry._models (Registry.registry s) !! k = Some m
                   /\ Forall (fun t => Registry.key t = k ->
                                       Registry.pc t = Registry.Done (Some m))
                             (Registry.tasks s)).
Proof.
  intros Hrun.
  pose proof (run_inv schedule _ _ (spawn_inv args) Hrun) as HI.
  split; [now apply returns_at_most_once |].
  split; [now apply progress |].
  split.
  { pose proof (run_bounded schedule _ _ Hrun) as Hb.
    rewrite work_spawn in Hb. lia. }
  intros Hfin Hin Hraise Hvalid.
  (* the callers are the ones that were spawned *)
  assert (Hargs : forall i t, Registry.tasks s !! i = Some t ->
                              (Registry.key t, Registry.concurrency t) ∈ args).
  { intros i t Ht. rewrite <- (spawn_callers args), <- (run_callers schedule _ _ Hrun).
    apply list_elem_of_In, in_map_iff. exists t. split; [reflexivity |].
    apply list_elem_of_In. eapply list_elem_of_lookup_2, Ht. }
  (* some caller asked for [k]; it has finished without raising *)
  assert (Hdone : forall i t, Registry.tasks s !! i = Some t -> Registry.key t = k ->
                              exists m, Registry.pc t = Registry.Done (Some m)
                                        /\ Registry._models (Registry.registry s) !! k
                                           = Some m).
  { intros i t Ht Hk.
    pose proof (proj1 (Forall_lookup _ _) Hfin i t Ht) as Hf. simpl in Hf.
    unfold Registry.finished in Hf.
    destruct (Registry.pc t) as [| | | | | | | | [m |]] eqn:Hp; try discriminate.
    - exists m. split; [reflexivity |].
      pose proof (inv_tasks s HI i t Ht) as Hok. unfold task_ok in Hok.
      rewrite Hp, Hk in Hok. exact Hok.
    - exfalso. destruct (inv_raised s HI i t Ht Hp) as [Hr | Hc].
      + rewrite Hk in Hr. lia.
      + pose proof (proj1 (Forall_forall _ _) Hvalid _ (Hargs i t Ht) Hk) as Hv.
        simpl in Hv. lia. }
  assert (Hcaller : exists i t, Registry.tasks s !! i = Some t /\ Registry.key t = k).
  { rewrite <- spawn_keys, <- (run_keys schedule _ _ Hrun) in Hin.
    apply in_map_iff in Hin. destruct Hin as (t & Hk & Hin).
    apply list_elem_of_In, list_elem_of_lookup in Hin. destruct Hin as [i Ht]. eauto. }
  destruct Hcaller as (i & t & Ht & Hk).
  destruct (Hdone i t Ht Hk) as (m & Hp & Hm).
  split.
  - rewrite ctor_calls_split, Hraise, (inv_loaded s HI k m Hm). reflexivity.
  - exists m. split; [exact Hm |].
    apply Forall_lookup. intros j u Hu Hku.
    destruct (Hdone j u Hu Hku) as (m' & Hp' & Hm'). congruence.
Qed.

Lemma get_or_create_constructs_once_witness :
  exists s, Registry.run (Registry.spawn two_callers) two_callers_schedule = Some s
            /\ Registry.ctor_calls base_cpu (Registry.calls s) = 1%nat.
Proof.
  destruct (Registry.run (Registry.spawn two_callers) two_callers_schedule)
    as [s |] eqn:E; [| vm_compute in E; discriminate E].
  exists s. split; [reflexivity |].
  pose proof (get_or_create_constructs_once two_callers two_callers_schedule
                s base_cpu E) as (_ & _ & _ & H).
  vm_compute in E. injection E as <-.
  apply H.
  - repeat constructor.
  - left. reflexivity.
  - vm_compute. reflexivity.
  - repeat constructor; intros _; vm_compute; discriminate.
Defined.

(** ** transcription.py: when the segments are read *)
Section TranscriptionFacts.
Import AudioIO Transcription.
Local Open Scope list_scope.

Lemma consume_spec audio pending : forall index w,
  consume audio index pending w
  = (Ok pending,
     {| files := files w; temp_counter := temp_counter w;
        trace := trace w ++ read_events (audio_there audio w) index (length pending) |}).
Proof.
  induction pending as [| seg rest IH]; intros index w; simpl.
  - unfold pure, read_events. simpl. rewrite app_nil_r. now destruct w.
  - unfold and_then, emit at 1. simpl. rewrite IH. simpl.
    unfold pure, read_events. simpl. rewrite <- app_assoc. reflexivity.
Qed.

(** Bytes that take the temp-file path: the file is written, handed to the
    library, deleted when the [with] block ends, and only then are the
    segments read.  The text returned is the trimmed segment texts joined
    with single spaces, trimmed once more. *)
Lemma transcribe_via_temp_file wave_open (model : Model) data language task
    vad_filter beam_size return_meta decode_wav_bytes segments info w :
  (decode_wav_bytes = false
   \/ _decode_wav_bytes_to_array wave_open data 16000 = None) ->
  let p := TempPath (temp_counter w) in
  model (AudioFile p) language task vad_filter beam_size = inr (segments, info) ->
  let text := strip (join_spaces (map (fun seg => strip (seg_text seg)) segments)) in
  transcribe_with_model wave_open model (InputBytes data) language task
    vad_filter beam_size return_meta decode_wav_bytes w
  = (Ok (if return_meta
         then inr {| r_text := text;
                     r_language := info_language info;
                     r_language_probability := info_language_probability info;
                     r_duration_seconds := info_duration info;
                     r_segments :=
                       map (fun seg => {| d_start := seg_start seg;
                                          d_end := seg_end seg;
                                          d_text := strip (seg_text seg) |})
                           segments |}
         else inl text),
     {| files := filter (fun q => q <> p) (p :: files w);
        temp_counter := S (temp_counter w);
        trace := trace w ++ [TempCreated p; LibraryCalled (AudioFile p);
                             TempDeleted p]
                         ++ read_events false 0 (length segments) |}).
Proof.
  intros Hpath p Hmodel text. subst text.
  assert (Hwith : forall w0,
    temp_counter w0 = temp_counter w ->
    and_then (write_temp_file data) (fun q =>
      attempt (and_then (emit (LibraryCalled (AudioFile q))) (fun _ =>
                 match model (AudioFile q) language task vad_filter beam_size with
                 | inl msg => raise (RuntimeError ("Transcription failed: " ++ msg)%string)
                 | inr (segs, inf) =>
                     pure ({| source := AudioFile q; pending := segs |}, inf)
                 end))
              (leave (Some q))) w0
    = (Ok ({| source := AudioFile p; pending := segments |}, info),
       {| files := filter (fun q => q <> p) (p :: files w0);
          temp_counter := S (temp_counter w0);
          trace := trace w0 ++ [TempCreated p; LibraryCalled (AudioFile p);
                                TempDeleted p] |})).
  { intros w0 Hc. unfold and_then at 1, write_temp_file.
    cbn [write_fails reliable]. cbv zeta. rewrite Hc. fold p.
    unfold attempt at 1, and_then at 1, emit. rewrite Hmodel. unfold pure at 1.
    unfold leave, and_then at 1, cleanup, and_then, path_exists. cbn [files].
    rewrite bool_decide_eq_true_2 by (left).
    unfold attempt, unlink, pure. cbn [unlink_fails reliable files temp_counter trace].
    rewrite <- !app_assoc. reflexivity. }
  unfold transcribe_with_model, and_then at 1.
  assert (Hprep : with_prepare_audio_input wave_open (InputBytes data) decode_wav_bytes
                    (fun audio _ =>
                       and_then (emit (LibraryCalled audio)) (fun _ =>
                         match model audio language task vad_filter beam_size with
                         | inl msg => raise (RuntimeError ("Transcription failed: " ++ msg)%string)
                         | inr (segs, inf) =>
                             pure ({| source := audio; pending := segs |}, inf)
                         end)) w
                  = (Ok ({| source := AudioFile p; pending := segments |}, info),
                     {| files := filter (fun q => q <> p) (p :: files w);
                        temp_counter := S (temp_counter w);
                        trace := trace w ++ [TempCreated p; LibraryCalled (AudioFile p);
                                             TempDeleted p] |})).
  { unfold with_prepare_audio_input.
    destruct Hpath as [-> | Hdec]; [apply Hwith; reflexivity |].
    rewrite Hdec. destruct decode_wav_bytes; apply Hwith; reflexivity. }
  rewrite Hprep. cbn [source pending].
  unfold and_then at 1. rewrite consume_spec.
  assert (Hgone : audio_there (AudioFile p)
                    {| files := filter (fun q => q <> p) (p :: files w);
                       temp_counter := S (temp_counter w);
                       trace := trace w ++ [TempCreated p; LibraryCalled (AudioFile p);
                                            TempDeleted p] |} = false).
  { unfold audio_there. cbn [files]. apply bool_decide_eq_false_2.
    intros Hin. apply list_elem_of_filter in Hin. destruct Hin as [Hne _].
    now apply Hne. }
  rewrite Hgone.
  destruct return_meta; unfold pure; cbn [negb files temp_counter trace];
    rewrite <- app_assoc; reflexivity.
Qed.

End TranscriptionFacts.

(** C4 (the code departs from it): for an upload that needs the temp file,
    [transcribe_with_model] deletes the file when the [with] block ends and
    reads both segments afterwards, when the audio is gone.  The text returned
    is the trimmed segment texts joined with single spaces. *)
Theorem transcribe_reads_segments_after_cleanup :
  Transcription.transcribe_with_model not_a_wave_file two_segment_model
    (AudioIO.InputBytes not_a_wav) None "transcribe" true 5 false true empty_world
  = (AudioIO.Ok (inl "Hello world."),
     {| AudioIO.files := [];
        AudioIO.temp_counter := 1;
        AudioIO.trace :=
          [ AudioIO.TempCreated (AudioIO.TempPath 0);
            AudioIO.LibraryCalled (AudioIO.AudioFile (AudioIO.TempPath 0));
            AudioIO.TempDeleted (AudioIO.TempPath 0);
            AudioIO.SegmentRead 0 false;
            AudioIO.SegmentRead 1 false ] |}).
Proof. vm_compute. reflexivity. Qed.

(** ** audio_io.py: the in-memory WAV decode *)
Section DecodeFacts.
Import AudioIO.
Local Open Scope list_scope.

(** *** Bits and bytes *)
Section Bits.
Local Open Scope Z_scope.

Lemma byte_val_range (b : Byte.byte) : (0 <= byte_val b <= 255)%Z.
Proof. unfold byte_val. pose proof (Byte.to_N_bounded b). lia. Qed.

Lemma lor_below (n a b : Z) :
(0 <= n -> 0 <= a < 2 ^ n -> 0 <= b < 2 ^ n -> 0 <= Z.lor a b < 2 ^ n)%Z.
Proof.
intros Hn Ha Hb. split; [apply Z.lor_nonneg; lia |].
destruct (Z.eq_dec a 0) as [-> | Ha0]; [rewrite Z.lor_0_l; lia |].
destruct (Z.eq_dec b 0) as [-> | Hb0]; [rewrite Z.lor_0_r; lia |].
assert (Hpos : (0 < Z.lor a b)%Z).
{ assert (0 <= Z.lor a b)%Z by (apply Z.lor_nonneg; lia).
  assert (Z.lor a b <> 0)%Z by (rewrite Z.lor_eq_0_iff; lia). lia. }
apply Z.log2_lt_pow2; [exact Hpos |].
rewrite Z.log2_lor by lia.
apply Z.max_lub_lt; apply Z.log2_lt_pow2; lia.
Qed.

Lemma land_single_bit (u n : Z) :
(0 <= n -> Z.land u (2 ^ n) = if Z.testbit u n then 2 ^ n else 0)%Z.
Proof.
intros Hn. apply Z.bits_inj'. intros m Hm.
rewrite Z.land_spec, Z.pow2_bits_eqb by assumption.
destruct (Z.eqb_spec n m) as [<- | Hne].
- destruct (Z.testbit u n) eqn:E; simpl.
  + rewrite Z.pow2_bits_true; auto.
  + now rewrite Z.bits_0.
- rewrite andb_false_r. destruct (Z.testbit u n).
  + rewrite Z.pow2_bits_false; auto.
  + now rewrite Z.bits_0.
Qed.

Lemma sign_extend_24_range (row : list Byte.byte) :
(- 2 ^ 23 <= sign_extend_24 row < 2 ^ 23)%Z.
Proof.
destruct row as [| a0 [| a1 [| a2 [| ? ?]]]]; simpl; try lia.
pose proof (byte_val_range a0). pose proof (byte_val_range a1).
pose proof (byte_val_range a2).
set (u := Z.lor (Z.lor (byte_val a0) (Z.shiftl (byte_val a1) 8))
                (Z.shiftl (byte_val a2) 16)).
assert (Hu : (0 <= u < 2 ^ 24)%Z).
{ subst u. rewrite !Z.shiftl_mul_pow2 by lia.
  apply lor_below; [lia | | lia]. apply lor_below; lia. }
change 8388608%Z with (2 ^ 23)%Z.
rewrite land_single_bit by lia. rewrite Z.shiftl_mul_pow2 by lia.
destruct (Z.testbit u 23) eqn:E.
- apply Z.testbit_true in E; [| lia].
  assert (2 ^ 23 <= u)%Z.
  { destruct (Z.lt_ge_cases u (2 ^ 23)) as [Hlt | Hge]; [| exact Hge].
    rewrite Z.div_small in E by lia. discriminate E. }
  lia.
- apply Z.testbit_false in E; [| lia].
  assert (u < 2 ^ 23)%Z.
  { destruct (Z.lt_ge_cases u (2 ^ 23)) as [Hlt | Hge]; [exact Hlt |].
    assert (Hq : (u / 2 ^ 23 = 1)%Z).
    { symmetry. apply Z.div_unique with (r := u - 2 ^ 23); lia. }
    rewrite Hq in E. discriminate E. }
  lia.
Qed.

Lemma lor_shiftl_add (a b n : Z) :
  0 <= n -> 0 <= a < 2 ^ n -> 0 <= b -> Z.lor a (Z.shiftl b n) = a + b * 2 ^ n.
Proof.
  intros Hn Ha Hb.
  assert (Hdisj : Z.land a (Z.shiftl b n) = 0).
  { apply Z.bits_inj'. intros m Hm. rewrite Z.land_spec, Z.bits_0.
    destruct (Z.lt_ge_cases m n) as [Hlt | Hge].
    - rewrite (Z.shiftl_spec_low b n m Hlt). apply andb_false_r.
    - assert (Z.testbit a m = false) as ->; [| reflexivity].
      destruct (Z.eq_dec a 0) as [-> | Hne]; [apply Z.bits_0 |].
      apply Z.bits_above_log2; [lia |].
      apply Z.lt_le_trans with n; [| exact Hge].
      apply Z.log2_lt_pow2; lia. }
  rewrite <- Z.lxor_lor by exact Hdisj.
  rewrite <- Z.add_nocarry_lxor by exact Hdisj.
  now rewrite Z.shiftl_mul_pow2.
Qed.

Lemma sign_extend_24_twos_complement (a0 a1 a2 : Byte.byte) :
  sign_extend_24 [a0; a1; a2] = as_signed 24 (le_unsigned [a0; a1; a2]).
Proof.
  pose proof (byte_val_range a0). pose proof (byte_val_range a1).
  pose proof (byte_val_range a2).
  unfold sign_extend_24, le_unsigned, as_signed. cbn [fold_right].
  rewrite (lor_shiftl_add (byte_val a0) (byte_val a1) 8) by lia.
  rewrite (lor_shiftl_add _ (byte_val a2) 16) by lia.
  set (u := byte_val a0 + byte_val a1 * 2 ^ 8 + byte_val a2 * 2 ^ 16).
  replace (byte_val a0 + 256 * (byte_val a1 + 256 * (byte_val a2 + 256 * 0))) with u
    by (subst u; lia).
  assert (Hu : 0 <= u < 2 ^ 24) by (subst u; lia).
  change 8388608 with (2 ^ 23).
  rewrite land_single_bit by lia. rewrite Z.shiftl_mul_pow2 by lia.
  change (24 - 1) with 23.
  destruct (Z.ltb_spec u (2 ^ 23)) as [Hlt | Hge].
  - assert (E : Z.testbit u 23 = false).
    { apply Z.testbit_false; [lia |]. now rewrite Z.div_small by lia. }
    rewrite E. lia.
  - assert (E : Z.testbit u 23 = true).
    { apply Z.testbit_true; [lia |].
      replace (u / 2 ^ 23) with 1; [reflexivity |].
      apply Z.div_unique with (r := u - 2 ^ 23); lia. }
    rewrite E. lia.
Qed.

End Bits.

(** *** Rows *)

Lemma rows_length {A} (w count : nat) : forall l : list A,
  length (rows w count l) = count.
Proof. induction count as [| c IH]; intros l; simpl; [| rewrite IH]; reflexivity. Qed.

Lemma rows_Forall {A} (P : A -> Prop) (w count : nat) : forall l : list A,
  Forall P l -> Forall (Forall P) (rows w count l).
Proof.
  induction count as [| c IH]; intros l Hl; simpl; constructor.
  - now apply Forall_take.
  - apply IH. now apply Forall_drop.
Qed.

Lemma rows_width {A} (w count : nat) : forall l : list A,
  length l = (count * w)%nat ->
  Forall (fun row => length row = w) (rows w count l).
Proof.
  induction count as [| c IH]; intros l Hl; simpl; constructor.
  - rewrite length_take. lia.
  - apply IH. rewrite length_drop. lia.
Qed.

Lemma reshape_exact {A} (w count : nat) (l : list A) :
  (0 < w)%nat -> length l = (count * w)%nat ->
  reshape w l = Some (rows w count l).
Proof.
  intros Hw Hl. unfold reshape.
  destruct (Nat.eqb_spec w 0) as [-> | _]; [lia |].
  rewrite Hl, Nat.Div0.mod_mul, Nat.div_mul by lia. reflexivity.
Qed.

(** *** Averaging, clipping and interpolation stay in the unit range *)

Lemma Qlt_bool_iff (a b : Q) : Qlt_bool a b = true <-> a < b.
Proof.
  unfold Qlt_bool. rewrite negb_true_iff. split.
  - intros H. apply Qnot_le_lt. intros Hle. apply Qle_bool_iff in Hle. congruence.
  - intros H. destruct (Qle_bool b a) eqn:E; [| reflexivity].
    apply Qle_bool_iff in E. lra.
Qed.

Lemma Qlt_bool_false (a b : Q) : Qlt_bool a b = false -> b <= a.
Proof.
  intros H. apply Qnot_lt_le. intros Hlt. apply Qlt_bool_iff in Hlt. congruence.
Qed.

Lemma clip_in_unit (x : Q) : in_unit (clip x).
Proof.
  unfold clip, in_unit.
  destruct (Qlt_bool x (-1)) eqn:E1; [lra |].
  destruct (Qlt_bool 1 x) eqn:E2; [lra |].
  apply Qlt_bool_false in E1, E2. lra.
Qed.

Lemma sum_in_range (row : list Q) :
  Forall in_unit row ->
  - inject_Z (Z.of_nat (length row)) <= fold_right Qplus 0 row
  /\ fold_right Qplus 0 row <= inject_Z (Z.of_nat (length row)).
Proof.
  induction 1 as [| x row [Hlo Hhi] _ IH]; simpl length; simpl fold_right.
  - change (inject_Z (Z.of_nat 0)) with 0. lra.
  - rewrite Nat2Z.inj_succ, <- Z.add_1_r, inject_Z_plus.
    change (inject_Z 1) with 1. lra.
Qed.

Lemma mean_in_unit (row : list Q) :
  row <> [] -> Forall in_unit row -> in_unit (mean row).
Proof.
  intros Hne Hall. destruct (sum_in_range row Hall) as [Hlo Hhi].
  assert (Hn : 0 < inject_Z (Z.of_nat (length row))).
  { change 0 with (inject_Z 0). rewrite <- Zlt_Qlt.
    destruct row; [congruence | simpl; lia]. }
  unfold mean, in_unit. split.
  - apply Qle_shift_div_l; [exact Hn | lra].
  - apply Qle_shift_div_r; [exact Hn | lra].
Qed.

Lemma interp_from_in_unit (x : Q) (knots : list (Q * Q)) : forall x0 y0,
  x0 <= x -> in_unit y0 -> Forall (fun k => in_unit (snd k)) knots ->
  in_unit (interp_from x x0 y0 knots).
Proof.
  induction knots as [| [x1 y1] later IH]; intros x0 y0 Hx Hy0 Hall; simpl.
  - exact Hy0.
  - inversion Hall as [| k l Hy1 Hlater]; subst. simpl in Hy1.
    destruct (Qlt_bool x x1) eqn:E.
    + apply Qlt_bool_iff in E.
      assert (Hd : 0 < x1 - x0) by lra.
      set (q := (y1 - y0) / (x1 - x0)).
      assert (Hq : q * (x1 - x0) == y1 - y0).
      { unfold q. field. lra. }
      destruct Hy0 as [Hlo0 Hhi0], Hy1 as [Hlo1 Hhi1].
      unfold in_unit.
      destruct (Qlt_le_dec q 0) as [Hneg | Hpos].
      * assert (q * (x1 - x0) <= q * (x - x0)) by nra.
        assert (q * (x - x0) <= 0) by nra. lra.
      * assert (q * (x - x0) <= q * (x1 - x0)) by nra.
        assert (0 <= q * (x - x0)) by nra. lra.
    + apply Qlt_bool_false in E. now apply IH.
Qed.

Lemma combine_in_unit (xp fp : list Q) :
  Forall in_unit fp -> Forall (fun k => in_unit (snd k)) (combine xp fp).
Proof.
  intros Hall. revert xp. induction Hall as [| y fp Hy _ IH]; intros [| x xp];
    simpl; constructor; auto.
Qed.

Lemma interp_in_unit (x : Q) (xp fp : list Q) :
  Forall in_unit fp -> in_unit (interp x xp fp).
Proof.
  intros Hall. unfold interp.
  pose proof (combine_in_unit xp fp Hall) as Hk.
  destruct (combine xp fp) as [| [x0 y0] later].
  - unfold in_unit. lra.
  - inversion Hk as [| k l Hy0 Hlater]; subst. simpl in Hy0.
    destruct (Qlt_bool x x0) eqn:E; [exact Hy0 |].
    apply Qlt_bool_false in E. now apply interp_from_in_unit.
Qed.

Lemma linspace_length (n : nat) : length (linspace n) = n.
Proof. unfold linspace. now rewrite length_map, length_seq. Qed.

(** *** The resampler *)

Lemma resample_in_unit (waveform out : list Q) (orig_sr target_sr : Z) :
  Forall in_unit waveform ->
  _linear_resample_mono_float32 waveform orig_sr target_sr = Some out ->
  Forall in_unit out.
Proof.
  intros Hall. unfold _linear_resample_mono_float32.
  destruct (orig_sr =? target_sr)%Z; [intros H; now injection H as <- |].
  destruct (Nat.eqb (length waveform) 0); [intros H; now injection H as <- |].
  destruct (orig_sr =? 0)%Z; [discriminate |].
  intros H. injection H as <-.
  apply Forall_map, Forall_forall. intros x _. now apply interp_in_unit.
Qed.

Lemma resample_length (waveform : list Q) (orig_sr target_sr : Z) :
  (0 < orig_sr)%Z ->
  exists out,
    _linear_resample_mono_float32 waveform orig_sr target_sr = Some out
    /\ Z.of_nat (length out)
       = if (orig_sr =? target_sr)%Z then Z.of_nat (length waveform)
         else if Nat.eqb (length waveform) 0 then 0%Z
         else target_length (Z.of_nat (length waveform)) orig_sr target_sr.
Proof.
  intros Hsr. unfold _linear_resample_mono_float32.
  destruct (orig_sr =? target_sr)%Z; [eauto |].
  destruct (Nat.eqb_spec (length waveform) 0) as [E | E].
  - exists waveform. split; [reflexivity |]. rewrite E. reflexivity.
  - destruct (Z.eqb_spec orig_sr 0); [lia |].
    eexists. split; [reflexivity |].
    rewrite length_map, linspace_length. unfold target_length.
    rewrite Z2Nat.id; [reflexivity | lia].
Qed.

(** *** From the frames to the mono signal *)

Lemma frombuffer_int_length (width : nat) (raw : list Byte.byte) (count : Z) :
  (0 < width)%nat -> (0 <= count)%Z ->
  Z.of_nat (length raw) = (count * Z.of_nat width)%Z ->
  exists ints, frombuffer_int width raw = Some ints
               /\ Z.of_nat (length ints) = count.
Proof.
  intros Hw Hc Hlen. unfold frombuffer_int.
  rewrite (reshape_exact width (Z.to_nat count)) by lia.
  eexists. split; [reflexivity |].
  rewrite length_map, rows_length. lia.
Qed.

Lemma mean_channels_mono (n_channels n_frames : Z) (pcm : list Q) :
  (1 <= n_channels)%Z -> (0 <= n_frames)%Z ->
  Z.of_nat (length pcm) = (n_frames * n_channels)%Z ->
  exists mono, mean_channels n_channels pcm = Some mono
               /\ Z.of_nat (length mono) = n_frames
               /\ (Forall in_unit pcm -> Forall in_unit mono).
Proof.
  intros Hc Hn Hlen. unfold mean_channels.
  destruct (Z.ltb_spec 1 n_channels) as [Hmany | Hone].
  - assert (Hl : length pcm = (Z.to_nat n_frames * Z.to_nat n_channels)%nat) by lia.
    rewrite (reshape_exact _ (Z.to_nat n_frames)) by lia.
    eexists. split; [reflexivity |]. split.
    + rewrite length_map, rows_length. lia.
    + intros Hall. apply Forall_map.
      pose proof (rows_Forall in_unit (Z.to_nat n_channels) (Z.to_nat n_frames)
                    pcm Hall) as Hrows.
      pose proof (rows_width (Z.to_nat n_channels) (Z.to_nat n_frames) pcm Hl)
        as Hwidth.
      rewrite Forall_forall in Hrows, Hwidth. apply Forall_forall.
      intros row Hin. apply mean_in_unit; [| now apply Hrows].
      specialize (Hwidth row Hin). intros ->. simpl in Hwidth. lia.
  - assert (n_channels = 1%Z) by lia. subst n_channels.
    exists pcm. split; [reflexivity |]. split; [lia | trivial].
Qed.

(** *** Rows and windows by index *)

Lemma rows_nth {A} (w count : nat) : forall (l : list A) (i : nat),
  (i < count)%nat -> nth i (rows w count l) [] = firstn w (skipn (i * w) l).
Proof.
  induction count as [| c IH]; intros l i Hi; [lia |].
  destruct i as [| i]; [reflexivity |].
  cbn [rows nth]. rewrite IH by lia. rewrite drop_drop. reflexivity.
Qed.

Lemma window_nth {A} (d : A) (c : nat) : forall (l : list A) (s : nat),
  (s + c <= length l)%nat ->
  firstn c (skipn s l) = map (fun j => nth (s + j)%nat l d) (seq 0 c).
Proof.
  induction c as [| c IH]; intros l s Hs; [reflexivity |].
  assert (Hd : skipn s l = nth s l d :: skipn (S s) l).
  { clear IH. revert s Hs. induction l as [| x l IHl]; intros s Hs; [simpl in Hs; lia |].
    destruct s as [| s]; [reflexivity |].
    cbn [skipn nth]. apply IHl. simpl in Hs. lia. }
  rewrite Hd. cbn [firstn seq map]. rewrite Nat.add_0_r. f_equal.
  rewrite IH by lia. rewrite <- seq_shift, map_map.
  apply map_ext. intros j. f_equal. lia.
Qed.

Lemma nth_map_in {A B} (f : A -> B) (l : list A) (i : nat) (d : A) (e : B) :
  (i < length l)%nat -> nth i (map f l) e = f (nth i l d).
Proof.
  intros Hi. rewrite (nth_indep _ e (f d)) by now rewrite length_map.
  apply map_nth.
Qed.

(** *** Sums and averages *)

Lemma total_ext {A} (f g : A -> Q) (l : list A) :
  (forall c, In c l -> f c == g c) -> total (map f l) == total (map g l).
Proof.
  unfold total. induction l as [| c l IH]; intros H; simpl; [reflexivity |].
  rewrite (H c) by now left. rewrite IH; [reflexivity |].
  intros c' Hc'. apply H. now right.
Qed.

Lemma total_affine {A} (f : A -> Q) (a s : Q) (l : list A) :
  ~ s == 0 ->
  total (map (fun c => (f c - a) / s) l)
  == (total (map f l) - inject_Z (Z.of_nat (length l)) * a) / s.
Proof.
  intros Hs. unfold total. induction l as [| c l IH].
  - simpl. change (inject_Z (Z.of_nat 0)) with 0. field. exact Hs.
  - cbn [map fold_right length]. rewrite IH.
    rewrite Nat2Z.inj_succ, <- Z.add_1_r, inject_Z_plus.
    change (inject_Z 1) with 1. field. exact Hs.
Qed.

Lemma average_affine {A} (f : A -> Q) (a s : Q) (l : list A) :
  ~ s == 0 -> l <> [] ->
  total (map (fun c => (f c - a) / s) l) / inject_Z (Z.of_nat (length l))
  == (total (map f l) / inject_Z (Z.of_nat (length l)) - a) / s.
Proof.
  intros Hs Hl. rewrite total_affine by exact Hs.
  assert (Hn : ~ inject_Z (Z.of_nat (length l)) == 0).
  { change 0 with (inject_Z 0). rewrite inject_Z_injective.
    destruct l; [congruence | simpl; lia]. }
  field. split; assumption.
Qed.

Lemma clip_spec (x y : Q) : x == y -> clip x == Qmax (-1) (Qmin 1 y).
Proof.
  intros E. unfold clip.
  destruct (Qlt_bool x (-1)) eqn:E1.
  { apply Qlt_bool_iff in E1. rewrite Q.min_r by lra. rewrite Q.max_l by lra.
    reflexivity. }
  apply Qlt_bool_false in E1.
  destruct (Qlt_bool 1 x) eqn:E2.
  { apply Qlt_bool_iff in E2. rewrite Q.min_l by lra. rewrite Q.max_r by lra.
    reflexivity. }
  apply Qlt_bool_false in E2.
  rewrite Q.min_r by lra. rewrite Q.max_r by lra. exact E.
Qed.

Lemma clamp_in_unit (x : Q) : in_unit (Qmax (-1) (Qmin 1 x)).
Proof.
  unfold in_unit. split; [apply Q.le_max_l |].
  apply Q.max_lub; [lra | apply Q.le_min_l].
Qed.

Lemma clamp_id (x : Q) : in_unit x -> Qmax (-1) (Qmin 1 x) == x.
Proof.
  intros [Hlo Hhi]. rewrite Q.min_r by exact Hhi. now rewrite Q.max_r.
Qed.

(** *** Every mono sample is the average of its frame *)

Lemma mean_channels_avg (n_channels : Z) (n_frames : nat) (pcm mono : list Q) :
  (1 <= n_channels)%Z ->
  length pcm = (n_frames * Z.to_nat n_channels)%nat ->
  mean_channels n_channels pcm = Some mono ->
  forall i, (i < n_frames)%nat ->
    nth i mono 0
    == total (map (fun c => nth (i * Z.to_nat n_channels + c)%nat pcm 0)
                (seq 0 (Z.to_nat n_channels)))
       / inject_Z (Z.of_nat (Z.to_nat n_channels)).
Proof.
  intros Hc Hlen. unfold mean_channels.
  destruct (Z.ltb_spec 1 n_channels) as [Hmany | Hone].
  - rewrite (reshape_exact _ n_frames) by lia.
    intros H i Hi. injection H as <-.
    rewrite (nth_map_in mean _ i []) by now rewrite rows_length.
    rewrite rows_nth by exact Hi.
    rewrite (window_nth 0) by nia.
    unfold mean. rewrite length_map, length_seq. reflexivity.
  - assert (n_channels = 1%Z) by lia. subst n_channels.
    intros H i Hi. injection H as <-.
    change (Z.to_nat 1) with 1%nat. cbn [seq map]. unfold total. cbn [fold_right].
    rewrite Nat.mul_1_r, Nat.add_0_r.
    change (inject_Z (Z.of_nat 1)) with 1. field.
Qed.

Lemma clipped_average (wf : WaveFile) (norm : Q -> Q) (a s : Q)
    (ints : list Z) (pcm : list Q) :
  well_formed wf -> ~ s == 0 ->
  (forall x, norm x == (x - a) / s) ->
  Z.of_nat (length ints) = (getnframes wf * getnchannels wf)%Z ->
  mean_channels (getnchannels wf) (map inject_Z ints) = Some pcm ->
  (forall i c, (i < Z.to_nat (getnframes wf))%nat ->
               (c < Z.to_nat (getnchannels wf))%nat ->
     norm (inject_Z (nth (i * Z.to_nat (getnchannels wf) + c)%nat ints 0%Z))
     == sample_level wf i c) ->
  forall i, (i < Z.to_nat (getnframes wf))%nat -> (i < length pcm)%nat ->
    nth i (map clip (map norm pcm)) 0 == frame_level wf i.
Proof.
  intros Hwf Hs Hnorm Hlen Hmean Hlevel i Hi Hip.
  pose proof (wf_channels wf Hwf) as Hc. pose proof (wf_frames wf Hwf) as Hn.
  pose proof (mean_channels_avg (getnchannels wf) (Z.to_nat (getnframes wf))
                (map inject_Z ints) pcm Hc
                ltac:(rewrite length_map; lia) Hmean i Hi) as Havg.
  rewrite (nth_map_in clip _ i 0) by now rewrite length_map.
  rewrite (nth_map_in norm _ i 0) by exact Hip.
  unfold frame_level. apply clip_spec.
  set (g := fun c => inject_Z (nth (i * Z.to_nat (getnchannels wf) + c)%nat ints 0%Z)).
  assert (Hint : forall c,
            nth (i * Z.to_nat (getnchannels wf) + c)%nat (map inject_Z ints) 0 = g c).
  { intros c. apply (map_nth inject_Z ints 0%Z). }
  rewrite (map_ext _ _ Hint) in Havg.
  assert (Hseq : seq 0 (Z.to_nat (getnchannels wf)) <> []).
  { intros E. apply (f_equal (@length nat)) in E. rewrite length_seq in E.
    simpl in E. lia. }
  pose proof (average_affine g a s _ Hs Hseq) as Ha. rewrite length_seq in Ha.
  assert (E1 : total (map (sample_level wf i) (seq 0 (Z.to_nat (getnchannels wf))))
               == total (map (fun c => (g c - a) / s)
                           (seq 0 (Z.to_nat (getnchannels wf))))).
  { apply total_ext. intros c Hin. apply in_seq in Hin.
    rewrite <- Hlevel by lia. apply Hnorm. }
  rewrite E1, Ha, Hnorm, Havg. reflexivity.
Qed.

Lemma decode_pcm_frames (wf : WaveFile) (ints : list Z) (scale : Q) (target_sr : Z) :
  well_formed wf ->
  ~ scale == 0 ->
  Z.of_nat (length ints) = (getnframes wf * getnchannels wf)%Z ->
  (forall i c, (i < Z.to_nat (getnframes wf))%nat ->
               (c < Z.to_nat (getnchannels wf))%nat ->
     let v := inject_Z (nth (i * Z.to_nat (getnchannels wf) + c)%nat ints 0%Z) in
     (if (getsampwidth wf =? 1)%Z then (v - 128.0) / 128.0 else v / scale)
     == sample_level wf i c) ->
  exists mono,
    Z.of_nat (length mono) = getnframes wf
    /\ (forall i, (i < length mono)%nat -> nth i mono 0 == frame_level wf i)
    /\ decode_pcm wf (Some ints) scale target_sr
       = _linear_resample_mono_float32 mono (getframerate wf) target_sr.
Proof.
  intros Hwf Hscale Hlen Hlevel.
  pose proof (wf_channels wf Hwf) as Hc. pose proof (wf_frames wf Hwf) as Hn.
  unfold decode_pcm. simpl.
  destruct (mean_channels_mono (getnchannels wf) (getnframes wf)
              (map inject_Z ints)) as (pcm & Hmean & Hpcm & _);
    [exact Hc | exact Hn | now rewrite length_map |].
  rewrite Hmean. simpl.
  eexists. split; [| split; [| reflexivity]].
  - destruct (getsampwidth wf =? 1)%Z; now rewrite !length_map.
  - intros i Hi.
    destruct (getsampwidth wf =? 1)%Z; rewrite !length_map in Hi.
    + apply (clipped_average wf _ 128 128 ints pcm); try assumption; try lia.
      * discriminate.
      * intros x. field.
    + apply (clipped_average wf _ 0 scale ints pcm); try assumption; try lia.
      intros x. field. exact Hscale.
Qed.

Lemma frombuffer_int_level (wf : WaveFile) (width : nat) (scale : Q) :
  well_formed wf ->
  getsampwidth wf = Z.of_nat width -> (1 < width)%nat ->
  scale == inject_Z (2 ^ (8 * Z.of_nat width - 1)) ->
  exists ints,
    frombuffer_int width (readframes wf) = Some ints
    /\ Z.of_nat (length ints) = (getnframes wf * getnchannels wf)%Z
    /\ forall i c, (i < Z.to_nat (getnframes wf))%nat ->
                   (c < Z.to_nat (getnchannels wf))%nat ->
         let v := inject_Z (nth (i * Z.to_nat (getnchannels wf) + c)%nat ints 0%Z) in
         (if (getsampwidth wf =? 1)%Z then (v - 128.0) / 128.0 else v / scale)
         == sample_level wf i c.
Proof.
  intros Hwf Hw H1 Hscale.
  pose proof (wf_size wf Hwf) as Hsize.
  pose proof (wf_frames wf Hwf) as Hn. pose proof (wf_channels wf Hwf) as Hc.
  unfold frombuffer_int.
  rewrite (reshape_exact width (Z.to_nat (getnframes wf * getnchannels wf)))
    by nia.
  eexists. split; [reflexivity |]. split.
  { rewrite length_map, rows_length. lia. }
  intros i c Hi Hci. cbv zeta.
  assert (Hidx : (i * Z.to_nat (getnchannels wf) + c
                  < Z.to_nat (getnframes wf * getnchannels wf))%nat) by nia.
  rewrite (nth_map_in _ _ _ []) by now rewrite rows_length.
  rewrite rows_nth by exact Hidx.
  unfold sample_level, sample_bytes.
  destruct (Z.eqb_spec (getsampwidth wf) 1) as [E | _]; [lia |].
  rewrite Hw, Nat2Z.id, Hscale. reflexivity.
Qed.

Lemma frombuffer_uint8_level (wf : WaveFile) (scale : Q) :
  well_formed wf -> getsampwidth wf = 1%Z ->
  forall i c, (i < Z.to_nat (getnframes wf))%nat ->
              (c < Z.to_nat (getnchannels wf))%nat ->
    let v := inject_Z (nth (i * Z.to_nat (getnchannels wf) + c)%nat
                         (map byte_val (readframes wf)) 0%Z) in
    (if (getsampwidth wf =? 1)%Z then (v - 128.0) / 128.0 else v / scale)
    == sample_level wf i c.
Proof.
  intros Hwf Hw i c Hi Hci v. subst v.
  pose proof (wf_size wf Hwf) as Hsize.
  pose proof (wf_frames wf Hwf) as Hn. pose proof (wf_channels wf Hwf) as Hc.
  assert (Hidx : (i * Z.to_nat (getnchannels wf) + c < length (readframes wf))%nat)
    by nia.
  rewrite (nth_map_in _ _ _ Byte.x00) by exact Hidx.
  unfold sample_level, sample_bytes. rewrite Hw.
  change (Z.to_nat 1) with 1%nat. cbn [Z.eqb Pos.eqb].
  rewrite (window_nth Byte.x00) by lia.
  cbn [seq map]. unfold le_unsigned. cbn [fold_right].
  rewrite Nat.mul_1_r, Nat.add_0_r, Z.mul_0_r, Z.add_0_r.
  field.
Qed.

Lemma sign_extend_24_level (wf : WaveFile) :
  well_formed wf -> getsampwidth wf = 3%Z ->
  forall i c, (i < Z.to_nat (getnframes wf))%nat ->
              (c < Z.to_nat (getnchannels wf))%nat ->
    nth (i * Z.to_nat (getnchannels wf) + c)%nat
        (map (fun row => inject_Z (sign_extend_24 row) / inject_Z (2 ^ 23))
           (rows 3 (Z.to_nat (getnframes wf * getnchannels wf)) (readframes wf))) 0
    = sample_level wf i c.
Proof.
  intros Hwf Hw i c Hi Hci.
  pose proof (wf_size wf Hwf) as Hsize.
  pose proof (wf_frames wf Hwf) as Hn. pose proof (wf_channels wf Hwf) as Hc.
  assert (Hidx : (i * Z.to_nat (getnchannels wf) + c
                  < Z.to_nat (getnframes wf * getnchannels wf))%nat) by nia.
  rewrite (nth_map_in _ _ _ []) by now rewrite rows_length.
  rewrite rows_nth by exact Hidx.
  unfold sample_level, sample_bytes. rewrite Hw.
  change (Z.to_nat 3) with 3%nat. cbn [Z.eqb Pos.eqb].
  change (8 * 3)%Z with 24%Z. change (24 - 1)%Z with 23%Z.
  set (row := firstn 3 _).
  assert (Hrow : length row = 3%nat).
  { subst row. rewrite length_take, length_drop. nia. }
  destruct row as [| a0 [| a1 [| a2 [| ? ?]]]]; try discriminate Hrow.
  now rewrite sign_extend_24_twos_complement.
Qed.

Lemma decode_wave_frames (wf : WaveFile) (target_sr : Z) :
  well_formed wf ->
  exists mono,
    Z.of_nat (length mono) = getnframes wf
    /\ (forall i, (i < length mono)%nat -> nth i mono 0 == frame_level wf i)
    /\ decode_wave wf target_sr
       = _linear_resample_mono_float32 mono (getframerate wf) target_sr.
Proof.
  intros Hwf. pose proof (wf_width wf Hwf) as Hw.
  pose proof (wf_size wf Hwf) as Hsize.
  pose proof (wf_frames wf Hwf) as Hn. pose proof (wf_channels wf Hwf) as Hc.
  unfold decode_wave.
  destruct (Z.eqb_spec (getsampwidth wf) 2) as [E2 | N2].
  { destruct (frombuffer_int_level wf 2 32768.0 Hwf E2) as (ints & -> & Hl & Hlev);
      [lia | reflexivity |].
    apply decode_pcm_frames; try assumption. discriminate. }
  destruct (Z.eqb_spec (getsampwidth wf) 1) as [E1 | N1].
  { unfold frombuffer_uint8. apply decode_pcm_frames; try assumption.
    - discriminate.
    - rewrite length_map. lia.
    - now apply frombuffer_uint8_level. }
  destruct (Z.eqb_spec (getsampwidth wf) 3) as [E3 | N3].
  { rewrite (reshape_exact 3 (Z.to_nat (getnframes wf * getnchannels wf)))
      by lia.
    simpl.
    set (pcm := map _ _).
    assert (Hpl : Z.of_nat (length pcm) = (getnframes wf * getnchannels wf)%Z).
    { subst pcm. rewrite length_map, rows_length. lia. }
    destruct (mean_channels_mono (getnchannels wf) (getnframes wf) pcm)
      as (mono & Hmean & Hlen & Hrange); try lia.
    rewrite Hmean. simpl. exists mono. split; [exact Hlen |].
    split; [| reflexivity]. intros i Hi.
    pose proof (mean_channels_avg (getnchannels wf) (Z.to_nat (getnframes wf))
                  pcm mono Hc ltac:(lia) Hmean i ltac:(lia)) as Havg.
    assert (Hunit : in_unit (nth i mono 0)).
    { assert (Hall : Forall in_unit mono).
      { apply Hrange. subst pcm. apply Forall_map, Forall_forall. intros row _.
        pose proof (sign_extend_24_range row) as [Hlo Hhi].
        assert (Hlo' : inject_Z (- 2 ^ 23) <= inject_Z (sign_extend_24 row))
          by now rewrite <- Zle_Qle.
        assert (Hhi' : inject_Z (sign_extend_24 row) <= inject_Z (2 ^ 23))
          by (rewrite <- Zle_Qle; lia).
        change (inject_Z (- 2 ^ 23)) with (-8388608) in Hlo'.
        change (inject_Z (2 ^ 23)) with 8388608 in *.
        unfold in_unit. split.
        + apply Qle_shift_div_l; [reflexivity | lra].
        + apply Qle_shift_div_r; [reflexivity | lra]. }
      apply (proj1 (List.Forall_forall _ _) Hall), nth_In. exact Hi. }
    unfold frame_level.
    rewrite <- (total_ext (fun c => nth (i * Z.to_nat (getnchannels wf) + c)%nat pcm 0)).
    2:{ intros c Hin. apply in_seq in Hin. subst pcm.
        rewrite sign_extend_24_level by (assumption || lia). reflexivity. }
    rewrite <- Havg. symmetry. now apply clamp_id. }
  destruct (Z.eqb_spec (getsampwidth wf) 4) as [E4 | N4]; [| lia].
  destruct (frombuffer_int_level wf 4 2147483648.0 Hwf E4) as (ints & -> & Hl & Hlev);
    [lia | reflexivity |].
  apply decode_pcm_frames; try assumption. discriminate.
Qed.

(** *** The resampler draws straight lines between neighbours *)

Lemma Qfloor_between (p : Q) (k : Z) :
  inject_Z k <= p -> p < inject_Z k + 1 -> Qfloor p = k.
Proof.
  intros Hlo Hhi.
  pose proof (Qfloor_le p) as H1. pose proof (Qlt_floor p) as H2.
  assert (Ha : inject_Z (Qfloor p) < inject_Z (k + 1)).
  { rewrite inject_Z_plus. change (inject_Z 1) with 1. lra. }
  assert (Hb : inject_Z k < inject_Z (Qfloor p + 1)) by lra.
  rewrite <- Zlt_Qlt in Ha, Hb. lia.
Qed.

Lemma on_line_comp (mono : list Q) (x y : Q) :
  x == y -> on_line mono x == on_line mono y.
Proof.
  intros E. unfold on_line.
  assert (Ef : Qfloor (x * inject_Z (Z.of_nat (length mono)))
               = Qfloor (y * inject_Z (Z.of_nat (length mono))))
    by (apply Qfloor_comp; now rewrite E).
  rewrite Ef.
  destruct (S _ <? length mono)%nat; [| reflexivity].
  now rewrite E.
Qed.

Lemma interp_from_grid (mono : list Q) (x : Q) :
  let n := length mono in
  let g := fun i : nat => inject_Z (Z.of_nat i) * (1 / inject_Z (Z.of_nat n)) in
  x < 1 ->
  forall r k, (S k + r = n)%nat -> g k <= x ->
    interp_from x (g k) (nth k mono 0)
      (combine (map g (seq (S k) r)) (skipn (S k) mono))
    == on_line mono x.
Proof.
  intros n g Hx1 r.
  assert (Hgn : forall k, (k < n)%nat -> g k * inject_Z (Z.of_nat n) == inject_Z (Z.of_nat k)).
  { intros k Hk. unfold g. field. change 0 with (inject_Z 0).
    rewrite inject_Z_injective. lia. }
  assert (Hpos : forall k, (k < n)%nat -> 0 < inject_Z (Z.of_nat n)).
  { intros k Hk. change 0 with (inject_Z 0). rewrite <- Zlt_Qlt. lia. }
  induction r as [| r IH]; intros k Hk Hgk.
  - cbn [seq map combine interp_from]. unfold on_line. fold n.
    assert (Hf : Qfloor (x * inject_Z (Z.of_nat n)) = Z.of_nat k).
    { specialize (Hgn k ltac:(lia)). specialize (Hpos k ltac:(lia)).
      apply Qfloor_between.
      - rewrite <- Hgn. apply Qmult_le_compat_r; [exact Hgk | lra].
      - assert (E : inject_Z (Z.of_nat k) + 1 == inject_Z (Z.of_nat n)).
        { rewrite <- Hk, Nat.add_0_r, Nat2Z.inj_succ, <- Z.add_1_r, inject_Z_plus.
          reflexivity. }
        rewrite E.
        assert (H : x * inject_Z (Z.of_nat n) < 1 * inject_Z (Z.of_nat n))
          by (apply Qmult_lt_compat_r; assumption).
        lra. }
    rewrite Hf, Nat2Z.id.
    destruct (Nat.ltb_spec (S k) n) as [Hlt | _]; [lia | reflexivity].
  - assert (Hd : skipn (S k) mono = nth (S k) mono 0 :: skipn (S (S k)) mono).
    { assert (Hw := window_nth 0 1 mono (S k) ltac:(fold n; lia)).
      cbn [seq map] in Hw. rewrite Nat.add_0_r in Hw.
      rewrite <- (firstn_skipn 1 (skipn (S k) mono)) at 1.
      rewrite Hw, drop_drop. cbn [app]. do 2 f_equal. lia. }
    rewrite Hd. cbn [seq map combine interp_from].
    destruct (Qlt_bool x (g (S k))) eqn:E.
    + apply Qlt_bool_iff in E. unfold on_line. fold n.
      pose proof (Hgn k ltac:(lia)) as Hk0. pose proof (Hgn (S k) ltac:(lia)) as Hk1.
      pose proof (Hpos k ltac:(lia)) as Hn0.
      rewrite Nat2Z.inj_succ, <- Z.add_1_r, inject_Z_plus in Hk1.
      change (inject_Z 1) with 1 in Hk1.
      assert (Hf : Qfloor (x * inject_Z (Z.of_nat n)) = Z.of_nat k).
      { apply Qfloor_between.
        - rewrite <- Hk0. apply Qmult_le_compat_r; [exact Hgk | lra].
        - rewrite <- Hk1. apply Qmult_lt_compat_r; assumption. }
      rewrite Hf, Nat2Z.id.
      destruct (Nat.ltb_spec (S k) n) as [_ | Hge]; [| lia].
      unfold g. rewrite Nat2Z.inj_succ, <- Z.add_1_r, inject_Z_plus.
      change (inject_Z 1) with 1. field. lra.
    + apply Qlt_bool_false in E. apply IH; [lia | exact E].
Qed.

Lemma interp_grid (mono : list Q) (x : Q) :
  mono <> [] -> 0 <= x -> x < 1 ->
  interp x (linspace (length mono)) mono == on_line mono x.
Proof.
  intros Hne Hx0 Hx1. unfold interp, linspace.
  destruct mono as [| y0 ys]; [congruence |].
  pose proof (interp_from_grid (y0 :: ys) x Hx1 (length ys) 0 eq_refl) as H.
  cbn [length seq map combine]. cbn [length nth skipn] in H.
  assert (E0 : inject_Z (Z.of_nat 0) * (1 / inject_Z (Z.of_nat (S (length ys)))) == 0).
  { change (inject_Z (Z.of_nat 0)) with 0. apply Qmult_0_l. }
  destruct (Qlt_bool x _) eqn:E.
  { apply Qlt_bool_iff in E. lra. }
  apply H. lra.
Qed.

Lemma resample_on_line (mono out : list Q) (orig_sr target_sr : Z) :
  orig_sr <> target_sr ->
  _linear_resample_mono_float32 mono orig_sr target_sr = Some out ->
  forall j, (j < length out)%nat ->
    nth j out 0
    == on_line mono (inject_Z (Z.of_nat j) / inject_Z (Z.of_nat (length out))).
Proof.
  intros Hsr. unfold _linear_resample_mono_float32.
  destruct (Z.eqb_spec orig_sr target_sr) as [| _]; [contradiction |].
  destruct (Nat.eqb_spec (length mono) 0) as [E0 | E0].
  { intros H j Hj. injection H as <-. lia. }
  destruct (orig_sr =? 0)%Z; [discriminate |].
  intros H j Hj. injection H as <-.
  rewrite length_map, linspace_length in *.
  set (m := Z.to_nat _) in *.
  rewrite (nth_map_in _ _ _ 0) by now rewrite linspace_length.
  unfold linspace at 1.
  rewrite (nth_map_in _ _ _ 0%nat) by now rewrite length_seq.
  rewrite seq_nth by exact Hj. cbn [Nat.add].
  assert (Hm : 0 < inject_Z (Z.of_nat m)).
  { change 0 with (inject_Z 0). rewrite <- Zlt_Qlt. lia. }
  assert (Hj0 : 0 <= inject_Z (Z.of_nat j)).
  { change 0 with (inject_Z 0). rewrite <- Zle_Qle. lia. }
  assert (Hjm : inject_Z (Z.of_nat j) < inject_Z (Z.of_nat m)).
  { rewrite <- Zlt_Qlt. lia. }
  assert (Ex : inject_Z (Z.of_nat j) * (1 / inject_Z (Z.of_nat m))
               == inject_Z (Z.of_nat j) / inject_Z (Z.of_nat m)).
  { field. lra. }
  rewrite interp_grid.
  - now apply on_line_comp.
  - intros ->. now apply E0.
  - rewrite Ex. apply Qle_shift_div_l; [exact Hm | lra].
  - rewrite Ex. apply Qlt_shift_div_r; [exact Hm | lra].
Qed.

Lemma py_round_zero (x : Q) : x == 0 -> py_round x = 0%Z.
Proof.
  intros Hx. assert (Hf : Qfloor x = 0%Z) by (now rewrite Hx).
  unfold py_round. rewrite Hf.
  assert (Hlt : Qlt_bool (x - inject_Z 0) (1 # 2) = true).
  { apply Qlt_bool_iff. change (inject_Z 0) with 0. lra. }
  rewrite Hlt. reflexivity.
Qed.

(** [round] is within a half of its argument, so two roundings of the same
    number, whatever they do with ties, differ by at most one. *)
Lemma py_round_near (x : Q) :
  - (1 # 2) <= inject_Z (py_round x) - x /\ inject_Z (py_round x) - x <= 1 # 2.
Proof.
  unfold py_round.
  pose proof (Qfloor_le x) as Hlo. pose proof (Qlt_floor x) as Hhi.
  rewrite inject_Z_plus in Hhi. change (inject_Z 1) with 1 in Hhi.
  destruct (Qlt_bool (x - inject_Z (Qfloor x)) (1 # 2)) eqn:E1.
  { apply Qlt_bool_iff in E1. lra. }
  apply Qlt_bool_false in E1.
  destruct (Qlt_bool (1 # 2) (x - inject_Z (Qfloor x))) eqn:E2.
  { apply Qlt_bool_iff in E2. rewrite inject_Z_plus.
    change (inject_Z 1) with 1. lra. }
  apply Qlt_bool_false in E2.
  destruct (Z.even (Qfloor x)); [lra |].
  rewrite inject_Z_plus. change (inject_Z 1) with 1. lra.
Qed.

Lemma roundings_agree (a b : Z) (x : Q) :
  rounds_to a x -> rounds_to b x -> (Z.abs (a - b) <= 1)%Z.
Proof.
  intros [Ha1 Ha2] [Hb1 Hb2].
  assert (H1 : inject_Z a <= inject_Z (b + 1)).
  { rewrite inject_Z_plus. change (inject_Z 1) with 1. lra. }
  assert (H2 : inject_Z b <= inject_Z (a + 1)).
  { rewrite inject_Z_plus. change (inject_Z 1) with 1. lra. }
  rewrite <- Zle_Qle in H1, H2. lia.
Qed.

End DecodeFacts.

(** C8: for every well-formed PCM WAV payload of 1 to 4 bytes per sample, any
    number of channels, frame rate F and N frames, the in-memory decode
    succeeds with a mono signal all of whose samples lie in [-1, 1]; its
    length is N when F = 16000, it is max(1, round(N x 16000 / F)) when
    F <> 16000 and N > 0, and in every case with F <> 16000 it is within one
    sample of max(1, r) for any rounding r of N x 16000 / F.  The samples
    are those of the payload: frame by frame, the levels of the channels
    averaged and the average clipped to [-1, 1] give a signal of N samples;
    the result is that signal when F = 16000, and otherwise its sample j
    lies on the straight line between the two neighbours of position
    j / length in that signal. *)
Theorem decode_wav_unit_range_and_length
    (wave_open : list Byte.byte -> option AudioIO.WaveFile)
    (audio_bytes : list Byte.byte) (wf : AudioIO.WaveFile) :
  wave_open audio_bytes = Some wf ->
  well_formed wf ->
  let n := AudioIO.getnframes wf in
  let f := AudioIO.getframerate wf in
  exists samples,
    AudioIO._decode_wav_bytes_to_array wave_open audio_bytes 16000 = Some samples
    /\ Forall in_unit samples
    /\ (f = 16000%Z -> Z.of_nat (length samples) = n)
    /\ (f <> 16000%Z -> (0 < n)%Z ->
        Z.of_nat (length samples) = target_length n f 16000)
    /\ (f <> 16000%Z ->
        forall r, rounds_to r (inject_Z n * (inject_Z 16000 / inject_Z f)) ->
                  (Z.abs (Z.of_nat (length samples) - Z.max 1 r) <= 1)%Z)
    /\ exists mono,
         Z.of_nat (length mono) = n
         /\ (forall i, (i < length mono)%nat -> nth i mono 0 == frame_level wf i)
         /\ (f = 16000%Z -> samples = mono)
         /\ (f <> 16000%Z ->
             forall j, (j < length samples)%nat ->
               nth j samples 0
               == on_line mono (inject_Z (Z.of_nat j)
                                / inject_Z (Z.of_nat (length samples)))).
Proof.
  intros Hopen Hwf n f. subst n f.
  unfold AudioIO._decode_wav_bytes_to_array. rewrite Hopen. simpl.
  destruct (decode_wave_frames wf 16000 Hwf) as (mono & Hlen & Hframes & ->).
  assert (Hrange : Forall in_unit mono).
  { apply List.Forall_forall. intros y Hy.
    destruct (In_nth mono y 0 Hy) as (i & Hi & <-).
    unfold in_unit. rewrite (Hframes i Hi). apply clamp_in_unit. }
  destruct (resample_length mono (AudioIO.getframerate wf) 16000)
    as (out & Hout & Hl); [pose proof (wf_rate wf Hwf); lia |].
  exists out. split; [exact Hout |].
  split; [eapply resample_in_unit; eauto |].
  assert (Hsig : exists mono0,
             Z.of_nat (length mono0) = AudioIO.getnframes wf
             /\ (forall i, (i < length mono0)%nat ->
                   nth i mono0 0 == frame_level wf i)
             /\ (AudioIO.getframerate wf = 16000%Z -> out = mono0)
             /\ (AudioIO.getframerate wf <> 16000%Z ->
                 forall j, (j < length out)%nat ->
                   nth j out 0
                   == on_line mono0 (inject_Z (Z.of_nat j)
                                     / inject_Z (Z.of_nat (length out))))).
  { exists mono. split; [exact Hlen |]. split; [exact Hframes |]. split.
    - intros E. unfold AudioIO._linear_resample_mono_float32 in Hout.
      rewrite E in Hout. cbn in Hout. now injection Hout as <-.
    - intros E. now apply (resample_on_line mono out (AudioIO.getframerate wf) 16000). }
  destruct (Z.eqb_spec (AudioIO.getframerate wf) 16000) as [E | E].
  - split; [intros _; lia |]. split; [intros; contradiction |].
    split; [intros; contradiction | exact Hsig].
  - split; [intros; contradiction |].
    destruct (Nat.eqb_spec (length mono) 0) as [E0 | E0].
    + split; [intros _ Hpos; lia |]. split; [| exact Hsig]. intros _ r Hr.
      rewrite Hl. rewrite <- Hlen, E0 in Hr.
      assert (Hz : rounds_to 0 (inject_Z (Z.of_nat 0)
                                * (inject_Z 16000 / inject_Z (AudioIO.getframerate wf)))).
      { unfold rounds_to. change (inject_Z (Z.of_nat 0)) with 0.
        change (inject_Z 0) with 0. lra. }
      pose proof (roundings_agree r 0 _ Hr Hz) as Hnear.
      assert (Hr0 : r = 0%Z).
      { destruct Hr as [Hr1 Hr2]. change (inject_Z (Z.of_nat 0)) with 0 in Hr1, Hr2.
        assert (H1 : inject_Z r < inject_Z 1) by (change (inject_Z 1) with 1; lra).
        assert (H2 : inject_Z (-1) < inject_Z r) by (change (inject_Z (-1)) with (-1); lra).
        rewrite <- Zlt_Qlt in H1, H2. lia. }
      subst r. reflexivity.
    + rewrite Hlen in Hl. split; [intros _ _; exact Hl |].
      split; [| exact Hsig].
      intros _ r Hr. rewrite Hl. unfold target_length.
      pose proof (py_round_near (inject_Z (AudioIO.getnframes wf)
                                 * (inject_Z 16000 / inject_Z (AudioIO.getframerate wf))))
        as Hp.
      pose proof (roundings_agree _ r _ Hp Hr). lia.
Qed.

Lemma decode_wav_unit_range_and_length_witness :
  exists samples,
    AudioIO._decode_wav_bytes_to_array (fun _ => Some three_frames_8k) [] 16000
    = Some samples
    /\ Forall in_unit samples /\ length samples = 6%nat
    /\ nth 0 samples 0 == -1
    /\ nth 1 samples 0 == - (1 # 65536)
    /\ nth 2 samples 0 == 32767 # 32768.
Proof.
  assert (Hwf : well_formed three_frames_8k)
    by (constructor; simpl; lia).
  destruct (decode_wav_unit_range_and_length (fun _ => Some three_frames_8k) []
              three_frames_8k eq_refl Hwf)
    as (samples & Hdec & Hrange & _ & Hlen & _ & mono & Hmono & Hframes & _ & Hline).
  exists samples. split; [exact Hdec |]. split; [exact Hrange |].
  specialize (Hlen ltac:(simpl; lia) ltac:(simpl; lia)).
  assert (Ht : target_length 3 8000 16000 = 6%Z) by (vm_compute; reflexivity).
  change (Z.of_nat (length samples) = target_length 3 8000 16000) in Hlen.
  rewrite Ht in Hlen.
  assert (Hsix : length samples = 6%nat) by lia.
  assert (Hthree : length mono = 3%nat) by (simpl in Hmono; lia).
  specialize (Hline ltac:(simpl; lia)). rewrite Hsix in Hline.
  rewrite Hthree in Hframes.
  pose proof (Hframes 0%nat ltac:(lia)) as H0.
  pose proof (Hframes 1%nat ltac:(lia)) as H1.
  assert (F0 : frame_level three_frames_8k 0 == -1) by (vm_compute; reflexivity).
  assert (F1 : frame_level three_frames_8k 1 == 32767 # 32768)
    by (vm_compute; reflexivity).
  rewrite F0 in H0. rewrite F1 in H1.
  split; [exact Hsix |].
  split; [| split].
  - rewrite (Hline 0%nat ltac:(lia)). unfold on_line. rewrite Hthree.
    change (Z.to_nat (Qfloor (inject_Z (Z.of_nat 0) / inject_Z (Z.of_nat 6)
                              * inject_Z (Z.of_nat 3)))) with 0%nat.
    cbn [Nat.ltb Nat.leb]. rewrite H0, H1. vm_compute. reflexivity.
  - rewrite (Hline 1%nat ltac:(lia)). unfold on_line. rewrite Hthree.
    change (Z.to_nat (Qfloor (inject_Z (Z.of_nat 1) / inject_Z (Z.of_nat 6)
                              * inject_Z (Z.of_nat 3)))) with 0%nat.
    cbn [Nat.ltb Nat.leb]. rewrite H0, H1. vm_compute. reflexivity.
  - rewrite (Hline 2%nat ltac:(lia)). unfold on_line. rewrite Hthree.
    change (Z.to_nat (Qfloor (inject_Z (Z.of_nat 2) / inject_Z (Z.of_nat 6)
                              * inject_Z (Z.of_nat 3)))) with 1%nat.
    cbn [Nat.ltb Nat.leb].
    pose proof (Hframes 2%nat ltac:(lia)) as H2.
    assert (F2 : frame_level three_frames_8k 2 == 1 # 2) by (vm_compute; reflexivity).
    rewrite F2 in H2. rewrite H1, H2. vm_compute. reflexivity.
Defined.

(** * Further properties of the code *)

(** ** resources.py: estimates *)

Lemma py_max_mono_r (k x y : Q) : x <= y -> py_max k x <= py_max k y.
Proof.
  intros H. destruct (py_max_cases k x) as [[Hx ->] | [Hx ->]];
    destruct (py_max_cases k y) as [[Hy ->] | [Hy ->]]; lra.
Qed.

Lemma dict_get_between (k : string) (dflt lo hi : Q) (d : list (string * Q)) :
  lo <= dflt <= hi -> Forall (fun kv => lo <= kv.2 <= hi) d ->
  lo <= dict_get k dflt d <= hi.
Proof.
  intros Hd Hall. induction Hall as [| [k' v] rest Hv _ IH]; simpl.
  - exact Hd.
  - destruct (String.eqb k k'); [exact Hv | exact IH].
Qed.

Lemma tables_between :
  Forall (fun kv : string * Q => 0.7 <= kv.2 <= 12) Config.MODEL_RESIDENT_GB /\
  Forall (fun kv : string * Q => 0.6 <= kv.2 <= 2) Config.COMPUTE_MULTIPLIER /\
  Forall (fun kv : string * Q => 0.2 <= kv.2 <= 1) Config.TRANSIENT_PER_MIN_GB.
Proof.
  repeat split; repeat constructor; simpl; unfold Qle; simpl; lia.
Qed.

(** X1: whatever the model name and compute type (known or not), the resident
    estimate lies between 0.42 GB (tiny at int8) and 24 GB (large-v3 at
    float32), and the transient estimate between 0.1 GB and
    max(0.1, max(0.2, minutes) x max(1, beam / 5)) GB. *)
Theorem estimate_bounds (self : Resources.ResourceManager)
    (model_name compute_type : string) (audio_minutes : Q) (beam_size : Z) :
  let est := Resources.estimate self model_name compute_type audio_minutes beam_size in
  0.42 <= Resources.resident_gb est /\ Resources.resident_gb est <= 24
  /\ 0.1 <= Resources.transient_gb est
  /\ Resources.transient_gb est
     <= Qmax 0.1 (Qmax 0.2 audio_minutes * Qmax 1 (inject_Z beam_size / 5)).
Proof.
  intros est. subst est.
  destruct tables_between as (Hr & Hc & Ht).
  pose proof (dict_get_between model_name 2.0 0.7 12 _ ltac:(split; reflexivity || discriminate) Hr)
    as Hres.
  pose proof (dict_get_between compute_type 1.0 0.6 2 _ ltac:(split; reflexivity || discriminate) Hc)
    as Hmul.
  pose proof (dict_get_between model_name 0.3 0.2 1 _ ltac:(split; reflexivity || discriminate) Ht)
    as Htr.
  split; [| split; [| split]].
  - unfold Resources.estimate; cbn [Resources.resident_gb]. nra.
  - unfold Resources.estimate; cbn [Resources.resident_gb]. nra.
  - apply estimate_transient_floor.
  - rewrite estimate_transient_eq. unfold transient_formula.
    apply Q.max_le_compat_l.
    assert (H1 : 0.2 <= Qmax 0.2 audio_minutes) by apply Q.le_max_l.
    assert (H2 : 1 <= Qmax 1 (inject_Z beam_size / 5)) by apply Q.le_max_l.
    set (a := Qmax 0.2 audio_minutes) in *.
    set (b := Qmax 1 (inject_Z beam_size / 5)) in *.
    set (p := dict_get model_name 0.3 Config.TRANSIENT_PER_MIN_GB) in *.
    assert (Hab : 0 <= a * b) by nra.
    assert (Hp : p * (a * b) <= 1 * (a * b)) by nra.
    lra.
Qed.

(** X2: the estimate never shrinks when the audio gets longer or the beam
    wider: the resident part is unchanged and the transient part does not
    decrease. *)
Theorem estimate_monotone (self : Resources.ResourceManager)
    (model_name compute_type : string) (minutes minutes' : Q) (beam beam' : Z) :
  minutes <= minutes' -> (beam <= beam')%Z ->
  let est := Resources.estimate self model_name compute_type minutes beam in
  let est' := Resources.estimate self model_name compute_type minutes' beam' in
  Resources.resident_gb est' = Resources.resident_gb est
  /\ Resources.transient_gb est <= Resources.transient_gb est'.
Proof.
  intros Hm Hb est est'. subst est est'. split; [reflexivity |].
  unfold Resources.estimate; cbn [Resources.transient_gb].
  apply py_max_mono_r.
  destruct tables_between as (_ & _ & Ht).
  pose proof (dict_get_between model_name 0.3 0.2 1 _ ltac:(split; reflexivity || discriminate) Ht)
    as Htr.
  set (p := dict_get model_name 0.3 Config.TRANSIENT_PER_MIN_GB) in *.
  assert (Ha : py_max 0.2 minutes <= py_max 0.2 minutes') by now apply py_max_mono_r.
  assert (Ha0 : 0.2 <= py_max 0.2 minutes) by apply py_max_lub_l.
  assert (Hbeam : py_max 1.0 (inject_Z beam / inject_Z Config.DEFAULT_BEAM_BASELINE)
                  <= py_max 1.0 (inject_Z beam' / inject_Z Config.DEFAULT_BEAM_BASELINE)).
  { apply py_max_mono_r. change (inject_Z Config.DEFAULT_BEAM_BASELINE) with 5.
    assert (Hq : inject_Z beam <= inject_Z beam') by now rewrite <- Zle_Qle.
    unfold Qdiv. assert (H5 : 0 <= / 5) by (unfold Qle; simpl; lia).
    apply Qmult_le_compat_r; assumption. }
  assert (Hb0 : 1.0 <= py_max 1.0 (inject_Z beam / inject_Z Config.DEFAULT_BEAM_BASELINE))
    by apply py_max_lub_l.
  assert (E1 : 1.0 == 1) by reflexivity.
  set (a := py_max 0.2 minutes) in *. set (a' := py_max 0.2 minutes') in *.
  set (b := py_max 1.0 _) in *. set (b' := py_max 1.0 _) in Hbeam |- *.
  assert (H1 : p * a <= p * a') by nra.
  assert (H2 : 0 <= p * a) by nra.
  assert (H3 : p * a * b <= p * a * b') by nra.
  assert (H4 : p * a * b' <= p * a' * b') by nra.
  lra.
Qed.

Lemma estimate_monotone_witness :
  Resources.transient_gb (Resources.estimate Resources.default_manager "base" "int8" 1 5)
  <= Resources.transient_gb (Resources.estimate Resources.default_manager "base" "int8" 3 10).
Proof.
  apply (proj2 (estimate_monotone Resources.default_manager "base" "int8" 1 3 5 10
                  ltac:(discriminate) ltac:(lia))).
Defined.

(** ** resources.py: admission and sizing *)

Lemma py_max_zero (room : Q) : py_max 0.0 room == Qmax 0 room.
Proof.
  rewrite py_max_Qmax. assert (E0 : 0.0 == 0) by reflexivity.
  rewrite E0. reflexivity.
Qed.

(** X3: [can_accept] says yes without a reason and no with one.  The reason is
    "GPU not present" exactly on cuda without GPU; otherwise it carries the
    need (the effective cost) and the free room (free minus margin, clamped
    at zero), and the need exceeds the room. *)
Theorem can_accept_reason (world : nat -> HwProbe.Machine)
    (self : Resources.ResourceManager) (device : string)
    (est : Resources.Estimate) (is_loaded : bool)
    (snapshot : option Resources.ResourceSnapshot) (t : nat) :
  let snap := snapshot_used world self snapshot t in
  let verdict := fst (Resources.can_accept world self device est is_loaded snapshot t) in
  let cuda := String.eqb device "cuda" in
  let room := if cuda
              then Resources.get_or_zero (Resources.gpu_free_gb snap)
                   - Resources.gpu_margin_gb self
              else Resources.get_or_zero (Resources.ram_available_gb snap)
                   - Resources.ram_margin_gb self in
  (fst verdict = true /\ snd verdict = None
   /\ (cuda = true -> Resources.gpu_absent snap = false)
   /\ effective_cost est is_loaded <= Qmax 0 room)
  \/ (fst verdict = false /\ snd verdict = Some Resources.GpuNotPresent
      /\ cuda = true /\ Resources.gpu_absent snap = true)
  \/ (fst verdict = false
      /\ (cuda = true -> Resources.gpu_absent snap = false)
      /\ exists need free,
           snd verdict = Some ((if cuda then Resources.InsufficientVRAM
                                else Resources.InsufficientRAM) need free)
           /\ need == effective_cost est is_loaded
           /\ free == Qmax 0 room /\ free < need).
Proof.
  intros snap verdict cuda room. subst verdict room.
  pose proof (need_as_cost est is_loaded) as Hneed.
  assert (E0 : 0.0 == 0) by reflexivity.
  destruct (String.eqb device "cuda") eqn:Hd; subst cuda.
  - apply String.eqb_eq in Hd. subst device. rewrite can_accept_cuda.
    fold snap. destruct (Resources.gpu_absent snap) eqn:Hg.
    + right. left. auto.
    + match goal with |- context [Qle_bool ?a ?b] =>
        pose proof (py_max_zero (Resources.get_or_zero (Resources.gpu_free_gb snap)
                                     - Resources.gpu_margin_gb self)) as Hmax;
        destruct (Qle_bool a b) eqn:E
      end; cbn [fst snd].
      * left. apply Qle_bool_iff in E.
        repeat split; auto. lra.
      * right. right. split; [reflexivity |]. split; [auto |].
        eexists _, _. split; [reflexivity |]. split; [exact Hneed |].
        split; [exact Hmax |].
        apply Qnot_le_lt. intros Hle. apply Qle_bool_iff in Hle. congruence.
  - rewrite can_accept_cpu by assumption. fold snap.
    match goal with |- context [Qle_bool ?a ?b] =>
      pose proof (py_max_zero (Resources.get_or_zero (Resources.ram_available_gb snap)
                                   - Resources.ram_margin_gb self)) as Hmax;
      destruct (Qle_bool a b) eqn:E
    end; cbn [fst snd].
    + left. apply Qle_bool_iff in E.
      repeat split; try discriminate. lra.
    + right. right. split; [reflexivity |]. split; [discriminate |].
      eexists _, _. split; [reflexivity |]. split; [exact Hneed |].
      split; [exact Hmax |].
      apply Qnot_le_lt. intros Hle. apply Qle_bool_iff in Hle. congruence.
Qed.

(** The verdict as a comparison, for any manager. *)
Lemma can_accept_true_iff (world : nat -> HwProbe.Machine)
    (self : Resources.ResourceManager) (device : string)
    (est : Resources.Estimate) (is_loaded : bool)
    (snapshot : option Resources.ResourceSnapshot) (t : nat) :
  let snap := snapshot_used world self snapshot t in
  fst (fst (Resources.can_accept world self device est is_loaded snapshot t)) = true
  <-> if String.eqb device "cuda"
      then Resources.gpu_absent snap = false
           /\ effective_cost est is_loaded
              <= Qmax 0 (Resources.get_or_zero (Resources.gpu_free_gb snap)
                         - Resources.gpu_margin_gb self)
      else effective_cost est is_loaded
           <= Qmax 0 (Resources.get_or_zero (Resources.ram_available_gb snap)
                      - Resources.ram_margin_gb self).
Proof.
  intros snap. pose proof (need_as_cost est is_loaded) as Hneed.
  assert (E0 : 0.0 == 0) by reflexivity.
  destruct (String.eqb device "cuda") eqn:Hd.
  - apply String.eqb_eq in Hd. subst device. rewrite can_accept_cuda. fold snap.
    destruct (Resources.gpu_absent snap).
    + cbn [fst]. split; [discriminate | intros [H _]; discriminate H].
    + match goal with |- context [Qle_bool ?a ?b] =>
        pose proof (py_max_zero (Resources.get_or_zero (Resources.gpu_free_gb snap)
                                     - Resources.gpu_margin_gb self)) as Hmax;
        destruct (Qle_bool a b) eqn:E
      end; cbn [fst].
      * apply Qle_bool_iff in E. split; [intros _; split; [reflexivity | lra] | reflexivity].
      * split; [discriminate |]. intros [_ Hle]. exfalso.
        assert (Hb : Qle_bool
                       ((if is_loaded then 0.0 else Resources.resident_gb est)
                        + Resources.transient_gb est)
                       (py_max 0.0 (Resources.get_or_zero (Resources.gpu_free_gb snap)
                                    - Resources.gpu_margin_gb self)) = true)
          by (apply Qle_bool_iff; lra).
        congruence.
  - rewrite can_accept_cpu by assumption. fold snap.
    match goal with |- context [Qle_bool ?a ?b] =>
      pose proof (py_max_zero (Resources.get_or_zero (Resources.ram_available_gb snap)
                                   - Resources.ram_margin_gb self)) as Hmax;
      destruct (Qle_bool a b) eqn:E
    end; cbn [fst].
    + apply Qle_bool_iff in E. split; [intros _; lra | reflexivity].
    + split; [discriminate |]. intros Hle. exfalso.
      assert (Hb : Qle_bool
                     ((if is_loaded then 0.0 else Resources.resident_gb est)
                      + Resources.transient_gb est)
                     (py_max 0.0 (Resources.get_or_zero (Resources.ram_available_gb snap)
                                  - Resources.ram_margin_gb self)) = true)
        by (apply Qle_bool_iff; lra).
      congruence.
Qed.

(** X4: admission is monotone in the resources and in the request: if a
    request is accepted on a snapshot, every request that costs no more is
    accepted on every snapshot that shows the same GPU presence and at least
    as much free VRAM and available RAM. *)
Theorem can_accept_monotone_in_resources (world : nat -> HwProbe.Machine)
    (self : Resources.ResourceManager) (device : string)
    (est est' : Resources.Estimate) (is_loaded : bool)
    (snap snap' : Resources.ResourceSnapshot) (t : nat) :
  Resources.truthy snap = true -> Resources.truthy snap' = true ->
  Resources.gpu_absent snap' = Resources.gpu_absent snap ->
  Resources.get_or_zero (Resources.gpu_free_gb snap)
  <= Resources.get_or_zero (Resources.gpu_free_gb snap') ->
  Resources.get_or_zero (Resources.ram_available_gb snap)
  <= Resources.get_or_zero (Resources.ram_available_gb snap') ->
  effective_cost est' is_loaded <= effective_cost est is_loaded ->
  fst (fst (Resources.can_accept world self device est is_loaded (Some snap) t)) = true ->
  fst (fst (Resources.can_accept world self device est' is_loaded (Some snap') t)) = true.
Proof.
  intros Ht Ht' Hg Hv Hr Hc.
  rewrite !can_accept_true_iff.
  unfold snapshot_used, Resources.snapshot_or_probe. rewrite Ht, Ht'. cbn [fst Resources.ret].
  destruct (String.eqb device "cuda").
  - intros [Hp Hle]. split; [congruence |].
    eapply Qle_trans; [exact Hc |]. eapply Qle_trans; [exact Hle |].
    apply Q.max_le_compat_l. lra.
  - intros Hle. eapply Qle_trans; [exact Hc |]. eapply Qle_trans; [exact Hle |].
    apply Q.max_le_compat_l. lra.
Qed.


Lemma can_accept_monotone_in_resources_witness :
  fst (fst (Resources.can_accept blind_machine Resources.default_manager "cpu"
              {| Resources.resident_gb := 1.4; Resources.transient_gb := 0.2 |} false
              (Some (snapshot_with_ram 16)) 0%nat)) = true.
Proof.
  apply (can_accept_monotone_in_resources blind_machine Resources.default_manager
           "cpu" {| Resources.resident_gb := 2.8; Resources.transient_gb := 0.2 |}
           {| Resources.resident_gb := 1.4; Resources.transient_gb := 0.2 |} false
           (snapshot_with_ram 8) (snapshot_with_ram 16) 0%nat);
    try reflexivity; vm_compute; discriminate.
Defined.

(** X5: on cuda, when the machine shows no GPU (or the GPU probe fails),
    [admit_or_raise] rejects every request, whatever its size and whether or
    not the model is loaded, with the message "GPU not present". *)
Theorem admit_or_raise_without_gpu (world : nat -> HwProbe.Machine)
    (self : Resources.ResourceManager) (model_name compute_type : string)
    (audio_minutes : Q) (beam_size : Z) (is_loaded : bool) (t : nat) :
  HwProbe.gpu_memory_gb (world t) = None ->
  exists err,
    fst (Resources.admit_or_raise world self "cuda" model_name compute_type
           audio_minutes beam_size is_loaded t) = inr err
    /\ Resources.message err = Resources.GpuNotPresent.
Proof.
  intros Hgpu. rewrite admit_or_raise_unfold.
  rewrite can_accept_cuda.
  assert (Habs : Resources.gpu_absent (snapshot_used world self None t) = true).
  { unfold snapshot_used, Resources.snapshot_or_probe, Resources.probe,
      Resources.gpu_absent, Resources.snapshot_of. cbn. now rewrite Hgpu. }
  rewrite Habs. cbn [fst snd]. eexists. split; reflexivity.
Qed.

Lemma admit_or_raise_without_gpu_witness :
  exists err,
    fst (Resources.admit_or_raise (steady_cpu_machine 64) Resources.default_manager
           "cuda" "tiny" "int8" 1 5 true 0%nat) = inr err
    /\ Resources.message err = Resources.GpuNotPresent.
Proof.
  apply (admit_or_raise_without_gpu (steady_cpu_machine 64) Resources.default_manager
           "tiny" "int8" 1 5 true 0%nat eq_refl).
Defined.

(** X6: a non-empty snapshot passed to [can_accept] or [concurrency_hint] is
    used as it is: the machine is not looked at and the answer does not
    depend on it.  Without one (or with an empty one) the machine is looked
    at exactly once, and [admit_or_raise] looks once when it admits and twice
    when it rejects. *)
Theorem probing_discipline (world world' : nat -> HwProbe.Machine)
    (self : Resources.ResourceManager) (device : string)
    (est : Resources.Estimate) (is_loaded : bool)
    (snapshot : option Resources.ResourceSnapshot) (t : nat)
    (model_name compute_type : string) (audio_minutes : Q) (beam_size : Z) :
  let passed := match snapshot with Some s => Resources.truthy s | None => false end in
  (passed = true ->
   Resources.can_accept world self device est is_loaded snapshot t
   = (fst (Resources.can_accept world' self device est is_loaded snapshot t), t)
   /\ Resources.concurrency_hint world self device est snapshot t
      = (fst (Resources.concurrency_hint world' self device est snapshot t), t))
  /\ (passed = false ->
      snd (Resources.can_accept world self device est is_loaded snapshot t) = S t
      /\ snd (Resources.concurrency_hint world self device est snapshot t) = S t)
  /\ snd (Resources.admit_or_raise world self device model_name compute_type
            audio_minutes beam_size is_loaded t)
     = match fst (Resources.admit_or_raise world self device model_name compute_type
                    audio_minutes beam_size is_loaded t) with
       | inl _ => S t
       | inr _ => S (S t)
       end.
Proof.
  intros passed. subst passed. split; [| split].
  - destruct snapshot as [s |]; [| discriminate]. intros Hs.
    unfold Resources.can_accept, Resources.concurrency_hint, Resources.bind,
      Resources.snapshot_or_probe, Resources.ret. rewrite Hs.
    split; repeat match goal with
                  | |- context [if ?b then _ else _] => destruct b
                  end; reflexivity.
  - intros Hs.
    unfold Resources.can_accept, Resources.concurrency_hint, Resources.bind,
      Resources.snapshot_or_probe, Resources.probe, Resources.ret.
    destruct snapshot as [s |]; [rewrite Hs |];
      split; repeat match goal with
                    | |- context [if ?b then _ else _] => destruct b
                    end; reflexivity.
  - rewrite admit_or_raise_unfold.
    destruct (fst (fst (Resources.can_accept world self device _ is_loaded None t)));
      reflexivity.
Qed.

Lemma probing_discipline_witness :
  Resources.can_accept blind_machine Resources.default_manager "cpu"
    {| Resources.resident_gb := 1.4; Resources.transient_gb := 0.2 |} false
    (Some (snapshot_with_ram 16)) 7%nat
  = (fst (Resources.can_accept (steady_cpu_machine 1) Resources.default_manager "cpu"
            {| Resources.resident_gb := 1.4; Resources.transient_gb := 0.2 |} false
            (Some (snapshot_with_ram 16)) 7%nat), 7%nat).
Proof.
  apply (proj1 (proj1 (probing_discipline blind_machine (steady_cpu_machine 1)
                         Resources.default_manager "cpu"
                         {| Resources.resident_gb := 1.4; Resources.transient_gb := 0.2 |}
                         false (Some (snapshot_with_ram 16)) 7%nat "base" "int8" 1 5)
                      eq_refl)).
Defined.

(** The hint on a device that is there, for any manager. *)
Lemma concurrency_hint_value (world : nat -> HwProbe.Machine)
    (self : Resources.ResourceManager) (device : string)
    (est : Resources.Estimate) (snapshot : option Resources.ResourceSnapshot)
    (t : nat) :
  let snap := snapshot_used world self snapshot t in
  String.eqb device "cuda" && Resources.gpu_absent snap = false ->
  fst (Resources.concurrency_hint world self device est snapshot t)
  = Z.max 1 (Qfloor (Qmax 0 ((if String.eqb device "cuda"
                              then fsub (Resources.get_or_zero (Resources.gpu_free_gb snap))
                                        (Resources.gpu_margin_gb self)
                              else fsub (Resources.get_or_zero
                                           (Resources.ram_available_gb snap))
                                        (Resources.ram_margin_gb self)))
                     / Qmax (fl (Resources.transient_gb est)) (fl 0.1))).
Proof.
  intros snap. subst snap.
  unfold Resources.concurrency_hint, snapshot_used, Resources.bind.
  destruct (Resources.snapshot_or_probe world self snapshot t) as [s t'].
  cbn [fst].
  destruct (String.eqb device "cuda"); cbn [andb].
  - intros ->. rewrite clamped_divisor_not_zero. unfold Resources.ret; cbn [fst].
    now rewrite int_or_max_1, floordiv_clamped.
  - intros _. rewrite clamped_divisor_not_zero. unfold Resources.ret; cbn [fst].
    now rewrite int_or_max_1, floordiv_clamped.
Qed.

(** X7: the hint never over-commits, and never refuses a device that is
    there.  With room the float difference of free memory and margin,
    clamped at zero, and slot the larger of the transient estimate and the
    float 0.1: the hint is at least 1; a hint of 2 or more satisfies
    hint x slot <= room; and when two slots do not fit, the hint is 1. *)
Theorem concurrency_hint_fits (world : nat -> HwProbe.Machine)
    (self : Resources.ResourceManager) (device : string)
    (est : Resources.Estimate) (snapshot : option Resources.ResourceSnapshot)
    (t : nat) :
  let snap := snapshot_used world self snapshot t in
  let hint := fst (Resources.concurrency_hint world self device est snapshot t) in
  let room := Qmax 0 (if String.eqb device "cuda"
                      then fsub (Resources.get_or_zero (Resources.gpu_free_gb snap))
                                (Resources.gpu_margin_gb self)
                      else fsub (Resources.get_or_zero (Resources.ram_available_gb snap))
                                (Resources.ram_margin_gb self)) in
  let slot := Qmax (fl (Resources.transient_gb est)) (fl 0.1) in
  String.eqb device "cuda" && Resources.gpu_absent snap = false ->
  (1 <= hint)%Z
  /\ ((2 <= hint)%Z -> inject_Z hint * slot <= room)
  /\ (room < 2 * slot -> hint = 1%Z).
Proof.
  intros snap hint room slot Hpresent. subst hint.
  rewrite (concurrency_hint_value world self device est snapshot t Hpresent).
  fold snap room slot.
  assert (Hslot : 0 < slot).
  { assert (H : fl 0.1 <= slot) by apply Q.le_max_r.
    pose proof float_tenth_pos. lra. }
  assert (Hroom : 0 <= room) by apply Q.le_max_l.
  pose proof (Qfloor_le (room / slot)) as Hlo.
  pose proof (Qlt_floor (room / slot)) as Hhi.
  assert (Hdiv : room / slot * slot == room) by (field; lra).
  set (n := Qfloor (room / slot)) in *.
  split; [lia |]. split.
  - intros H2. assert (Hmax : Z.max 1 n = n) by lia. rewrite Hmax.
    assert (inject_Z n * slot <= room / slot * slot) by nra. lra.
  - intros Hsmall.
    assert (Hq : room / slot < 2).
    { apply Qlt_shift_div_r; [exact Hslot | exact Hsmall]. }
    assert (Hn : inject_Z n < inject_Z 2) by (change (inject_Z 2) with 2; lra).
    rewrite <- Zlt_Qlt in Hn. lia.
Qed.

Lemma concurrency_hint_fits_witness :
  (1 <= fst (Resources.concurrency_hint blind_machine Resources.default_manager
               "cpu" {| Resources.resident_gb := 1.4; Resources.transient_gb := 0.25 |}
               (Some (snapshot_with_ram 16)) 0%nat))%Z
  /\ inject_Z (fst (Resources.concurrency_hint blind_machine Resources.default_manager
                      "cpu" {| Resources.resident_gb := 1.4;
                               Resources.transient_gb := 0.25 |}
                      (Some (snapshot_with_ram 16)) 0%nat))
     * Qmax (fl 0.25) (fl 0.1)
     <= Qmax 0 (fsub (Resources.get_or_zero
                        (Resources.ram_available_gb (snapshot_with_ram 16)))
                     (Resources.ram_margin_gb Resources.default_manager)).
Proof.
  destruct (concurrency_hint_fits blind_machine Resources.default_manager "cpu"
              {| Resources.resident_gb := 1.4; Resources.transient_gb := 0.25 |}
              (Some (snapshot_with_ram 16)) 0%nat eq_refl) as (H1 & H2 & _).
  split; [exact H1 | apply H2]. vm_compute. discriminate.
Defined.

(** ** hw_probe.py and registry.py: resolution and keys *)

(** X8: resolving is idempotent, and a resolved pair no longer depends on the
    machine: resolving the result again, on any machine, returns it
    unchanged; [auto] never survives. *)
Theorem resolve_idempotent (hw hw' : HwProbe.Machine) (device compute_type : string) :
  let r := HwProbe.resolve_auto_device_compute hw device compute_type in
  HwProbe.resolve_auto_device_compute hw' (fst r) (snd r) = r
  /\ fst r <> "auto" /\ snd r <> "auto".
Proof.
  unfold HwProbe.resolve_auto_device_compute. cbn [fst snd].
  set (d := if String.eqb device "auto" then _ else device).
  set (c := if String.eqb compute_type "auto" then _ else compute_type).
  assert (Hd : String.eqb d "auto" = false).
  { subst d. destruct (String.eqb device "auto") eqn:E; [| exact E].
    destruct (HwProbe.is_cuda_available hw); reflexivity. }
  assert (Hc : String.eqb c "auto" = false).
  { subst c. destruct (String.eqb compute_type "auto") eqn:E; [| exact E].
    destruct (String.eqb d "cuda"); reflexivity. }
  rewrite Hd, Hc. split; [reflexivity |].
  split; intros H; rewrite H in *; discriminate.
Qed.

Lemma resolve_idempotent_aux (hw : HwProbe.Machine) (device compute_type : string) :
  let r := HwProbe.resolve_auto_device_compute hw device compute_type in
  String.eqb (fst r) "auto" = false /\ String.eqb (snd r) "auto" = false.
Proof.
  unfold HwProbe.resolve_auto_device_compute. cbn [fst snd].
  split.
  - destruct (String.eqb device "auto") eqn:E; [| exact E].
    destruct (HwProbe.is_cuda_available hw); reflexivity.
  - destruct (String.eqb compute_type "auto") eqn:E; [| exact E].
    match goal with |- context [if ?b then "float16" else "float32"] =>
      destruct b end; reflexivity.
Qed.

(** X9: a canonical key is a fixed point of [_key] on every machine, and
    resolving first, as the service does before it asks the registry, gives
    the same key as handing the raw arguments over, even if CUDA availability
    changes in between. *)
Theorem key_idempotent (hw hw' : HwProbe.Machine) (name device compute_type : string) :
  let k := Registry._key hw name device compute_type in
  let r := HwProbe.resolve_auto_device_compute hw device compute_type in
  Registry._key hw' (Registry.model_name k) (Registry.device k) (Registry.compute_type k) = k
  /\ Registry._key hw' name (fst r) (snd r) = k.
Proof.
  intros k r.
  assert (Hres : forall d c, String.eqb d "auto" = false -> String.eqb c "auto" = false ->
                             forall n, Registry._key hw' n d c
                             = {| Registry.model_name := n;
                                  Registry.device := if Registry.is_device d then d else "cpu";
                                  Registry.compute_type :=
                                    if Registry.is_compute c then c
                                    else if String.eqb (if Registry.is_device d then d else "cpu") "cpu"
                                         then "float32" else "float16" |}).
  { intros d c Hd Hc n. unfold Registry._key, HwProbe.resolve_auto_device_compute.
    rewrite Hd, Hc. destruct (Registry.is_device d), (Registry.is_compute c); reflexivity. }
  destruct (resolve_idempotent_aux hw device compute_type) as (Hd & Hc).
  destruct (key_fields hw name device compute_type) as (Hn & Hkd & Hkc).
  fold k in Hn, Hkd, Hkc. fold r in Hd, Hc, Hkd, Hkc.
  split.
  - assert (Hdev : Registry.is_device (Registry.device k) = true).
    { rewrite Hkd. destruct (Registry.is_device (fst r)) eqn:E; [exact E | reflexivity]. }
    assert (Hcomp : Registry.is_compute (Registry.compute_type k) = true).
    { rewrite Hkc. destruct (Registry.is_compute (snd r)) eqn:E; [exact E |].
      destruct (String.eqb (Registry.device k) "cpu"); reflexivity. }
    rewrite Hres.
    + rewrite Hdev, Hcomp. destruct k; cbn in *. subst. reflexivity.
    + apply is_device_spec in Hdev. destruct Hdev as [-> | ->]; reflexivity.
    + apply is_compute_spec in Hcomp. destruct Hcomp as [-> | [-> | ->]]; reflexivity.
  - rewrite (Hres _ _ Hd Hc). rewrite <- Hkd. rewrite <- Hkc.
    destruct k; cbn in *. subst. reflexivity.
Qed.

(** ** registry.py: what concurrent callers can rely on *)
Section GetOrCreateMore.
Import Registry.
Local Open Scope nat_scope.
Implicit Types (s : State) (r : WhisperModelRegistry) (t u : Task)
  (k : ModelKey) (m : WhisperModel) (log : list (ModelKey * bool)).

Lemma setdefault_keeps {V} k k' (v x : V) (d : gmap ModelKey V) :
  d !! k' = Some x -> setdefault k v d !! k' = Some x.
Proof. intros H. rewrite lookup_setdefault, H. reflexivity. Qed.

Lemma step_grows s i ok s' :
  Inv s -> step s i ok = Some s' ->
  (forall k m, _models (registry s) !! k = Some m ->
               _models (registry s') !! k = Some m)
  /\ (forall k c, _semaphores (registry s) !! k = Some c ->
                  _semaphores (registry s') !! k = Some c)
  /\ (forall k, is_Some (_locks (registry s) !! k) ->
                is_Some (_locks (registry s') !! k))
  /\ calls s `prefix_of` calls s'.
Proof.
  intros HI H. unfold step in H.
  destruct (tasks s !! i) as [t |] eqn:Ht; [| discriminate].
  destruct (step_task _ _ t ok) as [[[r' log'] p] |] eqn:Hs; [| discriminate].
  injection H as <-. cbn [registry calls].
  pose proof (inv_tasks s HI i t Ht) as Hok. unfold task_ok in Hok.
  apply step_task_moves in Hs.
  destruct Hs as [m Hp Hm | Hp Hm | Hp | Hp Hl | m Hp Hm | Hp Hm
                  | Hp | Hp | m Hp | m Hp | res Hp | m Hp Hneg];
    rewrite Hp in Hok;
    cbn [set_locks set_models set_semaphores _models _locks _semaphores];
    repeat split; try done; try (intros; assumption);
    try (apply prefix_app_r; reflexivity).
  - intros k [b Hb]. exists b. now apply setdefault_keeps.
  - intros k Hk. destruct (decide (key t = k)) as [<- | Hne].
    + rewrite lookup_insert_eq. eauto.
    + now rewrite lookup_insert_ne.
  - intros k m' Hk. destruct Hok as (_ & Hnone & _).
    destruct (decide (key t = k)) as [<- | Hne]; [congruence |].
    now rewrite lookup_insert_ne.
  - intros k c Hk. now apply setdefault_keeps.
  - intros k Hk. destruct (decide (key t = k)) as [<- | Hne].
    + rewrite lookup_insert_eq. eauto.
    + now rewrite lookup_insert_ne.
Qed.

Lemma run_grows schedule : forall s s',
  Inv s -> run s schedule = Some s' ->
  (forall k m, _models (registry s) !! k = Some m ->
               _models (registry s') !! k = Some m)
  /\ (forall k c, _semaphores (registry s) !! k = Some c ->
                  _semaphores (registry s') !! k = Some c)
  /\ (forall k, is_Some (_locks (registry s) !! k) ->
                is_Some (_locks (registry s') !! k))
  /\ calls s `prefix_of` calls s'.
Proof.
  induction schedule as [| [i ok] rest IH]; intros s s' HI H; simpl in H.
  - injection H as <-. repeat split; auto.
  - destruct (step s i ok) as [s1 |] eqn:Hs; [| discriminate].
    destruct (step_grows s i ok s1 HI Hs) as (G1 & G2 & G3 & G4).
    destruct (IH s1 s' (step_inv _ _ _ _ HI Hs) H) as (K1 & K2 & K3 & K4).
    repeat split; auto. now transitivity (calls s1).
Qed.

End GetOrCreateMore.

(** X10: the registry only grows.  Take concurrent [get_or_create] calls on a
    fresh registry and stop them anywhere; whatever the calls do from there
    on, a model that is cached stays cached and is the same object (nothing
    evicts or replaces it), a semaphore that is installed keeps its
    capacity, a lock that exists keeps existing, and the constructor calls
    made so far stay on record in their order. *)
Theorem registry_only_grows
    (args : list (Registry.ModelKey * option Z)) (before after : list (nat * bool))
    (s s' : Registry.State) :
  Registry.run (Registry.spawn args) before = Some s ->
  Registry.run s after = Some s' ->
  (forall k m, Registry._models (Registry.registry s) !! k = Some m ->
               Registry._models (Registry.registry s') !! k = Some m)
  /\ (forall k c, Registry._semaphores (Registry.registry s) !! k = Some c ->
                  Registry._semaphores (Registry.registry s') !! k = Some c)
  /\ (forall k, is_Some (Registry._locks (Registry.registry s) !! k) ->
                is_Some (Registry._locks (Registry.registry s') !! k))
  /\ Registry.calls s `prefix_of` Registry.calls s'.
Proof.
  intros Hbefore Hafter.
  apply (run_grows after s s'); [| exact Hafter].
  exact (run_inv before _ _ (spawn_inv args) Hbefore).
Qed.

Lemma registry_only_grows_witness :
  exists s s',
    Registry.run (Registry.spawn two_callers) (take 9 two_callers_schedule) = Some s
    /\ Registry.run s (drop 9 two_callers_schedule) = Some s'
    /\ Registry._models (Registry.registry s) !! base_cpu = Some 0%nat
    /\ Registry._models (Registry.registry s') !! base_cpu = Some 0%nat.
Proof.
  destruct (Registry.run (Registry.spawn two_callers) (take 9 two_callers_schedule))
    as [s |] eqn:E; [| vm_compute in E; discriminate E].
  destruct (Registry.run s (drop 9 two_callers_schedule))
    as [s' |] eqn:E'; [| vm_compute in E; injection E as <-; vm_compute in E';
                         discriminate E'].
  exists s, s'. split; [reflexivity |]. split; [exact E' |].
  pose proof (registry_only_grows two_callers _ _ s s' E E') as (H & _).
  assert (Hm : Registry._models (Registry.registry s) !! base_cpu = Some 0%nat).
  { vm_compute in E. injection E as <-. vm_compute. reflexivity. }
  split; [exact Hm | exact (H _ _ Hm)].
Defined.

(** X11: mutual exclusion.  In every state that concurrent [get_or_create]
    calls can reach, two calls for the same key are never both between the
    acquisition and the release of the key's lock; and whoever is there finds
    the lock held. *)
Theorem get_or_create_mutual_exclusion
    (args : list (Registry.ModelKey * option Z)) (schedule : list (nat * bool))
    (s : Registry.State) (i j : nat) (t u : Registry.Task) :
  Registry.run (Registry.spawn args) schedule = Some s ->
  Registry.tasks s !! i = Some t ->
  Registry.tasks s !! j = Some u ->
  Registry.key t = Registry.key u ->
  holds_lock (Registry.pc t) = true ->
  holds_lock (Registry.pc u) = true ->
  i = j /\ Registry._locks (Registry.registry s) !! Registry.key t = Some true.
Proof.
  intros Hrun Ht Hu Hk Hht Hhu.
  pose proof (run_inv schedule _ _ (spawn_inv args) Hrun) as HI.
  split.
  - exact (inv_mutex s HI i j t u Ht Hu Hk Hht Hhu).
  - exact (holder_locked _ _ t (inv_tasks s HI i t Ht) Hht).
Qed.

Lemma get_or_create_mutual_exclusion_witness :
  exists s t,
    Registry.run (Registry.spawn two_callers) (take 6 two_callers_schedule) = Some s
    /\ Registry.tasks s !! 1%nat = Some t
    /\ 1%nat = 1%nat
    /\ Registry._locks (Registry.registry s) !! Registry.key t = Some true.
Proof.
  destruct (Registry.run (Registry.spawn two_callers) (take 6 two_callers_schedule))
    as [s |] eqn:E; [| vm_compute in E; discriminate E].
  destruct (Registry.tasks s !! 1%nat) as [t |] eqn:Et;
    [| vm_compute in E; injection E as <-; vm_compute in Et; discriminate Et].
  exists s, t. split; [reflexivity |]. split; [exact Et |].
  apply (get_or_create_mutual_exclusion two_callers _ s 1 1 t t E Et Et eq_refl);
    vm_compute in E; injection E as <-; vm_compute in Et; injection Et as <-;
    reflexivity.
Defined.

(** X12: when every call has finished, no lock is left held; a key is cached
    exactly when the constructor has returned for it, so a constructor that
    raised leaves nothing behind and the next call constructs again; and a
    call that raised did so only because a constructor call for its key
    raised, or because it passed a negative [concurrency], which
    [asyncio.Semaphore] refuses. *)
Theorem get_or_create_quiescent
    (args : list (Registry.ModelKey * option Z)) (schedule : list (nat * bool))
    (s : Registry.State) :
  Registry.run (Registry.spawn args) schedule = Some s ->
  Forall (fun t => Registry.finished t = true) (Registry.tasks s) ->
  (forall k, Registry._locks (Registry.registry s) !! k <> Some true)
  /\ (forall k, is_Some (Registry._models (Registry.registry s) !! k)
                <-> ctor_returns k (Registry.calls s) = 1%nat)
  /\ (forall i t, Registry.tasks s !! i = Some t ->
                  Registry.pc t = Registry.Done None ->
                  (1 <= Registry.ctor_raises (Registry.key t) (Registry.calls s))%nat
                  \/ (Registry.concurrency_or_1 (Registry.concurrency t) < 0)%Z).
Proof.
  intros Hrun Hfin.
  pose proof (run_inv schedule _ _ (spawn_inv args) Hrun) as HI.
  assert (Hout : forall i t, Registry.tasks s !! i = Some t ->
                             holds_lock (Registry.pc t) = false
                             /\ forall m, Registry.pc t <> Registry.Publishing m).
  { intros i t Ht.
    pose proof (proj1 (Forall_lookup _ _) Hfin i t Ht) as Hf. simpl in Hf.
    unfold Registry.finished in Hf.
    destruct (Registry.pc t); try discriminate Hf. split; [reflexivity | discriminate]. }
  split; [| split].
  - intros k Hk. destruct (inv_holder s HI k Hk) as (i & t & Ht & _ & Hh).
    destruct (Hout i t Ht) as [Hf _]. congruence.
  - intros k. split.
    + intros [m Hm]. exact (inv_loaded s HI k m Hm).
    + intros Hret.
      destruct (Registry._models (Registry.registry s) !! k) as [m |] eqn:Hm; [eauto |].
      destruct (inv_unloaded s HI k Hm) as [H0 | (i & t & m & Ht & _ & Hp)].
      * rewrite H0 in Hret. discriminate Hret.
      * destruct (Hout i t Ht) as [_ Hnp]. now destruct (Hnp m).
  - intros i t Ht Hp. exact (inv_raised s HI i t Ht Hp).
Qed.

Lemma get_or_create_quiescent_witness :
  exists s,
    Registry.run (Registry.spawn two_callers) two_callers_schedule = Some s
    /\ Registry._locks (Registry.registry s) !! base_cpu <> Some true
    /\ ctor_returns base_cpu (Registry.calls s) = 1%nat.
Proof.
  destruct (Registry.run (Registry.spawn two_callers) two_callers_schedule)
    as [s |] eqn:E; [| vm_compute in E; discriminate E].
  exists s. split; [reflexivity |].
  assert (Hfin : Forall (fun t => Registry.finished t = true) (Registry.tasks s)).
  { vm_compute in E. injection E as <-. repeat constructor. }
  pose proof (get_or_create_quiescent two_callers two_callers_schedule s E Hfin)
    as (Hl & Hm & _).
  split; [apply Hl |]. apply Hm.
  vm_compute in E. injection E as <-. vm_compute. eauto.
Defined.


(** ** service.py: one request at a time *)
Section ServiceFacts.
Import Registry.
Local Open Scope list_scope.
Implicit Types (r : WhisperModelRegistry) (k : ModelKey)
  (log : list (ModelKey * bool)).


Lemma await_alone_step fuel r log t ok :
  Service.await_alone (S fuel) r log t ok
  = match Service.returned (pc t) with
    | Some res => Some (r, log, res)
    | None =>
        match step_task r log t ok with
        | Some (r', log', p) => Service.await_alone fuel r' log' (at_pc t p) ok
        | None => None
        end
    end.
Proof. reflexivity. Qed.

Lemma await_alone_done fuel r log t ok res :
  pc t = Done res -> Service.await_alone fuel r log t ok = Some (r, log, res).
Proof. intros H. destruct fuel; simpl; rewrite H; reflexivity. Qed.

Ltac alone_step :=
  cbv beta iota; rewrite await_alone_step; cbn [pc at_pc Service.returned];
  unfold step_task at 1;
  cbn [pc key at_pc concurrency set_locks set_models set_semaphores
       _models _locks _semaphores].

(** [get_or_create] alone, hit: nothing is touched. *)
Lemma get_or_create_hit r log k c ok m :
  _models r !! k = Some m ->
  Service.get_or_create r log k c ok = Some (r, log, Some m).
Proof.
  intros H. unfold Service.get_or_create.
  alone_step. rewrite H. now apply await_alone_done.
Qed.

(** [get_or_create] alone, miss: the lock is created if need be, taken
    and released; the constructor is called once. *)
Lemma get_or_create_miss r log k c (ok : bool) :
  _models r !! k = None -> _locks r !! k <> Some true ->
  (0 <= concurrency_or_1 c)%Z ->
  Service.get_or_create r log k c ok
  = Some (if ok
          then {| _models := <[k := length log]> (_models r);
                  _locks := released k (_locks r);
                  _semaphores := setdefault k (concurrency_or_1 c) (_semaphores r) |}
          else {| _models := _models r;
                  _locks := released k (_locks r);
                  _semaphores := _semaphores r |},
          log ++ [(k, ok)],
          if ok then Some (length log) else None).
Proof.
  intros Hm Hl Hc. unfold Service.get_or_create.
  assert (Hfree : setdefault k false (_locks r) !! k = Some false).
  { rewrite lookup_setdefault. destruct (_locks r !! k) as [[] |] eqn:E.
    - now destruct Hl.
    - reflexivity.
    - now rewrite decide_True. }
  alone_step. rewrite Hm.
  alone_step.
  alone_step. rewrite Hfree.
  alone_step. rewrite Hm.
  alone_step. destruct ok.
  - alone_step. alone_step. rewrite (proj2 (Z.ltb_ge _ _) Hc). alone_step.
    rewrite await_alone_done with (res := Some (length log)) by reflexivity.
    reflexivity.
  - alone_step.
    rewrite await_alone_done with (res := None) by reflexivity.
    reflexivity.
Qed.

(** [get_or_create] alone, miss, and the constructor raises: [concurrency]
    is not looked at. *)
Lemma get_or_create_ctor_raises r log k c :
  _models r !! k = None -> _locks r !! k <> Some true ->
  Service.get_or_create r log k c false
  = Some ({| _models := _models r;
             _locks := released k (_locks r);
             _semaphores := _semaphores r |},
          log ++ [(k, false)], None).
Proof.
  intros Hm Hl. unfold Service.get_or_create.
  assert (Hfree : setdefault k false (_locks r) !! k = Some false).
  { rewrite lookup_setdefault. destruct (_locks r !! k) as [[] |] eqn:E.
    - now destruct Hl.
    - reflexivity.
    - now rewrite decide_True. }
  alone_step. rewrite Hm.
  alone_step.
  alone_step. rewrite Hfree.
  alone_step. rewrite Hm.
  alone_step. alone_step.
  rewrite await_alone_done with (res := None) by reflexivity.
  reflexivity.
Qed.

(** [get_or_create] alone, miss, with a negative [concurrency]: the model is
    built and cached, then [asyncio.Semaphore] raises ValueError; the lock is
    released and no semaphore installed. *)
Lemma get_or_create_refused r log k c :
  _models r !! k = None -> _locks r !! k <> Some true ->
  (concurrency_or_1 c < 0)%Z ->
  Service.get_or_create r log k c true
  = Some ({| _models := <[k := length log]> (_models r);
             _locks := released k (_locks r);
             _semaphores := _semaphores r |},
          log ++ [(k, true)], None).
Proof.
  intros Hm Hl Hc. unfold Service.get_or_create.
  assert (Hfree : setdefault k false (_locks r) !! k = Some false).
  { rewrite lookup_setdefault. destruct (_locks r !! k) as [[] |] eqn:E.
    - now destruct Hl.
    - reflexivity.
    - now rewrite decide_True. }
  alone_step. rewrite Hm.
  alone_step.
  alone_step. rewrite Hfree.
  alone_step. rewrite Hm.
  alone_step. alone_step. alone_step. rewrite (proj2 (Z.ltb_lt _ _) Hc). alone_step.
  rewrite await_alone_done with (res := None) by reflexivity.
  reflexivity.
Qed.

(** [get_or_create] alone while somebody else holds the lock of an uncached
    key: the call waits. *)
Lemma get_or_create_waits r log k c ok :
  _models r !! k = None -> _locks r !! k = Some true ->
  Service.get_or_create r log k c ok = None.
Proof.
  intros Hm Hl. unfold Service.get_or_create.
  assert (Hheld : setdefault k false (_locks r) !! k = Some true).
  { rewrite lookup_setdefault, Hl. reflexivity. }
  alone_step. rewrite Hm.
  alone_step.
  alone_step. rewrite Hheld. reflexivity.
Qed.

End ServiceFacts.

Section FacadeFacts.
Variable world : nat -> HwProbe.Machine.
Variable library : Registry.WhisperModel -> Transcription.Model.
Variable wave_open : list Byte.byte -> option AudioIO.WaveFile.
Import Resources.

Lemma concurrency_hint_looks_once self device est t :
  snd (concurrency_hint world self device est None t) = S t.
Proof.
  unfold concurrency_hint, bind, snapshot_or_probe, probe, ret.
  repeat match goal with
         | |- context [if ?b then _ else _] => destruct b
         end; reflexivity.
Qed.

(** The request, statement by statement, with the clock written out. *)
Lemma transcribe_async_unfold resources (st : Service.Running)
    (model_name device compute_type : string) (audio_input : AudioIO.AudioInput)
    (options : option Service.TranscribeOptions) (ctor_ok : bool) :
  let opts := Service.merged_options options in
  let hw := world (Service.clock st) in
  let d := fst (resolve hw device compute_type) in
  let c := snd (resolve hw device compute_type) in
  let key := Registry._key hw model_name d c in
  let t1 := if String.eqb device "auto" then S (Service.clock st) else Service.clock st in
  let est := estimate resources model_name c
               (Service.audio_minutes_of opts audio_input) (Service.beam_size_of opts) in
  let loaded := Registry.is_loaded (Service.registry st) hw model_name d c in
  let verdict := fst (can_accept world resources d est loaded None t1) in
  let hint := fst (concurrency_hint world resources d est None (S t1)) in
  Service.transcribe_async world library wave_open resources st model_name device
    compute_type audio_input options ctor_ok
  = if fst verdict then
      match Service.get_or_create (Service.registry st) (Service.calls st) key
              (Some (Z.max 1 hint)) ctor_ok with
      | None =>
          (Service.Suspended,
           {| Service.registry := Service.registry st; Service.calls := Service.calls st;
              Service.clock := S (S t1); Service.disk := Service.disk st |})
      | Some (r, log, None) =>
          (Service.ConstructorRaised,
           {| Service.registry := r; Service.calls := log;
              Service.clock := S (S t1); Service.disk := Service.disk st |})
      | Some (r, log, Some model) =>
          if (fst (Registry.get_semaphore r key) <=? 0)%Z then
            (Service.Suspended,
             {| Service.registry := snd (Registry.get_semaphore r key);
                Service.calls := log; Service.clock := S (S t1);
                Service.disk := Service.disk st |})
          else
            let out :=
              Transcription.transcribe_with_model wave_open (library model) audio_input
                (default None (Service.language opts))
                (default "transcribe" (Service.task opts))
                (default true (Service.vad_filter opts))
                (Service.beam_size_of opts)
                (default false (Service.return_meta opts))
                (default true (Service.decode_wav_bytes opts))
                (Service.disk st) in
            (match fst out with
             | AudioIO.Ok v => Service.Returned v
             | AudioIO.Raise e => Service.TranscriptionRaised e
             end,
             {| Service.registry := snd (Registry.get_semaphore r key);
                Service.calls := log; Service.clock := S (S t1);
                Service.disk := snd out |})
      end
    else
      (Service.ResourceRejected
         (mkResourceRejectedError (reason_or_default (snd verdict))
            (snapshot_of (world (S t1)))),
       {| Service.registry := Service.registry st; Service.calls := Service.calls st;
          Service.clock := S (S t1); Service.disk := Service.disk st |}).
Proof.
  intros opts hw d c key t1 est loaded verdict hint.
  unfold Service.transcribe_async. fold opts hw.
  destruct (resolve hw device compute_type) as [d0 c0] eqn:Hres.
  cbn [fst snd] in d, c. subst d c. fold t1. fold key loaded.
  rewrite admit_or_raise_unfold. fold est. fold verdict.
  destruct (fst verdict); [| reflexivity].
  pose proof (concurrency_hint_looks_once resources d0 est (S t1)) as Ht.
  fold hint.
  destruct (concurrency_hint world resources d0 est None (S t1)) as [h t3] eqn:Hh.
  cbn [fst snd] in *. subst t3 hint.
  destruct (Service.get_or_create _ _ key _ ctor_ok) as [[[r log] [model |]] |];
    try reflexivity.
  destruct (Registry.get_semaphore r key) as [cap r'] eqn:Hs. cbn [fst snd].
  destruct (cap <=? 0)%Z; [reflexivity |].
  destruct (Transcription.transcribe_with_model _ _ _ _ _ _ _ _ _ _) as [res disk'].
  reflexivity.
Qed.

End FacadeFacts.


Lemma key_of_resolved (hw hw' : HwProbe.Machine) (name device compute_type : string) :
  Registry._key hw' name
    (fst (Resources.resolve hw device compute_type))
    (snd (Resources.resolve hw device compute_type))
  = Registry._key hw name device compute_type.
Proof.
  unfold Resources.resolve.
  destruct (resolve_idempotent_aux hw device compute_type) as (Hd & Hc).
  destruct (key_fields hw name device compute_type) as (Hn & Hkd & Hkc).
  set (r := HwProbe.resolve_auto_device_compute hw device compute_type) in *.
  set (k := Registry._key hw name device compute_type) in *.
  unfold Registry._key at 1, HwProbe.resolve_auto_device_compute.
  rewrite Hd, Hc.
  destruct k as [kn kd kc]. cbn [Registry.model_name Registry.device Registry.compute_type] in *.
  subst kn kd kc.
  destruct (Registry.is_device (fst r)), (Registry.is_compute (snd r)); reflexivity.
Qed.

(** X13: a rejected request leaves no trace, and the verdict does not look at
    the audio.  When [transcribe_async] raises [ResourceRejectedError], the
    registry, the record of constructor calls and the files are what they
    were: no model was built, no lock or semaphore created, no temporary file
    written, the library not called.  The same request with any other audio
    and any other behaviour of the constructor is rejected with the same
    error. *)
Theorem transcribe_async_rejection_leaves_no_trace
    (world : nat -> HwProbe.Machine)
    (library : Registry.WhisperModel -> Transcription.Model)
    (wave_open : list Byte.byte -> option AudioIO.WaveFile)
    (resources : Resources.ResourceManager) (st st' : Service.Running)
    (model_name device compute_type : string)
    (audio_input audio_input' : AudioIO.AudioInput)
    (options : option Service.TranscribeOptions) (ctor_ok ctor_ok' : bool)
    (err : Resources.ResourceRejectedError) :
  Service.transcribe_async world library wave_open resources st model_name device
    compute_type audio_input options ctor_ok = (Service.ResourceRejected err, st') ->
  Service.registry st' = Service.registry st
  /\ Service.calls st' = Service.calls st
  /\ Service.disk st' = Service.disk st
  /\ Service.transcribe_async world library wave_open resources st model_name device
       compute_type audio_input' options ctor_ok' = (Service.ResourceRejected err, st').
Proof.
  intros H. rewrite transcribe_async_unfold in *.
  unfold Service.audio_minutes_of, Service._estimate_audio_minutes in *.
  match type of H with
  | (if ?b then _ else _) = _ => destruct b
  end.
  - exfalso.
    destruct (Service.get_or_create _ _ _ _ ctor_ok) as [[[r log] [model |]] |];
      try discriminate H.
    destruct (fst (Registry.get_semaphore r _) <=? 0)%Z; [discriminate H |].
    cbv zeta in H.
    destruct (fst (Transcription.transcribe_with_model _ _ _ _ _ _ _ _ _ _));
      discriminate H.
  - injection H as <- <-. cbn. repeat split; reflexivity.
Qed.

Lemma transcribe_async_rejection_leaves_no_trace_witness :
  exists err st',
    Service.transcribe_async (steady_cpu_machine 1) two_segment_library not_a_wave_file
      Resources.default_manager fresh_service "base" "auto" "auto"
      (AudioIO.InputBytes not_a_wav) None true = (Service.ResourceRejected err, st')
    /\ Service.registry st' = Registry.__init__
    /\ Service.calls st' = []
    /\ Service.disk st' = empty_world.
Proof.
  destruct (Service.transcribe_async (steady_cpu_machine 1) two_segment_library
              not_a_wave_file Resources.default_manager fresh_service "base" "auto" "auto"
              (AudioIO.InputBytes not_a_wav) None true) as [o st'] eqn:E.
  assert (Ho : exists err, o = Service.ResourceRejected err).
  { vm_compute in E. injection E as <- _. eauto. }
  destruct Ho as [err ->]. exists err, st'. split; [reflexivity |].
  destruct (transcribe_async_rejection_leaves_no_trace _ _ _ _ _ _ _ _ _ _
              (AudioIO.InputBytes not_a_wav) _ _ true _ E) as (H1 & H2 & H3 & _).
  auto.
Defined.

(** X14: a request for a model that is already loaded constructs nothing and
    changes nothing in the registry, whatever the constructor would do.  It
    is rejected, or it transcribes; it has to wait only if the semaphore that
    is installed for the key has no slot at all. *)
Theorem transcribe_async_on_loaded_model
    (world : nat -> HwProbe.Machine)
    (library : Registry.WhisperModel -> Transcription.Model)
    (wave_open : list Byte.byte -> option AudioIO.WaveFile)
    (resources : Resources.ResourceManager) (st st' : Service.Running)
    (model_name device compute_type : string) (audio_input : AudioIO.AudioInput)
    (options : option Service.TranscribeOptions) (ctor_ok : bool)
    (m : Registry.WhisperModel) (capacity : Z) (o : Service.Outcome) :
  let key := Registry._key (world (Service.clock st)) model_name device compute_type in
  Registry._models (Service.registry st) !! key = Some m ->
  Registry._semaphores (Service.registry st) !! key = Some capacity ->
  Service.transcribe_async world library wave_open resources st model_name device
    compute_type audio_input options ctor_ok = (o, st') ->
  Service.registry st' = Service.registry st
  /\ Service.calls st' = Service.calls st
  /\ o <> Service.ConstructorRaised
  /\ ((0 < capacity)%Z -> o <> Service.Suspended)
  /\ Service.transcribe_async world library wave_open resources st model_name device
       compute_type audio_input options (negb ctor_ok) = (o, st').
Proof.
  intros key Hm Hs H. rewrite transcribe_async_unfold in *.
  rewrite key_of_resolved in *. fold key in H |- *.
  rewrite !(get_or_create_hit _ _ key _ _ m Hm) in *.
  assert (Hsem : Registry.get_semaphore (Service.registry st) key
                 = (capacity, Service.registry st)).
  { unfold Registry.get_semaphore, Registry.setdefault. rewrite Hs. rewrite Hs.
    now destruct (Service.registry st). }
  rewrite Hsem in *. cbn [fst snd] in *.
  match type of H with
  | (if ?b then _ else _) = _ => destruct b
  end.
  - destruct (capacity <=? 0)%Z eqn:Hc.
    + injection H as <- <-. cbn. repeat split; try discriminate. intros; lia.
    + cbv zeta in *.
      destruct (Transcription.transcribe_with_model _ _ _ _ _ _ _ _ _ _) as [[v | e] w];
        cbn [fst snd] in *; injection H as <- <-; cbn;
        repeat split; try discriminate.
  - injection H as <- <-. cbn. repeat split; discriminate.
Qed.


Lemma transcribe_async_on_loaded_model_witness :
  exists o st',
    Service.transcribe_async (steady_cpu_machine 16) two_segment_library not_a_wave_file
      Resources.default_manager warm_service "base" "auto" "auto"
      (AudioIO.InputBytes not_a_wav) None false = (o, st')
    /\ Service.registry st' = Service.registry warm_service
    /\ Service.calls st' = [(base_cpu, true)]
    /\ o <> Service.Suspended.
Proof.
  destruct (Service.transcribe_async (steady_cpu_machine 16) two_segment_library
              not_a_wave_file Resources.default_manager warm_service "base" "auto" "auto"
              (AudioIO.InputBytes not_a_wav) None false) as [o st'] eqn:E.
  exists o, st'. split; [reflexivity |].
  assert (Hm : Registry._models (Service.registry warm_service)
               !! Registry._key (steady_cpu_machine 16 (Service.clock warm_service))
                    "base" "auto" "auto" = Some 0%nat) by (vm_compute; reflexivity).
  assert (Hs : Registry._semaphores (Service.registry warm_service)
               !! Registry._key (steady_cpu_machine 16 (Service.clock warm_service))
                    "base" "auto" "auto" = Some 2%Z) by (vm_compute; reflexivity).
  destruct (transcribe_async_on_loaded_model _ _ _ _ _ _ _ _ _ _ _ _ 0%nat 2%Z o Hm Hs E)
    as (H1 & H2 & _ & H4 & _).
  repeat split; [exact H1 | exact H2 | apply H4; reflexivity].
Defined.



(** ** audio_io.py and transcription.py: temporary files *)


Section HygieneFacts.
Import AudioIO Transcription.
Local Open Scope list_scope.
Context {fs : FileSystem}.
Hypothesis dependable_fs : dependable fs.

Lemma quiet_refl w : quiet w w.
Proof.
  repeat split. exists []. split; [now rewrite app_nil_r | intros p []].
Qed.

Lemma quiet_trans w1 w2 w3 : quiet w1 w2 -> quiet w2 w3 -> quiet w1 w3.
Proof.
  intros (F1 & C1 & e1 & T1 & N1) (F2 & C2 & e2 & T2 & N2).
  split; [congruence |]. split; [congruence |].
  exists (e1 ++ e2). split; [rewrite T2, T1; now rewrite app_assoc |].
  intros p Hin. apply in_app_or in Hin. destruct Hin; [eapply N1 | eapply N2]; eauto.
Qed.

Lemma quiet_emit e w :
  (forall p, e <> TempCreated p) -> quiet w (snd (emit e w)).
Proof.
  intros He. repeat split. exists [e]. split; [reflexivity |].
  intros p [Hp | []]. now apply (He p).
Qed.

Lemma quiet_tidy w w' : quiet w w' -> tidy w w'.
Proof.
  intros (F & C & evs & T & N). split; [exact F |]. split; [lia |].
  exists evs. split; [exact T |]. intros p Hin. now destruct (N p).
Qed.

Lemma quiet_fresh w w' : fresh_temps w -> quiet w w' -> fresh_temps w'.
Proof.
  intros Hf (F & C & _) n Hn. rewrite F. apply Hf. lia.
Qed.

Lemma tidy_fresh w w' : fresh_temps w -> tidy w w' -> fresh_temps w'.
Proof.
  intros Hf (F & C & _) n Hn. rewrite F. apply Hf. lia.
Qed.

Lemma tidy_then_quiet w1 w2 w3 : tidy w1 w2 -> quiet w2 w3 -> tidy w1 w3.
Proof.
  intros (F1 & C1 & e1 & T1 & N1) (F2 & C2 & e2 & T2 & N2).
  split; [congruence |]. split; [lia |].
  exists (e1 ++ e2). split; [rewrite T2, T1; now rewrite app_assoc |].
  intros p Hin. apply in_app_or in Hin. apply in_or_app.
  destruct Hin as [Hin | Hin]; [left; now apply N1 | now destruct (N2 p)].
Qed.

Lemma quiet_then_tidy w1 w2 w3 : quiet w1 w2 -> tidy w2 w3 -> tidy w1 w3.
Proof.
  intros (F1 & C1 & e1 & T1 & N1) (F2 & C2 & e2 & T2 & N2).
  split; [congruence |]. split; [lia |].
  exists (e1 ++ e2). split; [rewrite T2, T1; now rewrite app_assoc |].
  intros p Hin. apply in_app_or in Hin. apply in_or_app.
  destruct Hin as [Hin | Hin]; [now destruct (N1 p) | right; now apply N2].
Qed.

Lemma filter_absent (p : Path) (l : list Path) :
  p ∉ l -> filter (fun q => q <> p) l = l.
Proof.
  induction l as [| q l IH]; intros Hp; [reflexivity |].
  apply not_elem_of_cons in Hp. destruct Hp as [Hne Hp].
  rewrite filter_cons_True by congruence. now rewrite IH.
Qed.

(** A temporary file around a quiet computation: made, used, deleted. *)
Lemma temp_file_tidy {A} (data : list Byte.byte) (m : Path -> IO A) w :
  fresh_temps w ->
  (forall p w0, quiet w0 (snd (m p w0))) ->
  tidy w (snd (and_then (write_temp_file data)
                 (fun p => attempt (m p) (leave (Some p))) w)).
Proof.
  intros Hf Hm. unfold and_then at 1, write_temp_file.
  rewrite (proj1 dependable_fs). cbv zeta.
  set (p := TempPath (temp_counter w)).
  set (w1 := {| files := p :: files w; temp_counter := S (temp_counter w);
                trace := trace w ++ [TempCreated p] |}).
  unfold attempt at 1. specialize (Hm p w1).
  destruct (m p w1) as [r w2]. cbn [snd] in Hm.
  destruct Hm as (F & C & evs & T & N).
  unfold leave, and_then at 1, cleanup, and_then, path_exists.
  rewrite bool_decide_eq_true_2 by (rewrite F; left).
  unfold attempt, unlink. rewrite (proj2 dependable_fs). unfold pure.
  assert (Hfiles : filter (fun q => q <> p) (files w2) = files w).
  { rewrite F. subst w1. cbn [files]. rewrite filter_cons_False by (intros H; now apply H).
    apply filter_absent. apply Hf. lia. }
  assert (Htidy : tidy w {| files := filter (fun q => q <> p) (files w2);
                            temp_counter := temp_counter w2;
                            trace := trace w2 ++ [TempDeleted p] |}).
  { split; [exact Hfiles |]. cbn [temp_counter trace]. split; [rewrite C; subst w1; cbn; lia |].
    exists ([TempCreated p] ++ evs ++ [TempDeleted p]). split.
    - rewrite T. subst w1. cbn [trace]. now rewrite <- !app_assoc.
    - intros q Hin. apply in_app_or in Hin. destruct Hin as [[Hq | []] | Hin].
      + injection Hq as <-. apply in_or_app. right. apply in_or_app. right. now left.
      + apply in_app_or in Hin. destruct Hin as [Hin | [Hq | []]];
          [now destruct (N q) | discriminate Hq]. }
  destruct r; exact Htidy.
Qed.

(** [with prepare_audio_input(...)] around a quiet body that does not raise
    on audio decoded in memory. *)
Lemma with_prepare_tidy {A} wave_open audio_input (decode_wav_bytes : bool)
    (body : Audio -> option Path -> IO A) w :
  fresh_temps w ->
  (forall audio temp w0, quiet w0 (snd (body audio temp w0))) ->
  (forall data arr w0,
      audio_input = InputBytes data -> decode_wav_bytes = true ->
      _decode_wav_bytes_to_array wave_open data 16000 = Some arr ->
      exists a, fst (body (AudioArray arr) None w0) = Ok a) ->
  tidy w (snd (with_prepare_audio_input wave_open audio_input decode_wav_bytes body w)).
Proof.
  intros Hf Hbody Hkeep.
  assert (Hplain : forall audio w0, quiet w w0 ->
            tidy w (snd (attempt (body audio None) (leave None) w0))).
  { intros audio w0 Hq. unfold attempt. pose proof (Hbody audio None w0) as Hb.
    destruct (body audio None w0) as [r w1]. cbn [snd] in Hb.
    apply quiet_tidy. destruct r; exact (quiet_trans _ _ _ Hq Hb). }
  assert (Htemp : forall data,
            tidy w (snd (and_then (write_temp_file data)
                           (fun p => attempt (body (AudioFile p) (Some p))
                                       (leave (Some p))) w))).
  { intros data. apply (temp_file_tidy data (fun p => body (AudioFile p) (Some p)) w Hf).
    intros p w0. apply Hbody. }
  destruct audio_input as [name | data | ndim is_float32 samples |];
    unfold with_prepare_audio_input.
  - unfold and_then at 1, path_exists.
    destruct (bool_decide (UserPath name ∈ files w)); cbn [negb].
    + apply Hplain, quiet_refl.
    + apply quiet_tidy, quiet_refl.
  - destruct decode_wav_bytes; [| apply Htemp].
    destruct (_decode_wav_bytes_to_array wave_open data 16000) as [arr |] eqn:Hdec;
      [| apply Htemp].
    unfold attempt. pose proof (Hbody (AudioArray arr) None w) as Hb.
    destruct (Hkeep data arr w eq_refl eq_refl Hdec) as [a Ha].
    destruct (body (AudioArray arr) None w) as [[a' | e] w1]; cbn [fst snd] in Hb, Ha.
    + apply quiet_tidy. exact Hb.
    + discriminate Ha.
  - destruct (Nat.eqb ndim 1); cbn [negb]; [| apply quiet_tidy, quiet_refl].
    unfold and_then at 1.
    assert (Hw1 : quiet w (snd ((if is_float32 then pure tt
                                 else warn "Converting audio array to float32.") w))).
    { destruct is_float32; [apply quiet_refl | apply quiet_emit; discriminate]. }
    destruct ((if is_float32 then pure tt else warn _) w) as [[[] | e] w1] eqn:E1;
      cbn [snd] in Hw1; [| now apply quiet_tidy].
    destruct samples as [| x xs]; [now apply quiet_tidy |].
    unfold and_then at 1.
    assert (Hw2 : quiet w1 (snd ((if exceeds_unit (x :: xs)
                                  then warn "Audio array values exceed [-1.0, 1.0]. Consider normalizing."
                                  else pure tt) w1))).
    { destruct (exceeds_unit (x :: xs)); [apply quiet_emit; discriminate | apply quiet_refl]. }
    destruct ((if exceeds_unit (x :: xs) then warn _ else pure tt) w1) as [[[] | e] w2] eqn:E2;
      cbn [snd] in Hw2; [| apply quiet_tidy; eapply quiet_trans; eauto].
    unfold and_then at 1, warn at 1.
    pose proof (quiet_emit (Warned "Ensure numpy array is sampled at 16kHz mono for best results.") w2
                  ltac:(discriminate)) as Hw3.
    destruct (emit _ w2) as [[[] | e] w3] eqn:E3; cbn [snd] in Hw3.
    + apply Hplain. eauto using quiet_trans.
    + apply quiet_tidy. eauto using quiet_trans.
  - apply quiet_tidy, quiet_refl.
Qed.

Lemma consume_quiet audio pending index w :
  quiet w (snd (consume audio index pending w)).
Proof.
  rewrite consume_spec. cbn [snd]. repeat split.
  exists (read_events (audio_there audio w) index (length pending)).
  split; [reflexivity |].
  intros p Hin. unfold read_events in Hin. apply in_map_iff in Hin.
  destruct Hin as (j & Hj & _). discriminate Hj.
Qed.

End HygieneFacts.

Lemma fresh_temps_empty_world : fresh_temps empty_world.
Proof. intros n _. apply not_elem_of_nil. Qed.

Lemma reliable_dependable : dependable AudioIO.reliable.
Proof. split; intros; reflexivity. Qed.

(** X16: [transcribe_with_model] leaks no temporary file as long as the file
    system lets it write and delete them.  Whatever the input is and
    whatever the library answers, on every path but the one on which the
    library fails on audio decoded in memory, and whether the call returns
    or raises, the files that exist afterwards are the files that existed
    before, every temporary file the call made has been deleted by it, and
    the next call starts from a state as clean as this one did. *)
Theorem transcribe_with_model_leaves_no_file (fs : AudioIO.FileSystem)
    (wave_open : list Byte.byte -> option AudioIO.WaveFile)
    (model : Transcription.Model) (audio_input : AudioIO.AudioInput)
    (language : option string) (task : string) (vad_filter : bool)
    (beam_size : Z) (return_meta decode_wav_bytes : bool) (w : AudioIO.World) :
  dependable fs ->
  thrown_into_fallback wave_open model audio_input language task vad_filter beam_size
    decode_wav_bytes = false ->
  fresh_temps w ->
  let w' := snd (Transcription.transcribe_with_model wave_open model audio_input
                   language task vad_filter beam_size return_meta decode_wav_bytes w) in
  AudioIO.files w' = AudioIO.files w
  /\ fresh_temps w'
  /\ exists evs, AudioIO.trace w' = (AudioIO.trace w ++ evs)%list /\ cleaned_up evs.
Proof.
  intros Hfs Hpath Hf w'.
  assert (Hquiet : forall audio (temp : option AudioIO.Path) w0,
            quiet w0 (snd (AudioIO.and_then (AudioIO.emit (AudioIO.LibraryCalled audio))
                             (fun _ =>
                                match model audio language task vad_filter beam_size with
                                | inl msg =>
                                    AudioIO.raise
                                      (AudioIO.RuntimeError
                                         ("Transcription failed: " ++ msg)%string)
                                | inr (segments, info) =>
                                    AudioIO.pure
                                      ({| Transcription.source := audio;
                                          Transcription.pending := segments |}, info)
                                end) w0))).
  { intros audio temp w0. unfold AudioIO.and_then, AudioIO.emit.
    destruct (model audio language task vad_filter beam_size) as [msg | [s i]];
      cbn [snd]; repeat split; exists [AudioIO.LibraryCalled audio];
      (split; [reflexivity | intros p [Hq | []]; discriminate Hq]). }
  assert (Ht : tidy w w').
  { subst w'. unfold Transcription.transcribe_with_model, AudioIO.and_then at 1.
    match goal with
    | |- context [AudioIO.with_prepare_audio_input ?wo ?a ?d ?body w] =>
        assert (Hp : tidy w (snd (AudioIO.with_prepare_audio_input wo a d body w)));
        [| destruct (AudioIO.with_prepare_audio_input wo a d body w)
             as [[[segs info] | e] w1]]
    end.
    - apply (with_prepare_tidy Hfs); [exact Hf | exact Hquiet |].
      intros data arr w0 -> -> Hdec. cbn [thrown_into_fallback] in Hpath.
      rewrite Hdec in Hpath. unfold AudioIO.and_then, AudioIO.emit.
      destruct (model (AudioIO.AudioArray arr) language task vad_filter beam_size)
        as [msg | [s i]]; [discriminate Hpath | eexists; reflexivity].
    - cbn [snd] in Hp. unfold AudioIO.and_then.
      pose proof (consume_quiet (Transcription.source segs) (Transcription.pending segs)
                    0 w1) as Hc.
      destruct (Transcription.consume _ 0 _ w1) as [[got | e] w2]; cbn [snd] in Hc.
      + destruct return_meta; cbn [negb snd AudioIO.pure];
          exact (tidy_then_quiet _ _ _ Hp Hc).
      + exact (tidy_then_quiet _ _ _ Hp Hc).
    - exact Hp. }
  split; [apply Ht |]. split; [exact (tidy_fresh _ _ Hf Ht) | apply Ht].
Qed.

Lemma transcribe_with_model_leaves_no_file_witness :
  AudioIO.files
    (snd (Transcription.transcribe_with_model not_a_wave_file two_segment_model
            (AudioIO.InputBytes not_a_wav) None "transcribe" true 5 false true
            empty_world))
  = [].
Proof.
  apply (transcribe_with_model_leaves_no_file AudioIO.reliable not_a_wave_file
           two_segment_model (AudioIO.InputBytes not_a_wav) None "transcribe" true 5
           false true empty_world reliable_dependable eq_refl fresh_temps_empty_world).
Defined.

(** ** faster_whisper_stt/transcriber.py: the first driver *)
Section LegacyFacts.
Import AudioIO Transcription.
Local Open Scope list_scope.
Context {fs : FileSystem}.
Hypothesis dependable_fs : dependable fs.

Lemma run_transcription_quiet model model_name audio language task vad_filter
    beam_size return_meta w :
  quiet w (snd (LegacyTranscriber.run_transcription model model_name audio language
                  task vad_filter beam_size return_meta w)).
Proof.
  unfold LegacyTranscriber.run_transcription, and_then at 1, emit.
  set (w1 := {| files := files w; temp_counter := temp_counter w;
                trace := trace w ++ [LibraryCalled audio] |}).
  assert (Hq : quiet w w1).
  { repeat split. exists [LibraryCalled audio].
    split; [reflexivity | intros p [Hp | []]; discriminate Hp]. }
  destruct (model audio language task vad_filter beam_size) as [msg | [segs info]].
  - exact Hq.
  - unfold and_then. pose proof (consume_quiet audio segs 0 w1) as Hc.
    destruct (consume audio 0 segs w1) as [[got | e] w2]; cbn [snd] in Hc.
    + destruct return_meta; cbn [negb snd pure]; exact (quiet_trans _ _ _ Hq Hc).
    + exact (quiet_trans _ _ _ Hq Hc).
Qed.

Lemma legacy_transcribe_tidy model model_name audio_input language task vad_filter
    beam_size return_meta w :
  fresh_temps w ->
  tidy w (snd (LegacyTranscriber.transcribe model model_name audio_input language
                 task vad_filter beam_size return_meta w)).
Proof.
  intros Hf.
  assert (Hplain : forall audio w0, quiet w w0 ->
            tidy w (snd (attempt (LegacyTranscriber.run_transcription model model_name
                                    audio language task vad_filter beam_size return_meta)
                           (leave None) w0))).
  { intros audio w0 Hq. unfold attempt.
    pose proof (run_transcription_quiet model model_name audio language task vad_filter
                  beam_size return_meta w0) as Hb.
    destruct (LegacyTranscriber.run_transcription _ _ _ _ _ _ _ _ w0) as [r w1].
    cbn [snd] in Hb. apply quiet_tidy. destruct r; exact (quiet_trans _ _ _ Hq Hb). }
  destruct audio_input as [name | data | ndim is_float32 samples |];
    unfold LegacyTranscriber.transcribe.
  - unfold and_then at 1, path_exists.
    destruct (bool_decide (UserPath name ∈ files w)); cbn [negb].
    + apply Hplain, quiet_refl.
    + apply quiet_tidy, quiet_refl.
  - apply (temp_file_tidy dependable_fs data
             (fun p => LegacyTranscriber.run_transcription model model_name (AudioFile p)
                         language task vad_filter beam_size return_meta) w Hf).
    intros p w0. apply run_transcription_quiet.
  - destruct (Nat.eqb ndim 1); cbn [negb]; [| apply quiet_tidy, quiet_refl].
    unfold and_then at 1.
    assert (Hw1 : quiet w (snd ((if is_float32 then pure tt
                                 else warn "Converting audio array to float32.") w))).
    { destruct is_float32; [apply quiet_refl | apply quiet_emit; discriminate]. }
    destruct ((if is_float32 then pure tt else warn _) w) as [[[] | e] w1] eqn:E1;
      cbn [snd] in Hw1; [| now apply quiet_tidy].
    destruct samples as [| x xs]; [now apply quiet_tidy |].
    unfold and_then at 1.
    match goal with
    | |- context [(if exceeds_unit (x :: xs) then warn ?msg else pure tt) w1] =>
        assert (Hw2 : quiet w1 (snd ((if exceeds_unit (x :: xs) then warn msg
                                      else pure tt) w1)))
          by (destruct (exceeds_unit (x :: xs));
              [apply quiet_emit; discriminate | apply quiet_refl]);
        destruct ((if exceeds_unit (x :: xs) then warn msg else pure tt) w1)
          as [[[] | e] w2] eqn:E2
    end; cbn [snd] in Hw2; [| apply quiet_tidy; eapply quiet_trans; eauto].
    unfold and_then at 1, warn at 1.
    match goal with
    | |- context [emit ?ev w2] =>
        pose proof (quiet_emit ev w2 ltac:(discriminate)) as Hw3;
        destruct (emit ev w2) as [[[] | e] w3] eqn:E3
    end; cbn [snd] in Hw3.
    + apply Hplain. eauto using quiet_trans.
    + apply quiet_tidy. eauto using quiet_trans.
  - apply quiet_tidy, quiet_refl.
Qed.

End LegacyFacts.

(** X17: the first driver reads the segments before it cleans up.  For
    bytes, [WhisperSTT.transcribe] writes the temporary file, calls the
    library on it, reads every segment while the file still exists, and only
    then deletes it; the files are what they were, and the text is the
    trimmed segment texts joined by single spaces. *)
Theorem legacy_transcribe_reads_before_cleanup
    (model : Transcription.Model) (model_name : string) (data : list Byte.byte)
    (language : option string) (task : string) (vad_filter : bool) (beam_size : Z)
    (segments : list Transcription.Segment) (info : Transcription.Info)
    (w : AudioIO.World) :
  fresh_temps w ->
  let p := AudioIO.TempPath (AudioIO.temp_counter w) in
  model (AudioIO.AudioFile p) language task vad_filter beam_size = inr (segments, info) ->
  LegacyTranscriber.transcribe model model_name (AudioIO.InputBytes data) language task
    vad_filter beam_size false w
  = (AudioIO.Ok
       (inl (Transcription.strip
               (Transcription.join_spaces
                  (map (fun seg => Transcription.strip (Transcription.seg_text seg))
                       segments)))),
     {| AudioIO.files := AudioIO.files w;
        AudioIO.temp_counter := S (AudioIO.temp_counter w);
        AudioIO.trace :=
          (AudioIO.trace w
           ++ [AudioIO.TempCreated p; AudioIO.LibraryCalled (AudioIO.AudioFile p)]
           ++ read_events true 0 (length segments)
           ++ [AudioIO.TempDeleted p])%list |}).
Proof.
  intros Hf p Hmodel.
  unfold LegacyTranscriber.transcribe, AudioIO.and_then at 1, AudioIO.write_temp_file.
  cbn [AudioIO.write_fails AudioIO.reliable]. cbv zeta.
  fold p. unfold AudioIO.attempt at 1, LegacyTranscriber.run_transcription.
  unfold AudioIO.and_then at 1, AudioIO.emit. rewrite Hmodel.
  unfold AudioIO.and_then at 1. rewrite consume_spec.
  cbn [negb AudioIO.pure AudioIO.files AudioIO.temp_counter AudioIO.trace].
  unfold Transcription.audio_there. cbn [AudioIO.files].
  rewrite bool_decide_eq_true_2 by left.
  unfold AudioIO.leave, AudioIO.and_then at 1, AudioIO.cleanup, AudioIO.and_then,
    AudioIO.path_exists.
  cbn [AudioIO.files]. rewrite bool_decide_eq_true_2 by left.
  unfold AudioIO.attempt, AudioIO.unlink, AudioIO.pure.
  cbn [AudioIO.unlink_fails AudioIO.reliable AudioIO.files AudioIO.temp_counter
       AudioIO.trace].
  rewrite filter_cons_False by (intros H; now apply H).
  rewrite filter_absent by (apply Hf; lia).
  rewrite <- !app_assoc. reflexivity.
Qed.

Lemma legacy_transcribe_reads_before_cleanup_witness :
  LegacyTranscriber.transcribe two_segment_model "base" (AudioIO.InputBytes not_a_wav)
    None "transcribe" true 5 false empty_world
  = (AudioIO.Ok (inl "Hello world."),
     {| AudioIO.files := [];
        AudioIO.temp_counter := 1;
        AudioIO.trace :=
          [ AudioIO.TempCreated (AudioIO.TempPath 0);
            AudioIO.LibraryCalled (AudioIO.AudioFile (AudioIO.TempPath 0));
            AudioIO.SegmentRead 0 true;
            AudioIO.SegmentRead 1 true;
            AudioIO.TempDeleted (AudioIO.TempPath 0) ] |}).
Proof.
  exact (legacy_transcribe_reads_before_cleanup two_segment_model "base" not_a_wav
           None "transcribe" true 5 _ _ empty_world fresh_temps_empty_world eq_refl).
Defined.


(** X18: the second driver without in-memory decoding answers like the first
    one.  For a path, bytes or an array, [transcribe_with_model] with
    [decode_wav_bytes=False] returns the text, or raises the exception, that
    [WhisperSTT.transcribe] returns or raises on the same input with the same
    library, and leaves the same files and the same number of temporary
    files made. *)
Theorem transcribe_with_model_agrees_with_legacy
    (wave_open : list Byte.byte -> option AudioIO.WaveFile)
    (model : Transcription.Model) (model_name : string)
    (audio_input : AudioIO.AudioInput)
    (language : option string) (task : string) (vad_filter : bool) (beam_size : Z)
    (w : AudioIO.World) :
  audio_input <> AudioIO.InputOther ->
  let new := Transcription.transcribe_with_model wave_open model audio_input language
               task vad_filter beam_size false false w in
  let old := LegacyTranscriber.transcribe model model_name audio_input language task
               vad_filter beam_size false w in
  outcome_text (fst new) = outcome_text (fst old)
  /\ AudioIO.files (snd new) = AudioIO.files (snd old)
  /\ AudioIO.temp_counter (snd new) = AudioIO.temp_counter (snd old).
Proof.
  intros Hin new old. subst new old.
  destruct audio_input as [name | data | ndim is_float32 samples |]; [| | | congruence];
    cbv beta iota zeta delta
      [Transcription.transcribe_with_model LegacyTranscriber.transcribe
       AudioIO.with_prepare_audio_input LegacyTranscriber.run_transcription
       AudioIO.and_then AudioIO.path_exists AudioIO.write_temp_file AudioIO.attempt
       AudioIO.leave AudioIO.cleanup AudioIO.unlink AudioIO.warn AudioIO.emit
       AudioIO.pure AudioIO.raise AudioIO.write_fails AudioIO.unlink_fails
       AudioIO.reliable negb].
  - destruct (bool_decide (AudioIO.UserPath name ∈ AudioIO.files w));
      [| repeat split].
    destruct (model _ language task vad_filter beam_size) as [msg | [segs info]];
      [repeat split |].
    cbn [Transcription.source Transcription.pending].
    rewrite !consume_spec. repeat split.
  - cbn [AudioIO.files AudioIO.temp_counter AudioIO.trace].
    destruct (model _ language task vad_filter beam_size) as [msg | [segs info]].
    + cbn [AudioIO.files]. rewrite !bool_decide_eq_true_2 by left. repeat split.
    + cbn [AudioIO.files Transcription.source Transcription.pending].
      rewrite !consume_spec. cbn [AudioIO.files].
      rewrite !bool_decide_eq_true_2 by left.
      rewrite !consume_spec. repeat split.
  - destruct (Nat.eqb ndim 1); [| repeat split].
    destruct is_float32; (destruct samples as [| x xs]; [repeat split |]);
      destruct (AudioIO.exceeds_unit (x :: xs));
      (destruct (model _ language task vad_filter beam_size) as [msg | [segs info]];
       [repeat split |]);
      cbn [Transcription.source Transcription.pending];
      rewrite !consume_spec; repeat split.
Qed.

Lemma transcribe_with_model_agrees_with_legacy_witness :
  outcome_text
    (fst (Transcription.transcribe_with_model not_a_wave_file two_segment_model
            (AudioIO.InputBytes not_a_wav) None "transcribe" true 5 false false
            empty_world))
  = outcome_text
      (fst (LegacyTranscriber.transcribe two_segment_model "base"
              (AudioIO.InputBytes not_a_wav) None "transcribe" true 5 false empty_world)).
Proof.
  apply (transcribe_with_model_agrees_with_legacy not_a_wave_file two_segment_model
           "base" (AudioIO.InputBytes not_a_wav) None "transcribe" true 5 empty_world).
  discriminate.
Defined.

(** X19: the first driver leaks no temporary file either, as long as the
    file system lets it write and delete them: on every input and whether
    the call returns or raises, the files afterwards are the files before
    and every temporary file made has been deleted. *)
Theorem legacy_transcribe_leaves_no_file (fs : AudioIO.FileSystem)
    (model : Transcription.Model) (model_name : string)
    (audio_input : AudioIO.AudioInput)
    (language : option string) (task : string) (vad_filter : bool)
    (beam_size : Z) (return_meta : bool) (w : AudioIO.World) :
  dependable fs ->
  fresh_temps w ->
  let w' := snd (LegacyTranscriber.transcribe model model_name audio_input language
                   task vad_filter beam_size return_meta w) in
  AudioIO.files w' = AudioIO.files w
  /\ fresh_temps w'
  /\ exists evs, AudioIO.trace w' = (AudioIO.trace w ++ evs)%list /\ cleaned_up evs.
Proof.
  intros Hfs Hf w'.
  pose proof (legacy_transcribe_tidy Hfs model model_name audio_input language task
                vad_filter beam_size return_meta w Hf) as Ht.
  fold w' in Ht.
  split; [apply Ht |]. split; [exact (tidy_fresh _ _ Hf Ht) | apply Ht].
Qed.

Lemma legacy_transcribe_leaves_no_file_witness :
  AudioIO.files
    (snd (LegacyTranscriber.transcribe two_segment_model "base"
            (AudioIO.InputBytes not_a_wav) None "transcribe" true 5 true empty_world))
  = [].
Proof.
  apply (legacy_transcribe_leaves_no_file AudioIO.reliable two_segment_model "base"
           (AudioIO.InputBytes not_a_wav) None "transcribe" true 5 true
           empty_world reliable_dependable fresh_temps_empty_world).
Defined.

(** X20: what the caller learns when the library fails on bytes.  If the
    bytes went to a temporary file, the caller gets [RuntimeError] with the
    library's message behind [Transcription failed: ].  If they were decoded
    in memory, the exception thrown into the generator is caught by the
    fallback clause, which writes the temporary file and yields again: the
    caller gets [RuntimeError("generator didn't stop after throw()")], the
    library's message is lost, and the library is never called on the
    file, which goes away when the generator is closed. *)
Theorem library_failure_on_bytes
    (wave_open : list Byte.byte -> option AudioIO.WaveFile)
    (model : Transcription.Model) (data : list Byte.byte)
    (language : option string) (task : string) (vad_filter : bool)
    (beam_size : Z) (return_meta decode_wav_bytes : bool) (msg : string)
    (w : AudioIO.World) :
  (forall audio, model audio language task vad_filter beam_size = inl msg) ->
  let p := AudioIO.TempPath (AudioIO.temp_counter w) in
  let out := Transcription.transcribe_with_model wave_open model (AudioIO.InputBytes data)
               language task vad_filter beam_size return_meta decode_wav_bytes w in
  match AudioIO._decode_wav_bytes_to_array wave_open data 16000 with
  | Some arr =>
      if decode_wav_bytes then
        fst out = AudioIO.Raise
                    (AudioIO.RuntimeError "generator didn't stop after throw()")
        /\ AudioIO.trace (snd out)
           = (AudioIO.trace w
              ++ [AudioIO.LibraryCalled (AudioIO.AudioArray arr);
                  AudioIO.TempCreated p; AudioIO.TempDeleted p])%list
      else
        fst out = AudioIO.Raise
                    (AudioIO.RuntimeError ("Transcription failed: " ++ msg))
        /\ AudioIO.trace (snd out)
           = (AudioIO.trace w
              ++ [AudioIO.TempCreated p; AudioIO.LibraryCalled (AudioIO.AudioFile p);
                  AudioIO.TempDeleted p])%list
  | None =>
      fst out = AudioIO.Raise (AudioIO.RuntimeError ("Transcription failed: " ++ msg))
      /\ AudioIO.trace (snd out)
         = (AudioIO.trace w
            ++ [AudioIO.TempCreated p; AudioIO.LibraryCalled (AudioIO.AudioFile p);
                AudioIO.TempDeleted p])%list
  end.
Proof.
  intros Hfail p out. subst out.
  cbv beta iota zeta delta
    [Transcription.transcribe_with_model AudioIO.with_prepare_audio_input
     AudioIO.and_then AudioIO.write_temp_file AudioIO.attempt AudioIO.leave
     AudioIO.cleanup AudioIO.path_exists AudioIO.unlink AudioIO.emit AudioIO.pure
     AudioIO.raise AudioIO.write_fails AudioIO.unlink_fails AudioIO.reliable].
  destruct (AudioIO._decode_wav_bytes_to_array wave_open data 16000) as [arr |];
    destruct decode_wav_bytes; rewrite !Hfail;
    cbn [AudioIO.files AudioIO.temp_counter AudioIO.trace];
    rewrite !bool_decide_eq_true_2 by left;
    cbn [fst snd AudioIO.trace]; rewrite <- !app_assoc; split; reflexivity.
Qed.

Lemma library_failure_on_bytes_witness :
  fst (Transcription.transcribe_with_model (fun _ => Some three_frames_8k)
         (fun _ _ _ _ _ => inl "out of memory") (AudioIO.InputBytes not_a_wav)
         None "transcribe" true 5 false true empty_world)
  = AudioIO.Raise (AudioIO.RuntimeError "generator didn't stop after throw()").
Proof.
  pose proof (library_failure_on_bytes (fun _ => Some three_frames_8k)
                (fun _ _ _ _ _ => inl "out of memory") not_a_wav
                None "transcribe" true 5 false true "out of memory" empty_world
                (fun _ => eq_refl)) as H.
  destruct (AudioIO._decode_wav_bytes_to_array (fun _ => Some three_frames_8k)
              not_a_wav 16000) as [arr |] eqn:E; [| vm_compute in E; discriminate E].
  exact (proj1 H).
Defined.

(** X21: [return_meta] only changes the packaging.  With and without it the
    call does the same things to the files, in the same order, and raises the
    same exception or returns the same text, bare or under the key [text]. *)
Theorem return_meta_only_repackages
    (wave_open : list Byte.byte -> option AudioIO.WaveFile)
    (model : Transcription.Model) (audio_input : AudioIO.AudioInput)
    (language : option string) (task : string) (vad_filter : bool)
    (beam_size : Z) (decode_wav_bytes : bool) (w : AudioIO.World) :
  let bare := Transcription.transcribe_with_model wave_open model audio_input language
                task vad_filter beam_size false decode_wav_bytes w in
  let meta := Transcription.transcribe_with_model wave_open model audio_input language
                task vad_filter beam_size true decode_wav_bytes w in
  snd meta = snd bare
  /\ match fst bare, fst meta with
     | AudioIO.Ok (inl text), AudioIO.Ok (inr result) =>
         Transcription.r_text result = text
     | AudioIO.Raise e, AudioIO.Raise e' => e = e'
     | _, _ => False
     end.
Proof.
  intros bare meta. subst bare meta.
  unfold Transcription.transcribe_with_model.
  match goal with
  | |- context [AudioIO.with_prepare_audio_input ?a ?b ?c ?d] =>
      set (prep := AudioIO.with_prepare_audio_input a b c d)
  end.
  unfold AudioIO.and_then.
  destruct (prep w) as [[[segs info] | e] w1]; [| split; reflexivity].
  rewrite !consume_spec.
  cbn [negb AudioIO.pure fst snd Transcription.r_text]. split; reflexivity.
Qed.

(** ** audio_io.py: the 24-bit branch *)

(** X22: the hand-written 24-bit branch reads two's complement.  OR-ing the
    three bytes of a sample together and subtracting twice the masked sign
    bit gives, for every sample of every payload whose size is a multiple of
    three, the little-endian signed 24-bit number: what [np.frombuffer]
    would return if numpy had a 24-bit integer type. *)
Theorem sign_extend_24_is_frombuffer (raw : list Byte.byte) :
  option_map (map AudioIO.sign_extend_24) (AudioIO.reshape 3 raw)
  = AudioIO.frombuffer_int 3 raw.
Proof.
  unfold AudioIO.frombuffer_int, AudioIO.reshape.
  destruct (Nat.eqb_spec 3 0) as [H30 | _]; [discriminate H30 |].
  destruct (Nat.eqb_spec (length raw mod 3) 0) as [Hmod | _]; [| reflexivity].
  cbn [option_map]. f_equal.
  assert (Hlen : length raw = (length raw / 3 * 3)%nat).
  { pose proof (Nat.div_mod_eq (length raw) 3). lia. }
  pose proof (rows_width 3 (length raw / 3) raw Hlen) as Hw.
  induction Hw as [| row rest Hrow _ IH]; [reflexivity |].
  cbn [map]. f_equal; [| exact IH].
  destruct row as [| a0 [| a1 [| a2 [| ? ?]]]]; try discriminate Hrow.
  apply sign_extend_24_twos_complement.
Qed.

(** ** transcription.py: the text that is returned *)


Section StripFacts.
Import Transcription.

Lemma lstrip_trimmed_left (s : string) : starts_with_space (lstrip s) = false.
Proof.
  induction s as [| c rest IH]; [reflexivity |].
  simpl. destruct (is_space c) eqn:E; [exact IH | simpl; exact E].
Qed.

Lemma rstrip_trimmed_right (s : string) : ends_with_space (rstrip s) = false.
Proof.
  induction s as [| c rest IH]; [reflexivity |].
  simpl. destruct (rstrip rest) as [| c' rest'] eqn:E.
  - destruct (is_space c) eqn:Ec; [reflexivity | simpl; exact Ec].
  - exact IH.
Qed.

Lemma rstrip_keeps_left (s : string) :
  starts_with_space s = false -> starts_with_space (rstrip s) = false.
Proof.
  destruct s as [| c rest]; [reflexivity |].
  simpl. intros Hc. destruct (rstrip rest); [rewrite Hc |]; simpl; exact Hc.
Qed.

Lemma strip_trimmed (s : string) : trimmed (strip s).
Proof.
  split; [apply rstrip_keeps_left, lstrip_trimmed_left | apply rstrip_trimmed_right].
Qed.

End StripFacts.

(** X23: the text that comes back is trimmed.  Whenever
    [transcribe_with_model] returns, the text, bare or under [text], neither
    begins nor ends with whitespace, nor does the text of any segment in the
    metadata; and the result is a bare text exactly when [return_meta] is
    false. *)
Theorem transcribe_with_model_text_is_trimmed
    (wave_open : list Byte.byte -> option AudioIO.WaveFile)
    (model : Transcription.Model) (audio_input : AudioIO.AudioInput)
    (language : option string) (task : string) (vad_filter : bool)
    (beam_size : Z) (return_meta decode_wav_bytes : bool) (w : AudioIO.World)
    (v : string + Transcription.MetaResult) :
  fst (Transcription.transcribe_with_model wave_open model audio_input language task
         vad_filter beam_size return_meta decode_wav_bytes w) = AudioIO.Ok v ->
  match v with
  | inl text => return_meta = false /\ trimmed text
  | inr result =>
      return_meta = true
      /\ trimmed (Transcription.r_text result)
      /\ Forall (fun d => trimmed (Transcription.d_text d))
                (Transcription.r_segments result)
  end.
Proof.
  unfold Transcription.transcribe_with_model.
  match goal with
  | |- context [AudioIO.with_prepare_audio_input ?a ?b ?c ?d] =>
      set (prep := AudioIO.with_prepare_audio_input a b c d)
  end.
  unfold AudioIO.and_then.
  destruct (prep w) as [[[segs info] | e] w1]; [| discriminate].
  rewrite consume_spec.
  destruct return_meta; cbn [negb AudioIO.pure fst]; intros H; injection H as <-.
  - split; [reflexivity |]. split; [apply strip_trimmed |].
    cbn [Transcription.r_segments]. apply Forall_map, Forall_forall.
    intros seg _. apply strip_trimmed.
  - split; [reflexivity | apply strip_trimmed].
Qed.

Lemma transcribe_with_model_text_is_trimmed_witness :
  trimmed "Hello world.".
Proof.
  exact (proj2 (transcribe_with_model_text_is_trimmed not_a_wave_file two_segment_model
                  (AudioIO.InputBytes not_a_wav) None "transcribe" true 5 false true
                  empty_world (inl "Hello world.") eq_refl)).
Defined.

(** ** registry.py and service.py: calls that follow one another *)

(** X24: [get_or_create] called twice in a row.  On a key that is not cached
    and whose lock is free, a call whose constructor returns caches the new
    model and leaves the lock released.  With a [concurrency] that
    [asyncio.Semaphore] accepts it returns the model and installs the
    semaphore unless one was there; with a negative one it raises, the model
    cached and no semaphore installed.  Either way the next call for the
    key, with whatever [concurrency], returns the cached object without
    calling the constructor and changes nothing.  A call whose constructor
    raises leaves the key uncached, its lock released and the semaphores
    alone, so that the next call tries again. *)
Theorem get_or_create_twice
    (r : Registry.WhisperModelRegistry) (log : list (Registry.ModelKey * bool))
    (k : Registry.ModelKey) (c c' : option Z) (ok' : bool) :
  Registry._models r !! k = None ->
  Registry._locks r !! k <> Some true ->
  let refused := (Registry.concurrency_or_1 c <? 0)%Z in
  (exists r1,
      Service.get_or_create r log k c true
      = Some (r1, (log ++ [(k, true)])%list,
              if refused then None else Some (length log))
      /\ Service.get_or_create r1 (log ++ [(k, true)])%list k c' ok'
         = Some (r1, (log ++ [(k, true)])%list, Some (length log))
      /\ Registry._locks r1 !! k = Some false
      /\ Registry._semaphores r1 !! k
         = if refused then Registry._semaphores r !! k
           else Some (default (Registry.concurrency_or_1 c)
                              (Registry._semaphores r !! k)))
  /\ (exists r1,
      Service.get_or_create r log k c false = Some (r1, (log ++ [(k, false)])%list, None)
      /\ Registry._models r1 !! k = None
      /\ Registry._locks r1 !! k = Some false
      /\ Registry._semaphores r1 = Registry._semaphores r).
Proof.
  intros Hm Hl refused. subst refused. split.
  - destruct (Z.ltb_spec (Registry.concurrency_or_1 c) 0) as [Hneg | Hpos].
    + rewrite (get_or_create_refused r log k c Hm Hl Hneg).
      eexists. split; [reflexivity |].
      split; [apply get_or_create_hit; cbn [Registry._models]; apply lookup_insert_eq |].
      cbn [Registry._locks Registry._semaphores].
      split; [unfold released; apply lookup_insert_eq | reflexivity].
    + rewrite (get_or_create_miss r log k c true Hm Hl Hpos).
      eexists. split; [reflexivity |].
      split; [apply get_or_create_hit; cbn [Registry._models]; apply lookup_insert_eq |].
      cbn [Registry._locks Registry._semaphores].
      split; [unfold released; apply lookup_insert_eq |].
      rewrite lookup_setdefault.
      destruct (Registry._semaphores r !! k); [reflexivity |].
      now rewrite decide_True.
  - rewrite (get_or_create_ctor_raises r log k c Hm Hl).
    eexists. split; [reflexivity |].
    cbn [Registry._models Registry._locks Registry._semaphores].
    split; [exact Hm |]. split; [unfold released; apply lookup_insert_eq | reflexivity].
Qed.

Lemma get_or_create_twice_witness :
  exists r1,
    Service.get_or_create Registry.__init__ [] base_cpu (Some 3%Z) true
    = Some (r1, [(base_cpu, true)], Some 0%nat)
    /\ Service.get_or_create r1 [(base_cpu, true)] base_cpu None false
       = Some (r1, [(base_cpu, true)], Some 0%nat)
    /\ Registry._locks r1 !! base_cpu = Some false
    /\ Registry._semaphores r1 !! base_cpu = Some 3%Z.
Proof.
  assert (Hm : Registry._models Registry.__init__ !! base_cpu = None)
    by (vm_compute; reflexivity).
  assert (Hl : Registry._locks Registry.__init__ !! base_cpu <> Some true)
    by (vm_compute; discriminate).
  exact (proj1 (get_or_create_twice Registry.__init__ [] base_cpu (Some 3%Z) None false
                  Hm Hl)).
Defined.

Lemma get_or_create_returns_cached r log k c ok r' log' m :
  Service.get_or_create r log k c ok = Some (r', log', Some m) ->
  Registry._models r' !! k = Some m.
Proof.
  intros H.
  destruct (Registry._models r !! k) as [m0 |] eqn:Hm.
  - rewrite (get_or_create_hit r log k c ok m0 Hm) in H. now injection H as <- _ <-.
  - destruct (decide (Registry._locks r !! k = Some true)) as [Hl | Hl].
    + rewrite (get_or_create_waits r log k c ok Hm Hl) in H. discriminate H.
    + destruct (Z.ltb_spec (Registry.concurrency_or_1 c) 0) as [Hneg | Hpos].
      * destruct ok.
        -- rewrite (get_or_create_refused r log k c Hm Hl Hneg) in H. discriminate H.
        -- rewrite (get_or_create_ctor_raises r log k c Hm Hl) in H. discriminate H.
      * rewrite (get_or_create_miss r log k c ok Hm Hl Hpos) in H.
        destruct ok; [| discriminate H].
        injection H as <- _ <-. cbn [Registry._models]. apply lookup_insert_eq.
Qed.


(** X25: the input is looked at last.  A request whose audio is of no
    supported kind is never transcribed and touches no file, but it is
    turned away only after admission and after the model has been fetched or
    built: when the caller gets the input's [TypeError] or [ValueError], the
    model for the key is in the cache. *)
Theorem transcribe_async_validates_last
    (world : nat -> HwProbe.Machine)
    (library : Registry.WhisperModel -> Transcription.Model)
    (wave_open : list Byte.byte -> option AudioIO.WaveFile)
    (resources : Resources.ResourceManager) (st st' : Service.Running)
    (model_name device compute_type : string) (audio_input : AudioIO.AudioInput)
    (options : option Service.TranscribeOptions) (ctor_ok : bool)
    (bad : AudioIO.Error) (o : Service.Outcome) :
  let key := Registry._key (world (Service.clock st)) model_name device compute_type in
  malformed audio_input = Some bad ->
  Service.transcribe_async world library wave_open resources st model_name device
    compute_type audio_input options ctor_ok = (o, st') ->
  Service.disk st' = Service.disk st
  /\ (forall v, o <> Service.Returned v)
  /\ (forall e, o = Service.TranscriptionRaised e ->
                e = bad /\ is_Some (Registry._models (Service.registry st') !! key)).
Proof.
  intros key Hbad H. rewrite transcribe_async_unfold in H.
  rewrite key_of_resolved in H. fold key in H.
  assert (Hraise : forall model language task vad_filter beam_size return_meta
                          decode_wav_bytes w,
            Transcription.transcribe_with_model wave_open model audio_input language
              task vad_filter beam_size return_meta decode_wav_bytes w
            = (AudioIO.Raise bad, w)).
  { intros. unfold Transcription.transcribe_with_model, AudioIO.and_then at 1,
      AudioIO.with_prepare_audio_input.
    destruct audio_input as [| | ndim f32 samples |]; try discriminate Hbad;
      cbn [malformed] in Hbad.
    - destruct (Nat.eqb ndim 1); [discriminate Hbad |]. now injection Hbad as <-.
    - now injection Hbad as <-. }
  match type of H with
  | (if ?b then _ else _) = _ => destruct b
  end; [| injection H as <- <-; repeat split; discriminate].
  destruct (Service.get_or_create _ _ key _ ctor_ok) as [[[r log] [model |]] |] eqn:Hg;
    try (injection H as <- <-; repeat split; discriminate).
  destruct (fst (Registry.get_semaphore r key) <=? 0)%Z;
    [injection H as <- <-; repeat split; discriminate |].
  cbv zeta in H. rewrite Hraise in H. cbn [fst snd] in H.
  injection H as <- <-. cbn [Service.disk Service.registry].
  split; [reflexivity |]. split; [discriminate |].
  intros e He. injection He as <-. split; [reflexivity |].
  unfold Registry.get_semaphore. cbn [snd Registry._models].
  rewrite (get_or_create_returns_cached _ _ _ _ _ _ _ _ Hg). eauto.
Qed.

Lemma transcribe_async_validates_last_witness :
  exists o st',
    Service.transcribe_async (steady_cpu_machine 16) two_segment_library not_a_wave_file
      Resources.default_manager fresh_service "base" "auto" "auto"
      AudioIO.InputOther None true = (o, st')
    /\ Service.disk st' = empty_world
    /\ (forall v, o <> Service.Returned v).
Proof.
  destruct (Service.transcribe_async (steady_cpu_machine 16) two_segment_library
              not_a_wave_file Resources.default_manager fresh_service "base" "auto" "auto"
              AudioIO.InputOther None true) as [o st'] eqn:E.
  exists o, st'. split; [reflexivity |].
  destruct (transcribe_async_validates_last (steady_cpu_machine 16) two_segment_library
              not_a_wave_file Resources.default_manager fresh_service st' "base" "auto"
              "auto" AudioIO.InputOther None true _ o eq_refl E)
    as (H1 & H2 & _).
  split; [exact H1 | exact H2].
Defined.

(** ** audio_io.py: the resampler *)


Section ResampleFacts.
Import AudioIO.
Local Open Scope list_scope.

Lemma interp_from_between (lo hi x : Q) (knots : list (Q * Q)) : forall x0 y0,
  x0 <= x -> between lo hi y0 -> Forall (fun k => between lo hi (snd k)) knots ->
  between lo hi (interp_from x x0 y0 knots).
Proof.
  induction knots as [| [x1 y1] later IH]; intros x0 y0 Hx Hy0 Hall; simpl.
  - exact Hy0.
  - inversion Hall as [| k l Hy1 Hlater]; subst. simpl in Hy1.
    destruct (Qlt_bool x x1) eqn:E.
    + apply Qlt_bool_iff in E.
      assert (Hd : 0 < x1 - x0) by lra.
      set (q := (y1 - y0) / (x1 - x0)).
      assert (Hq : q * (x1 - x0) == y1 - y0).
      { unfold q. field. lra. }
      destruct Hy0 as [Hlo0 Hhi0], Hy1 as [Hlo1 Hhi1].
      unfold between.
      destruct (Qlt_le_dec q 0) as [Hneg | Hpos].
      * assert (q * (x1 - x0) <= q * (x - x0)) by nra.
        assert (q * (x - x0) <= 0) by nra. lra.
      * assert (q * (x - x0) <= q * (x1 - x0)) by nra.
        assert (0 <= q * (x - x0)) by nra. lra.
    + apply Qlt_bool_false in E. now apply IH.
Qed.

Lemma combine_between (lo hi : Q) (xp fp : list Q) :
  Forall (between lo hi) fp ->
  Forall (fun k => between lo hi (snd k)) (combine xp fp).
Proof.
  intros Hall. revert xp. induction Hall as [| y fp Hy _ IH]; intros [| x xp];
    simpl; constructor; auto.
Qed.

Lemma interp_between (lo hi x : Q) (xp fp : list Q) :
  xp <> [] -> fp <> [] ->
  Forall (between lo hi) fp -> between lo hi (interp x xp fp).
Proof.
  intros Hxp Hfp Hall. unfold interp.
  pose proof (combine_between lo hi xp fp Hall) as Hk.
  destruct xp as [| x0 xp]; [congruence |]. destruct fp as [| y0 fp]; [congruence |].
  cbn [combine] in *.
  inversion Hk as [| k l Hy0 Hlater]; subst. simpl in Hy0.
  destruct (Qlt_bool x x0) eqn:E; [exact Hy0 |].
  apply Qlt_bool_false in E. now apply interp_from_between.
Qed.

Lemma linspace_nonempty (n : nat) : n <> 0%nat -> linspace n <> [].
Proof.
  intros Hn H. apply (f_equal (@length Q)) in H. rewrite linspace_length in H.
  simpl in H. congruence.
Qed.

(** The first point of both grids is 0, where the interpolant is the first
    sample. *)
Lemma interp_at_origin (n : nat) (y0 : Q) (rest : list Q) (k : nat) :
  interp (inject_Z (Z.of_nat 0) * (1 / inject_Z (Z.of_nat k)))
         (linspace (S n)) (y0 :: rest) == y0.
Proof.
  unfold interp, linspace. cbn [seq map combine].
  set (x := inject_Z (Z.of_nat 0) * (1 / inject_Z (Z.of_nat k))).
  set (x0 := inject_Z (Z.of_nat 0) * (1 / inject_Z (Z.of_nat (S n)))).
  assert (Hx : x == 0) by (subst x; change (inject_Z (Z.of_nat 0)) with 0; ring).
  assert (Hx0 : x0 == 0) by (subst x0; change (inject_Z (Z.of_nat 0)) with 0; ring).
  destruct (Qlt_bool x x0) eqn:E; [reflexivity |].
  destruct n as [| n']; [reflexivity |].
  destruct rest as [| y1 later]; [reflexivity |].
  cbn [seq map combine interp_from].
  set (x1 := inject_Z (Z.of_nat 1) * (1 / inject_Z (Z.of_nat (S (S n'))))).
  assert (Hx1 : 0 < x1).
  { subst x1. change (inject_Z (Z.of_nat 1)) with 1.
    assert (0 < inject_Z (Z.of_nat (S (S n')))).
    { change 0 with (inject_Z 0). rewrite <- Zlt_Qlt. lia. }
    rewrite Qmult_1_l. apply Qlt_shift_div_l; lra. }
  destruct (Qlt_bool x x1) eqn:E1.
  - assert (Hd : ~ x1 - x0 == 0) by lra.
    assert (Hz : x - x0 == 0) by lra.
    rewrite Hz. unfold Qdiv. ring.
  - apply Qlt_bool_false in E1. lra.
Qed.

End ResampleFacts.

(** X26: the resampler does not overshoot and keeps the first sample.  For a
    positive source rate, [_linear_resample_mono_float32] returns a signal
    all of whose samples lie between the smallest and the largest input
    sample, so a constant signal stays constant; a signal that is not empty
    is resampled to one that is not empty and starts with the same
    sample. *)
Theorem resample_stays_between (lo hi : Q) (waveform : list Q) (orig_sr target_sr : Z) :
  (0 < orig_sr)%Z ->
  Forall (between lo hi) waveform ->
  exists out,
    AudioIO._linear_resample_mono_float32 waveform orig_sr target_sr = Some out
    /\ Forall (between lo hi) out
    /\ match waveform, out with
       | [], [] => True
       | y :: _, z :: _ => z == y
       | _, _ => False
       end.
Proof.
  intros Hsr Hall. unfold AudioIO._linear_resample_mono_float32.
  destruct (orig_sr =? target_sr)%Z.
  { exists waveform. split; [reflexivity |]. split; [exact Hall |].
    destruct waveform; [exact I | reflexivity]. }
  destruct waveform as [| y0 rest].
  { exists []. repeat split. constructor. }
  cbn [length Nat.eqb].
  destruct (Z.eqb_spec orig_sr 0) as [-> | _]; [lia |].
  eexists. split; [reflexivity |]. split.
  - apply Forall_map, Forall_forall. intros x _.
    apply interp_between; [apply linspace_nonempty| | exact Hall]; discriminate.
  - match goal with
    | |- context [Z.to_nat (Z.max 1 ?len)] =>
        destruct (Z.to_nat (Z.max 1 len)) as [| k] eqn:Hk; [lia |]
    end.
    unfold AudioIO.linspace at 1. cbn [seq map].
    apply interp_at_origin.
Qed.

Lemma resample_stays_between_witness :
  exists out,
    AudioIO._linear_resample_mono_float32 [0.5; 0.5; 0.5] 8000 16000 = Some out
    /\ Forall (between 0.5 0.5) out.
Proof.
  destruct (resample_stays_between 0.5 0.5 [0.5; 0.5; 0.5] 8000 16000)
    as (out & H1 & H2 & _).
  - reflexivity.
  - repeat constructor; unfold Qle; simpl; lia.
  - exists out. split; assumption.
Defined.
